(** * Name and type resolution of the Ada front end ([ada/language/ast.py])

    The grammar classes of [ast.py] are written in a property DSL: every
    class declares fields (its children in the syntax tree) and properties
    (pure functions over nodes, entities, environments and logic
    equations).  This development embeds the properties that build
    resolution equations and match parameter lists, together with the
    class hierarchy they are dispatched on, and proves the properties the
    specification states about them.

    Layout:
    - [Langkit]  : outcome of a property evaluation (value, property
                   error, divergence) and the array helpers of the DSL;
    - [Kind]     : the closed set of node classes and their hierarchy;
    - [Envs]     : lexical environments, entities and rebindings;
    - [Ast]      : nodes, logic equations and the embedded properties;
    - the theorems, grouped by the construct they are about. *)

From Stdlib Require Import ZArith Lia Ascii String.
From stdpp Require Import base option list strings gmap.

Open Scope Z_scope.

(* ===================================================================== *)
(** ** Outcomes of property evaluation                                    *)
(* ===================================================================== *)

Module Langkit.

(** A property either returns a value, raises a property error
    (dereference of a null node, failed [cast_or_raise], call of an
    abstract property), or does not return (recursion that never ends,
    cut here by a fuel argument). *)
Inductive result (A : Type) : Type :=
  | Ok (a : A)
  | PropertyError
  | OutOfFuel.

Arguments Ok {A} a.
Arguments PropertyError {A}.
Arguments OutOfFuel {A}.

(** Sequencing: the first error or divergence is the outcome. *)
Definition bind_r {A B} (m : result A) (f : A -> result B) : result B :=
  match m with
  | Ok a => f a
  | PropertyError => PropertyError
  | OutOfFuel => OutOfFuel
  end.

Arguments bind_r {A B} m f : simpl never.

Notation "'let*' x ':=' m 'in' k" := (bind_r m (fun x => k))
  (at level 10, x pattern, m at level 100, k at level 200).

(** [x.f] on a nullable [x]: a null prefix raises. *)
Definition deref {A B} (x : option A) (f : A -> result B) : result B :=
  match x with
  | Some a => f a
  | None => PropertyError
  end.

(** [x._.f] and [x.then(f)]: a null prefix yields the null value. *)
Definition null_safe {A B} (x : option A) (f : A -> result (option B))
  : result (option B) :=
  match x with
  | Some a => f a
  | None => Ok None
  end.

(** [x.then(f, default_val=d)]. *)
Definition then_else {A B} (x : option A) (f : A -> result B) (d : B)
  : result B :=
  match x with
  | Some a => f a
  | None => Ok d
  end.

(** [arr.map(f)], evaluated front to back. *)
Fixpoint map_r {A B} (f : A -> result B) (l : list A) : result (list B) :=
  match l with
  | [] => Ok []
  | a :: l' => let* b := f a in let* bs := map_r f l' in Ok (b :: bs)
  end.

(** [arr.map(lambda i, a: ...)]: the callback also receives the index. *)
Fixpoint imap_r {A B} (f : Z -> A -> result B) (i : Z) (l : list A)
  : result (list B) :=
  match l with
  | [] => Ok []
  | a :: l' =>
      let* b := f i a in let* bs := imap_r f (i + 1) l' in Ok (b :: bs)
  end.

(** [arr.mapcat(f)]. *)
Fixpoint mapcat_r {A B} (f : A -> result (list B)) (l : list A)
  : result (list B) :=
  match l with
  | [] => Ok []
  | a :: l' => let* b := f a in let* bs := mapcat_r f l' in Ok (b ++ bs)
  end.

(** [arr.filter(p)]. *)
Fixpoint filter_r {A} (p : A -> result bool) (l : list A) : result (list A) :=
  match l with
  | [] => Ok []
  | a :: l' =>
      let* keep := p a in let* rest := filter_r p l' in
      Ok (if keep : bool then a :: rest else rest)
  end.

(** Whether a test evaluated to true. *)
Definition holds (r : result bool) : bool :=
  match r with
  | Ok b => b
  | _ => false
  end.

(** [arr.find(p)]: the first element satisfying [p], null when there is
    none; elements after the first hit are not examined. *)
Fixpoint find_r {A} (p : A -> result bool) (l : list A) : result (option A) :=
  match l with
  | [] => Ok None
  | a :: l' =>
      let* hit := p a in if hit : bool then Ok (Some a) else find_r p l'
  end.

(** [arr.all(p)]: stops at the first element that fails [p]. *)
Fixpoint all_r {A} (p : A -> result bool) (l : list A) : result bool :=
  match l with
  | [] => Ok true
  | a :: l' => let* ok := p a in if ok : bool then all_r p l' else Ok false
  end.

(** [arr.at(i)]: null when [i] is out of bounds. *)
Definition at_ {A} (l : list A) (i : Z) : option A :=
  if i <? 0 then None else l !! Z.to_nat i.

(** [arr.length]. *)
Definition length_ {A} (l : list A) : Z := Z.of_nat (length l).

End Langkit.

Import Langkit.

(* ===================================================================== *)
(** ** Node classes                                                       *)
(* ===================================================================== *)

Module Kind.

(** One constructor per class of [ast.py] deriving from [ASTNode].  An
    [EnumNode] class [C] with alternative [a] contributes [C] and its
    subclass [C_alt_a] (the source writes [C.alt_a]); qualifiers have the
    alternatives [absent] and [present].  [X_list] is the list class
    [X.list]; every list class derives from the generic [AdaList]. *)
Inductive node_class : Set :=
  | AdaNode | BasicDecl | Body | BodyStub | DiscriminantSpec
  | DiscriminantPart | KnownDiscriminantPart | UnknownDiscriminantPart
  | TypeDef | Variant | VariantPart | BaseFormalParamDecl | ComponentDecl
  | BaseFormalParamHolder | ComponentList | BaseRecordDef | RecordDef
  | NullRecordDef | Tagged | Tagged_alt_absent | Tagged_alt_present
  | Abstract | Abstract_alt_absent | Abstract_alt_present | Limited
  | Limited_alt_absent | Limited_alt_present | Private | Private_alt_absent
  | Private_alt_present | Aliased | Aliased_alt_absent | Aliased_alt_present
  | NotNull | NotNull_alt_absent | NotNull_alt_present | Constant
  | Constant_alt_absent | Constant_alt_present | All | All_alt_absent
  | All_alt_present | Abort | Abort_alt_absent | Abort_alt_present | Reverse
  | Reverse_alt_absent | Reverse_alt_present | WithPrivate
  | WithPrivate_alt_absent | WithPrivate_alt_present | Until
  | Until_alt_absent | Until_alt_present | Synchronized
  | Synchronized_alt_absent | Synchronized_alt_present | Protected
  | Protected_alt_absent | Protected_alt_present | RecordTypeDef
  | RealTypeDef | BaseTypeDecl | ClasswideTypeDecl | TypeDecl
  | AnonymousTypeDecl | EnumTypeDecl | FloatingPointDef
  | OrdinaryFixedPointDef | DecimalFixedPointDef | BaseAssoc | Constraint
  | RangeConstraint | DigitsConstraint | DeltaConstraint | IndexConstraint
  | DiscriminantConstraint | DiscriminantAssoc | DerivedTypeDef
  | PrivateTypeDef | SignedIntTypeDef | ModIntTypeDef | ArrayIndices
  | UnconstrainedArrayIndices | ConstrainedArrayIndices | ComponentDef
  | ArrayTypeDef | InterfaceKind | InterfaceKind_alt_limited
  | InterfaceKind_alt_task | InterfaceKind_alt_protected
  | InterfaceKind_alt_synchronized | InterfaceTypeDef | SubtypeDecl | TaskDef
  | ProtectedDef | TaskTypeDecl | SingleTaskTypeDecl | ProtectedTypeDecl
  | AccessDef | AccessToSubpDef | TypeAccessDef | FormalDiscreteTypeDef
  | NullComponentDecl | WithClause | UseClause | UsePackageClause
  | UseTypeClause | TypeExpr | AnonymousType | SubtypeIndication
  | ConstrainedSubtypeIndication | DiscreteSubtypeIndication | Mode
  | Mode_alt_in | Mode_alt_out | Mode_alt_in_out | Mode_alt_default
  | ParamSpec | AspectSpec | Overriding | Overriding_alt_overriding
  | Overriding_alt_not_overriding | Overriding_alt_unspecified
  | BasicSubpDecl | ClassicSubpDecl | SubpDecl | NullSubpDecl
  | AbstractSubpDecl | ExprFunction | SubpRenamingDecl | Pragma
  | PragmaArgumentAssoc | AspectClause | EnumRepClause | AttributeDefClause
  | ComponentClause | RecordRepClause | AtClause | SingleTaskDecl
  | SingleProtectedDecl | AspectAssoc | NumberDecl | ObjectDecl
  | ExtendedReturnStmtObjectDecl | DeclarativePart | PrivatePart | PublicPart
  | BasePackageDecl | PackageDecl | ExceptionDecl | GenericInstantiation
  | EnvHolder | GenericSubpInstantiation | GenericPackageInstantiation
  | RenamingClause | PackageRenamingDecl | GenericRenamingDecl
  | GenericPackageRenamingDecl | SubpKind | SubpKind_alt_procedure
  | SubpKind_alt_function | GenericSubpRenamingDecl | FormalSubpDecl
  | ConcreteFormalSubpDecl | AbstractFormalSubpDecl | GenericFormalPart
  | GenericFormal | GenericFormalObjDecl | GenericFormalTypeDecl
  | GenericFormalSubpDecl | GenericFormalPackage | GenericSubpInternal
  | GenericDecl | GenericSubpDecl | GenericPackageInternal
  | GenericPackageDecl | Expr | ContractCaseAssoc | ContractCases | ParenExpr
  | Op | Op_alt_and | Op_alt_or | Op_alt_or_else | Op_alt_and_then
  | Op_alt_xor | Op_alt_in | Op_alt_not_in | Op_alt_abs | Op_alt_not
  | Op_alt_pow | Op_alt_mult | Op_alt_div | Op_alt_mod | Op_alt_rem
  | Op_alt_plus | Op_alt_minus | Op_alt_concat | Op_alt_eq | Op_alt_neq
  | Op_alt_lt | Op_alt_lte | Op_alt_gt | Op_alt_gte | Op_alt_double_dot
  | UnOp | BinOp | RelationOp | MembershipExpr | BaseAggregate | Aggregate
  | NullRecordAggregate | Name | CallExpr | BasicAssoc | ParamAssoc
  | AggregateAssoc | MultiDimArrayAssoc | AssocList | DeclList | StmtList
  | ExplicitDeref | BoxExpr | OthersDesignator | IfExpr | ElsifExprPart
  | CaseExpr | CaseExprAlternative | SingleTokNode | BaseId | Identifier
  | StringLiteral | EnumLiteralDecl | CharLiteral | NumLiteral | RealLiteral
  | IntLiteral | NullLiteral | BaseSubpSpec | SubpSpec | EntryDecl
  | Quantifier | Quantifier_alt_all | Quantifier_alt_some | IterType
  | IterType_alt_in | IterType_alt_of | LoopSpec | ForLoopVarDecl
  | ForLoopSpec | QuantifiedExpr | Allocator | QualExpr | AttributeRef
  | UpdateAttributeRef | RaiseExpr | DottedName | CompilationUnit | SubpBody
  | HandledStmts | ExceptionHandler | Stmt | SimpleStmt | CompositeStmt
  | CallStmt | NullStmt | AssignStmt | GotoStmt | ExitStmt | ReturnStmt
  | RequeueStmt | AbortStmt | DelayStmt | RaiseStmt | IfStmt | ElsifStmtPart
  | LabelDecl | Label | WhileLoopSpec | NamedStmtDecl | NamedStmt
  | BaseLoopStmt | LoopStmt | ForLoopStmt | WhileLoopStmt | BlockStmt
  | DeclBlock | BeginBlock | ExtendedReturnStmt | CaseStmt
  | CaseStmtAlternative | AcceptStmt | AcceptStmtWithStmts | SelectStmt
  | SelectWhenPart | TerminateAlternative | PackageBody | TaskBody
  | ProtectedBody | EntryBody | EntryIndexSpec | Subunit | ProtectedBodyStub
  | SubpBodyStub | PackageBodyStub | TaskBodyStub | LibraryItem | RangeSpec
  | IncompleteTypeDecl | IncompleteTaggedTypeDecl | Params | ParentList
  | DiscriminantChoiceList | AlternativesList | ConstraintList
  | UnconstrainedArrayIndex | AdaList | AdaNode_list | AspectAssoc_list
  | BaseAssoc_list | BasicAssoc_list | CaseExprAlternative_list
  | CaseStmtAlternative_list | ComponentClause_list | ContractCaseAssoc_list
  | DiscriminantAssoc_list | DiscriminantSpec_list | ElsifExprPart_list
  | ElsifStmtPart_list | EnumLiteralDecl_list | Identifier_list | Name_list
  | ParamSpec_list | Pragma_list | SelectWhenPart_list
  | UnconstrainedArrayIndex_list | Variant_list.

(** The direct base class, as written in each [class C(Base)] header. *)
Definition base (c : node_class) : option node_class :=
  match c with
  | AdaNode => None
  | BasicDecl | DiscriminantPart | TypeDef | Variant | VariantPart
    | BaseFormalParamHolder | BaseRecordDef | Tagged | Abstract | Limited
    | Private | Aliased | NotNull | Constant | All | Abort | Reverse
    | WithPrivate | Until | Synchronized | Protected | BaseAssoc
    | Constraint | ArrayIndices | ComponentDef | InterfaceKind | TaskDef
    | ProtectedDef | NullComponentDecl | WithClause | UseClause
    | TypeExpr | Mode | AspectSpec | Overriding | Pragma | AspectClause
    | ComponentClause | AspectAssoc | DeclarativePart | EnvHolder
    | RenamingClause | SubpKind | Expr | Op | BasicAssoc
    | OthersDesignator | ElsifExprPart | Quantifier | IterType | LoopSpec
    | CompilationUnit | HandledStmts | ExceptionHandler | Stmt
    | ElsifStmtPart | CaseStmtAlternative | SelectWhenPart
    | EntryIndexSpec | Subunit | LibraryItem | RangeSpec | Params
    | UnconstrainedArrayIndex | AdaList => Some AdaNode
  | Body | DiscriminantSpec | BaseFormalParamDecl | BaseTypeDecl
    | ProtectedTypeDecl | BasicSubpDecl | SingleTaskDecl
    | SingleProtectedDecl | NumberDecl | ObjectDecl | BasePackageDecl
    | ExceptionDecl | GenericInstantiation | PackageRenamingDecl
    | GenericRenamingDecl | GenericDecl | EnumLiteralDecl | EntryDecl
    | ForLoopVarDecl | LabelDecl | NamedStmtDecl => Some BasicDecl
  | BodyStub | SubpBody | PackageBody | TaskBody | ProtectedBody
    | EntryBody => Some Body
  | KnownDiscriminantPart | UnknownDiscriminantPart => Some DiscriminantPart
  | ComponentDecl | ParamSpec | GenericFormal => Some BaseFormalParamDecl
  | ComponentList | GenericFormalPart | BaseSubpSpec => Some BaseFormalParamHolder
  | RecordDef | NullRecordDef => Some BaseRecordDef
  | Tagged_alt_absent | Tagged_alt_present => Some Tagged
  | Abstract_alt_absent | Abstract_alt_present => Some Abstract
  | Limited_alt_absent | Limited_alt_present => Some Limited
  | Private_alt_absent | Private_alt_present => Some Private
  | Aliased_alt_absent | Aliased_alt_present => Some Aliased
  | NotNull_alt_absent | NotNull_alt_present => Some NotNull
  | Constant_alt_absent | Constant_alt_present => Some Constant
  | All_alt_absent | All_alt_present => Some All
  | Abort_alt_absent | Abort_alt_present => Some Abort
  | Reverse_alt_absent | Reverse_alt_present => Some Reverse
  | WithPrivate_alt_absent | WithPrivate_alt_present => Some WithPrivate
  | Until_alt_absent | Until_alt_present => Some Until
  | Synchronized_alt_absent | Synchronized_alt_present => Some Synchronized
  | Protected_alt_absent | Protected_alt_present => Some Protected
  | RecordTypeDef | RealTypeDef | DerivedTypeDef | PrivateTypeDef
    | SignedIntTypeDef | ModIntTypeDef | ArrayTypeDef | InterfaceTypeDef
    | AccessDef | FormalDiscreteTypeDef => Some TypeDef
  | ClasswideTypeDecl | TypeDecl | EnumTypeDecl | SubtypeDecl
    | TaskTypeDecl | IncompleteTypeDecl => Some BaseTypeDecl
  | AnonymousTypeDecl => Some TypeDecl
  | FloatingPointDef | OrdinaryFixedPointDef | DecimalFixedPointDef => Some RealTypeDef
  | RangeConstraint | DigitsConstraint | DeltaConstraint
    | IndexConstraint | DiscriminantConstraint | DiscriminantAssoc => Some Constraint
  | UnconstrainedArrayIndices | ConstrainedArrayIndices => Some ArrayIndices
  | InterfaceKind_alt_limited | InterfaceKind_alt_task
    | InterfaceKind_alt_protected | InterfaceKind_alt_synchronized => Some InterfaceKind
  | SingleTaskTypeDecl => Some TaskTypeDecl
  | AccessToSubpDef | TypeAccessDef => Some AccessDef
  | UsePackageClause | UseTypeClause => Some UseClause
  | AnonymousType | SubtypeIndication => Some TypeExpr
  | ConstrainedSubtypeIndication | DiscreteSubtypeIndication => Some SubtypeIndication
  | Mode_alt_in | Mode_alt_out | Mode_alt_in_out | Mode_alt_default => Some Mode
  | Overriding_alt_overriding | Overriding_alt_not_overriding
    | Overriding_alt_unspecified => Some Overriding
  | ClassicSubpDecl | GenericSubpInternal => Some BasicSubpDecl
  | SubpDecl | NullSubpDecl | AbstractSubpDecl | ExprFunction
    | SubpRenamingDecl | FormalSubpDecl => Some ClassicSubpDecl
  | PragmaArgumentAssoc | ContractCaseAssoc => Some BaseAssoc
  | EnumRepClause | AttributeDefClause | RecordRepClause | AtClause => Some AspectClause
  | ExtendedReturnStmtObjectDecl => Some ObjectDecl
  | PrivatePart | PublicPart => Some DeclarativePart
  | PackageDecl | GenericPackageInternal => Some BasePackageDecl
  | GenericSubpInstantiation | GenericPackageInstantiation => Some GenericInstantiation
  | GenericPackageRenamingDecl | GenericSubpRenamingDecl => Some GenericRenamingDecl
  | SubpKind_alt_procedure | SubpKind_alt_function => Some SubpKind
  | ConcreteFormalSubpDecl | AbstractFormalSubpDecl => Some FormalSubpDecl
  | GenericFormalObjDecl | GenericFormalTypeDecl | GenericFormalSubpDecl
    | GenericFormalPackage => Some GenericFormal
  | GenericSubpDecl | GenericPackageDecl => Some GenericDecl
  | ContractCases | ParenExpr | UnOp | BinOp | MembershipExpr
    | BaseAggregate | Name | BoxExpr | IfExpr | CaseExpr
    | CaseExprAlternative | QuantifiedExpr | Allocator | RaiseExpr => Some Expr
  | Op_alt_and | Op_alt_or | Op_alt_or_else | Op_alt_and_then
    | Op_alt_xor | Op_alt_in | Op_alt_not_in | Op_alt_abs | Op_alt_not
    | Op_alt_pow | Op_alt_mult | Op_alt_div | Op_alt_mod | Op_alt_rem
    | Op_alt_plus | Op_alt_minus | Op_alt_concat | Op_alt_eq | Op_alt_neq
    | Op_alt_lt | Op_alt_lte | Op_alt_gt | Op_alt_gte | Op_alt_double_dot => Some Op
  | RelationOp => Some BinOp
  | Aggregate | NullRecordAggregate => Some BaseAggregate
  | CallExpr | ExplicitDeref | SingleTokNode | QualExpr | AttributeRef
    | DottedName => Some Name
  | ParamAssoc | AggregateAssoc => Some BasicAssoc
  | MultiDimArrayAssoc => Some AggregateAssoc
  | AssocList => Some BasicAssoc_list
  | DeclList | StmtList | AlternativesList | ConstraintList => Some AdaNode_list
  | BaseId | NumLiteral | NullLiteral => Some SingleTokNode
  | Identifier | StringLiteral | CharLiteral => Some BaseId
  | RealLiteral | IntLiteral => Some NumLiteral
  | SubpSpec => Some BaseSubpSpec
  | Quantifier_alt_all | Quantifier_alt_some => Some Quantifier
  | IterType_alt_in | IterType_alt_of => Some IterType
  | ForLoopSpec | WhileLoopSpec => Some LoopSpec
  | UpdateAttributeRef => Some AttributeRef
  | SimpleStmt | CompositeStmt => Some Stmt
  | CallStmt | NullStmt | AssignStmt | GotoStmt | ExitStmt | ReturnStmt
    | RequeueStmt | AbortStmt | DelayStmt | RaiseStmt | Label
    | TerminateAlternative => Some SimpleStmt
  | IfStmt | NamedStmt | BaseLoopStmt | BlockStmt | ExtendedReturnStmt
    | CaseStmt | AcceptStmt | SelectStmt => Some CompositeStmt
  | LoopStmt | ForLoopStmt | WhileLoopStmt => Some BaseLoopStmt
  | DeclBlock | BeginBlock => Some BlockStmt
  | AcceptStmtWithStmts => Some AcceptStmt
  | ProtectedBodyStub | SubpBodyStub | PackageBodyStub | TaskBodyStub => Some BodyStub
  | IncompleteTaggedTypeDecl => Some IncompleteTypeDecl
  | ParentList => Some Name_list
  | DiscriminantChoiceList => Some Identifier_list
  | AdaNode_list | AspectAssoc_list | BaseAssoc_list | BasicAssoc_list
    | CaseExprAlternative_list | CaseStmtAlternative_list
    | ComponentClause_list | ContractCaseAssoc_list
    | DiscriminantAssoc_list | DiscriminantSpec_list | ElsifExprPart_list
    | ElsifStmtPart_list | EnumLiteralDecl_list | Identifier_list
    | Name_list | ParamSpec_list | Pragma_list | SelectWhenPart_list
    | UnconstrainedArrayIndex_list | Variant_list => Some AdaList
  end.

(** Position of the class in [ast.py], used to compare classes. *)
Definition class_index (c : node_class) : positive :=
  match c with
  | AdaNode => 1 | BasicDecl => 2 | Body => 3 | BodyStub => 4
  | DiscriminantSpec => 5 | DiscriminantPart => 6
  | KnownDiscriminantPart => 7 | UnknownDiscriminantPart => 8 | TypeDef => 9
  | Variant => 10 | VariantPart => 11 | BaseFormalParamDecl => 12
  | ComponentDecl => 13 | BaseFormalParamHolder => 14 | ComponentList => 15
  | BaseRecordDef => 16 | RecordDef => 17 | NullRecordDef => 18
  | Tagged => 19 | Tagged_alt_absent => 20 | Tagged_alt_present => 21
  | Abstract => 22 | Abstract_alt_absent => 23 | Abstract_alt_present => 24
  | Limited => 25 | Limited_alt_absent => 26 | Limited_alt_present => 27
  | Private => 28 | Private_alt_absent => 29 | Private_alt_present => 30
  | Aliased => 31 | Aliased_alt_absent => 32 | Aliased_alt_present => 33
  | NotNull => 34 | NotNull_alt_absent => 35 | NotNull_alt_present => 36
  | Constant => 37 | Constant_alt_absent => 38 | Constant_alt_present => 39
  | All => 40 | All_alt_absent => 41 | All_alt_present => 42 | Abort => 43
  | Abort_alt_absent => 44 | Abort_alt_present => 45 | Reverse => 46
  | Reverse_alt_absent => 47 | Reverse_alt_present => 48 | WithPrivate => 49
  | WithPrivate_alt_absent => 50 | WithPrivate_alt_present => 51
  | Until => 52 | Until_alt_absent => 53 | Until_alt_present => 54
  | Synchronized => 55 | Synchronized_alt_absent => 56
  | Synchronized_alt_present => 57 | Protected => 58
  | Protected_alt_absent => 59 | Protected_alt_present => 60
  | RecordTypeDef => 61 | RealTypeDef => 62 | BaseTypeDecl => 63
  | ClasswideTypeDecl => 64 | TypeDecl => 65 | AnonymousTypeDecl => 66
  | EnumTypeDecl => 67 | FloatingPointDef => 68 | OrdinaryFixedPointDef => 69
  | DecimalFixedPointDef => 70 | BaseAssoc => 71 | Constraint => 72
  | RangeConstraint => 73 | DigitsConstraint => 74 | DeltaConstraint => 75
  | IndexConstraint => 76 | DiscriminantConstraint => 77
  | DiscriminantAssoc => 78 | DerivedTypeDef => 79 | PrivateTypeDef => 80
  | SignedIntTypeDef => 81 | ModIntTypeDef => 82 | ArrayIndices => 83
  | UnconstrainedArrayIndices => 84 | ConstrainedArrayIndices => 85
  | ComponentDef => 86 | ArrayTypeDef => 87 | InterfaceKind => 88
  | InterfaceKind_alt_limited => 89 | InterfaceKind_alt_task => 90
  | InterfaceKind_alt_protected => 91 | InterfaceKind_alt_synchronized => 92
  | InterfaceTypeDef => 93 | SubtypeDecl => 94 | TaskDef => 95
  | ProtectedDef => 96 | TaskTypeDecl => 97 | SingleTaskTypeDecl => 98
  | ProtectedTypeDecl => 99 | AccessDef => 100 | AccessToSubpDef => 101
  | TypeAccessDef => 102 | FormalDiscreteTypeDef => 103
  | NullComponentDecl => 104 | WithClause => 105 | UseClause => 106
  | UsePackageClause => 107 | UseTypeClause => 108 | TypeExpr => 109
  | AnonymousType => 110 | SubtypeIndication => 111
  | ConstrainedSubtypeIndication => 112 | DiscreteSubtypeIndication => 113
  | Mode => 114 | Mode_alt_in => 115 | Mode_alt_out => 116
  | Mode_alt_in_out => 117 | Mode_alt_default => 118 | ParamSpec => 119
  | AspectSpec => 120 | Overriding => 121 | Overriding_alt_overriding => 122
  | Overriding_alt_not_overriding => 123 | Overriding_alt_unspecified => 124
  | BasicSubpDecl => 125 | ClassicSubpDecl => 126 | SubpDecl => 127
  | NullSubpDecl => 128 | AbstractSubpDecl => 129 | ExprFunction => 130
  | SubpRenamingDecl => 131 | Pragma => 132 | PragmaArgumentAssoc => 133
  | AspectClause => 134 | EnumRepClause => 135 | AttributeDefClause => 136
  | ComponentClause => 137 | RecordRepClause => 138 | AtClause => 139
  | SingleTaskDecl => 140 | SingleProtectedDecl => 141 | AspectAssoc => 142
  | NumberDecl => 143 | ObjectDecl => 144
  | ExtendedReturnStmtObjectDecl => 145 | DeclarativePart => 146
  | PrivatePart => 147 | PublicPart => 148 | BasePackageDecl => 149
  | PackageDecl => 150 | ExceptionDecl => 151 | GenericInstantiation => 152
  | EnvHolder => 153 | GenericSubpInstantiation => 154
  | GenericPackageInstantiation => 155 | RenamingClause => 156
  | PackageRenamingDecl => 157 | GenericRenamingDecl => 158
  | GenericPackageRenamingDecl => 159 | SubpKind => 160
  | SubpKind_alt_procedure => 161 | SubpKind_alt_function => 162
  | GenericSubpRenamingDecl => 163 | FormalSubpDecl => 164
  | ConcreteFormalSubpDecl => 165 | AbstractFormalSubpDecl => 166
  | GenericFormalPart => 167 | GenericFormal => 168
  | GenericFormalObjDecl => 169 | GenericFormalTypeDecl => 170
  | GenericFormalSubpDecl => 171 | GenericFormalPackage => 172
  | GenericSubpInternal => 173 | GenericDecl => 174 | GenericSubpDecl => 175
  | GenericPackageInternal => 176 | GenericPackageDecl => 177 | Expr => 178
  | ContractCaseAssoc => 179 | ContractCases => 180 | ParenExpr => 181
  | Op => 182 | Op_alt_and => 183 | Op_alt_or => 184 | Op_alt_or_else => 185
  | Op_alt_and_then => 186 | Op_alt_xor => 187 | Op_alt_in => 188
  | Op_alt_not_in => 189 | Op_alt_abs => 190 | Op_alt_not => 191
  | Op_alt_pow => 192 | Op_alt_mult => 193 | Op_alt_div => 194
  | Op_alt_mod => 195 | Op_alt_rem => 196 | Op_alt_plus => 197
  | Op_alt_minus => 198 | Op_alt_concat => 199 | Op_alt_eq => 200
  | Op_alt_neq => 201 | Op_alt_lt => 202 | Op_alt_lte => 203
  | Op_alt_gt => 204 | Op_alt_gte => 205 | Op_alt_double_dot => 206
  | UnOp => 207 | BinOp => 208 | RelationOp => 209 | MembershipExpr => 210
  | BaseAggregate => 211 | Aggregate => 212 | NullRecordAggregate => 213
  | Name => 214 | CallExpr => 215 | BasicAssoc => 216 | ParamAssoc => 217
  | AggregateAssoc => 218 | MultiDimArrayAssoc => 219 | AssocList => 220
  | DeclList => 221 | StmtList => 222 | ExplicitDeref => 223 | BoxExpr => 224
  | OthersDesignator => 225 | IfExpr => 226 | ElsifExprPart => 227
  | CaseExpr => 228 | CaseExprAlternative => 229 | SingleTokNode => 230
  | BaseId => 231 | Identifier => 232 | StringLiteral => 233
  | EnumLiteralDecl => 234 | CharLiteral => 235 | NumLiteral => 236
  | RealLiteral => 237 | IntLiteral => 238 | NullLiteral => 239
  | BaseSubpSpec => 240 | SubpSpec => 241 | EntryDecl => 242
  | Quantifier => 243 | Quantifier_alt_all => 244
  | Quantifier_alt_some => 245 | IterType => 246 | IterType_alt_in => 247
  | IterType_alt_of => 248 | LoopSpec => 249 | ForLoopVarDecl => 250
  | ForLoopSpec => 251 | QuantifiedExpr => 252 | Allocator => 253
  | QualExpr => 254 | AttributeRef => 255 | UpdateAttributeRef => 256
  | RaiseExpr => 257 | DottedName => 258 | CompilationUnit => 259
  | SubpBody => 260 | HandledStmts => 261 | ExceptionHandler => 262
  | Stmt => 263 | SimpleStmt => 264 | CompositeStmt => 265 | CallStmt => 266
  | NullStmt => 267 | AssignStmt => 268 | GotoStmt => 269 | ExitStmt => 270
  | ReturnStmt => 271 | RequeueStmt => 272 | AbortStmt => 273
  | DelayStmt => 274 | RaiseStmt => 275 | IfStmt => 276
  | ElsifStmtPart => 277 | LabelDecl => 278 | Label => 279
  | WhileLoopSpec => 280 | NamedStmtDecl => 281 | NamedStmt => 282
  | BaseLoopStmt => 283 | LoopStmt => 284 | ForLoopStmt => 285
  | WhileLoopStmt => 286 | BlockStmt => 287 | DeclBlock => 288
  | BeginBlock => 289 | ExtendedReturnStmt => 290 | CaseStmt => 291
  | CaseStmtAlternative => 292 | AcceptStmt => 293
  | AcceptStmtWithStmts => 294 | SelectStmt => 295 | SelectWhenPart => 296
  | TerminateAlternative => 297 | PackageBody => 298 | TaskBody => 299
  | ProtectedBody => 300 | EntryBody => 301 | EntryIndexSpec => 302
  | Subunit => 303 | ProtectedBodyStub => 304 | SubpBodyStub => 305
  | PackageBodyStub => 306 | TaskBodyStub => 307 | LibraryItem => 308
  | RangeSpec => 309 | IncompleteTypeDecl => 310
  | IncompleteTaggedTypeDecl => 311 | Params => 312 | ParentList => 313
  | DiscriminantChoiceList => 314 | AlternativesList => 315
  | ConstraintList => 316 | UnconstrainedArrayIndex => 317 | AdaList => 318
  | AdaNode_list => 319 | AspectAssoc_list => 320 | BaseAssoc_list => 321
  | BasicAssoc_list => 322 | CaseExprAlternative_list => 323
  | CaseStmtAlternative_list => 324 | ComponentClause_list => 325
  | ContractCaseAssoc_list => 326 | DiscriminantAssoc_list => 327
  | DiscriminantSpec_list => 328 | ElsifExprPart_list => 329
  | ElsifStmtPart_list => 330 | EnumLiteralDecl_list => 331
  | Identifier_list => 332 | Name_list => 333 | ParamSpec_list => 334
  | Pragma_list => 335 | SelectWhenPart_list => 336
  | UnconstrainedArrayIndex_list => 337 | Variant_list => 338
  end.

Definition class_of_index (p : positive) : option node_class :=
  match p with
  | 1 => Some AdaNode | 2 => Some BasicDecl | 3 => Some Body
  | 4 => Some BodyStub | 5 => Some DiscriminantSpec
  | 6 => Some DiscriminantPart | 7 => Some KnownDiscriminantPart
  | 8 => Some UnknownDiscriminantPart | 9 => Some TypeDef
  | 10 => Some Variant | 11 => Some VariantPart
  | 12 => Some BaseFormalParamDecl | 13 => Some ComponentDecl
  | 14 => Some BaseFormalParamHolder | 15 => Some ComponentList
  | 16 => Some BaseRecordDef | 17 => Some RecordDef
  | 18 => Some NullRecordDef | 19 => Some Tagged
  | 20 => Some Tagged_alt_absent | 21 => Some Tagged_alt_present
  | 22 => Some Abstract | 23 => Some Abstract_alt_absent
  | 24 => Some Abstract_alt_present | 25 => Some Limited
  | 26 => Some Limited_alt_absent | 27 => Some Limited_alt_present
  | 28 => Some Private | 29 => Some Private_alt_absent
  | 30 => Some Private_alt_present | 31 => Some Aliased
  | 32 => Some Aliased_alt_absent | 33 => Some Aliased_alt_present
  | 34 => Some NotNull | 35 => Some NotNull_alt_absent
  | 36 => Some NotNull_alt_present | 37 => Some Constant
  | 38 => Some Constant_alt_absent | 39 => Some Constant_alt_present
  | 40 => Some All | 41 => Some All_alt_absent | 42 => Some All_alt_present
  | 43 => Some Abort | 44 => Some Abort_alt_absent
  | 45 => Some Abort_alt_present | 46 => Some Reverse
  | 47 => Some Reverse_alt_absent | 48 => Some Reverse_alt_present
  | 49 => Some WithPrivate | 50 => Some WithPrivate_alt_absent
  | 51 => Some WithPrivate_alt_present | 52 => Some Until
  | 53 => Some Until_alt_absent | 54 => Some Until_alt_present
  | 55 => Some Synchronized | 56 => Some Synchronized_alt_absent
  | 57 => Some Synchronized_alt_present | 58 => Some Protected
  | 59 => Some Protected_alt_absent | 60 => Some Protected_alt_present
  | 61 => Some RecordTypeDef | 62 => Some RealTypeDef
  | 63 => Some BaseTypeDecl | 64 => Some ClasswideTypeDecl
  | 65 => Some TypeDecl | 66 => Some AnonymousTypeDecl
  | 67 => Some EnumTypeDecl | 68 => Some FloatingPointDef
  | 69 => Some OrdinaryFixedPointDef | 70 => Some DecimalFixedPointDef
  | 71 => Some BaseAssoc | 72 => Some Constraint | 73 => Some RangeConstraint
  | 74 => Some DigitsConstraint | 75 => Some DeltaConstraint
  | 76 => Some IndexConstraint | 77 => Some DiscriminantConstraint
  | 78 => Some DiscriminantAssoc | 79 => Some DerivedTypeDef
  | 80 => Some PrivateTypeDef | 81 => Some SignedIntTypeDef
  | 82 => Some ModIntTypeDef | 83 => Some ArrayIndices
  | 84 => Some UnconstrainedArrayIndices | 85 => Some ConstrainedArrayIndices
  | 86 => Some ComponentDef | 87 => Some ArrayTypeDef
  | 88 => Some InterfaceKind | 89 => Some InterfaceKind_alt_limited
  | 90 => Some InterfaceKind_alt_task
  | 91 => Some InterfaceKind_alt_protected
  | 92 => Some InterfaceKind_alt_synchronized | 93 => Some InterfaceTypeDef
  | 94 => Some SubtypeDecl | 95 => Some TaskDef | 96 => Some ProtectedDef
  | 97 => Some TaskTypeDecl | 98 => Some SingleTaskTypeDecl
  | 99 => Some ProtectedTypeDecl | 100 => Some AccessDef
  | 101 => Some AccessToSubpDef | 102 => Some TypeAccessDef
  | 103 => Some FormalDiscreteTypeDef | 104 => Some NullComponentDecl
  | 105 => Some WithClause | 106 => Some UseClause
  | 107 => Some UsePackageClause | 108 => Some UseTypeClause
  | 109 => Some TypeExpr | 110 => Some AnonymousType
  | 111 => Some SubtypeIndication | 112 => Some ConstrainedSubtypeIndication
  | 113 => Some DiscreteSubtypeIndication | 114 => Some Mode
  | 115 => Some Mode_alt_in | 116 => Some Mode_alt_out
  | 117 => Some Mode_alt_in_out | 118 => Some Mode_alt_default
  | 119 => Some ParamSpec | 120 => Some AspectSpec | 121 => Some Overriding
  | 122 => Some Overriding_alt_overriding
  | 123 => Some Overriding_alt_not_overriding
  | 124 => Some Overriding_alt_unspecified | 125 => Some BasicSubpDecl
  | 126 => Some ClassicSubpDecl | 127 => Some SubpDecl
  | 128 => Some NullSubpDecl | 129 => Some AbstractSubpDecl
  | 130 => Some ExprFunction | 131 => Some SubpRenamingDecl
  | 132 => Some Pragma | 133 => Some PragmaArgumentAssoc
  | 134 => Some AspectClause | 135 => Some EnumRepClause
  | 136 => Some AttributeDefClause | 137 => Some ComponentClause
  | 138 => Some RecordRepClause | 139 => Some AtClause
  | 140 => Some SingleTaskDecl | 141 => Some SingleProtectedDecl
  | 142 => Some AspectAssoc | 143 => Some NumberDecl | 144 => Some ObjectDecl
  | 145 => Some ExtendedReturnStmtObjectDecl | 146 => Some DeclarativePart
  | 147 => Some PrivatePart | 148 => Some PublicPart
  | 149 => Some BasePackageDecl | 150 => Some PackageDecl
  | 151 => Some ExceptionDecl | 152 => Some GenericInstantiation
  | 153 => Some EnvHolder | 154 => Some GenericSubpInstantiation
  | 155 => Some GenericPackageInstantiation | 156 => Some RenamingClause
  | 157 => Some PackageRenamingDecl | 158 => Some GenericRenamingDecl
  | 159 => Some GenericPackageRenamingDecl | 160 => Some SubpKind
  | 161 => Some SubpKind_alt_procedure | 162 => Some SubpKind_alt_function
  | 163 => Some GenericSubpRenamingDecl | 164 => Some FormalSubpDecl
  | 165 => Some ConcreteFormalSubpDecl | 166 => Some AbstractFormalSubpDecl
  | 167 => Some GenericFormalPart | 168 => Some GenericFormal
  | 169 => Some GenericFormalObjDecl | 170 => Some GenericFormalTypeDecl
  | 171 => Some GenericFormalSubpDecl | 172 => Some GenericFormalPackage
  | 173 => Some GenericSubpInternal | 174 => Some GenericDecl
  | 175 => Some GenericSubpDecl | 176 => Some GenericPackageInternal
  | 177 => Some GenericPackageDecl | 178 => Some Expr
  | 179 => Some ContractCaseAssoc | 180 => Some ContractCases
  | 181 => Some ParenExpr | 182 => Some Op | 183 => Some Op_alt_and
  | 184 => Some Op_alt_or | 185 => Some Op_alt_or_else
  | 186 => Some Op_alt_and_then | 187 => Some Op_alt_xor
  | 188 => Some Op_alt_in | 189 => Some Op_alt_not_in
  | 190 => Some Op_alt_abs | 191 => Some Op_alt_not | 192 => Some Op_alt_pow
  | 193 => Some Op_alt_mult | 194 => Some Op_alt_div | 195 => Some Op_alt_mod
  | 196 => Some Op_alt_rem | 197 => Some Op_alt_plus
  | 198 => Some Op_alt_minus | 199 => Some Op_alt_concat
  | 200 => Some Op_alt_eq | 201 => Some Op_alt_neq | 202 => Some Op_alt_lt
  | 203 => Some Op_alt_lte | 204 => Some Op_alt_gt | 205 => Some Op_alt_gte
  | 206 => Some Op_alt_double_dot | 207 => Some UnOp | 208 => Some BinOp
  | 209 => Some RelationOp | 210 => Some MembershipExpr
  | 211 => Some BaseAggregate | 212 => Some Aggregate
  | 213 => Some NullRecordAggregate | 214 => Some Name | 215 => Some CallExpr
  | 216 => Some BasicAssoc | 217 => Some ParamAssoc
  | 218 => Some AggregateAssoc | 219 => Some MultiDimArrayAssoc
  | 220 => Some AssocList | 221 => Some DeclList | 222 => Some StmtList
  | 223 => Some ExplicitDeref | 224 => Some BoxExpr
  | 225 => Some OthersDesignator | 226 => Some IfExpr
  | 227 => Some ElsifExprPart | 228 => Some CaseExpr
  | 229 => Some CaseExprAlternative | 230 => Some SingleTokNode
  | 231 => Some BaseId | 232 => Some Identifier | 233 => Some StringLiteral
  | 234 => Some EnumLiteralDecl | 235 => Some CharLiteral
  | 236 => Some NumLiteral | 237 => Some RealLiteral | 238 => Some IntLiteral
  | 239 => Some NullLiteral | 240 => Some BaseSubpSpec | 241 => Some SubpSpec
  | 242 => Some EntryDecl | 243 => Some Quantifier
  | 244 => Some Quantifier_alt_all | 245 => Some Quantifier_alt_some
  | 246 => Some IterType | 247 => Some IterType_alt_in
  | 248 => Some IterType_alt_of | 249 => Some LoopSpec
  | 250 => Some ForLoopVarDecl | 251 => Some ForLoopSpec
  | 252 => Some QuantifiedExpr | 253 => Some Allocator | 254 => Some QualExpr
  | 255 => Some AttributeRef | 256 => Some UpdateAttributeRef
  | 257 => Some RaiseExpr | 258 => Some DottedName
  | 259 => Some CompilationUnit | 260 => Some SubpBody
  | 261 => Some HandledStmts | 262 => Some ExceptionHandler
  | 263 => Some Stmt | 264 => Some SimpleStmt | 265 => Some CompositeStmt
  | 266 => Some CallStmt | 267 => Some NullStmt | 268 => Some AssignStmt
  | 269 => Some GotoStmt | 270 => Some ExitStmt | 271 => Some ReturnStmt
  | 272 => Some RequeueStmt | 273 => Some AbortStmt | 274 => Some DelayStmt
  | 275 => Some RaiseStmt | 276 => Some IfStmt | 277 => Some ElsifStmtPart
  | 278 => Some LabelDecl | 279 => Some Label | 280 => Some WhileLoopSpec
  | 281 => Some NamedStmtDecl | 282 => Some NamedStmt
  | 283 => Some BaseLoopStmt | 284 => Some LoopStmt | 285 => Some ForLoopStmt
  | 286 => Some WhileLoopStmt | 287 => Some BlockStmt | 288 => Some DeclBlock
  | 289 => Some BeginBlock | 290 => Some ExtendedReturnStmt
  | 291 => Some CaseStmt | 292 => Some CaseStmtAlternative
  | 293 => Some AcceptStmt | 294 => Some AcceptStmtWithStmts
  | 295 => Some SelectStmt | 296 => Some SelectWhenPart
  | 297 => Some TerminateAlternative | 298 => Some PackageBody
  | 299 => Some TaskBody | 300 => Some ProtectedBody | 301 => Some EntryBody
  | 302 => Some EntryIndexSpec | 303 => Some Subunit
  | 304 => Some ProtectedBodyStub | 305 => Some SubpBodyStub
  | 306 => Some PackageBodyStub | 307 => Some TaskBodyStub
  | 308 => Some LibraryItem | 309 => Some RangeSpec
  | 310 => Some IncompleteTypeDecl | 311 => Some IncompleteTaggedTypeDecl
  | 312 => Some Params | 313 => Some ParentList
  | 314 => Some DiscriminantChoiceList | 315 => Some AlternativesList
  | 316 => Some ConstraintList | 317 => Some UnconstrainedArrayIndex
  | 318 => Some AdaList | 319 => Some AdaNode_list
  | 320 => Some AspectAssoc_list | 321 => Some BaseAssoc_list
  | 322 => Some BasicAssoc_list | 323 => Some CaseExprAlternative_list
  | 324 => Some CaseStmtAlternative_list | 325 => Some ComponentClause_list
  | 326 => Some ContractCaseAssoc_list | 327 => Some DiscriminantAssoc_list
  | 328 => Some DiscriminantSpec_list | 329 => Some ElsifExprPart_list
  | 330 => Some ElsifStmtPart_list | 331 => Some EnumLiteralDecl_list
  | 332 => Some Identifier_list | 333 => Some Name_list
  | 334 => Some ParamSpec_list | 335 => Some Pragma_list
  | 336 => Some SelectWhenPart_list
  | 337 => Some UnconstrainedArrayIndex_list | 338 => Some Variant_list
  | _ => None
  end%positive.

Definition all_classes : list node_class :=
  [AdaNode; BasicDecl; Body; BodyStub; DiscriminantSpec; DiscriminantPart;
   KnownDiscriminantPart; UnknownDiscriminantPart; TypeDef; Variant;
   VariantPart; BaseFormalParamDecl; ComponentDecl; BaseFormalParamHolder;
   ComponentList; BaseRecordDef; RecordDef; NullRecordDef; Tagged;
   Tagged_alt_absent; Tagged_alt_present; Abstract; Abstract_alt_absent;
   Abstract_alt_present; Limited; Limited_alt_absent; Limited_alt_present;
   Private; Private_alt_absent; Private_alt_present; Aliased;
   Aliased_alt_absent; Aliased_alt_present; NotNull; NotNull_alt_absent;
   NotNull_alt_present; Constant; Constant_alt_absent; Constant_alt_present;
   All; All_alt_absent; All_alt_present; Abort; Abort_alt_absent;
   Abort_alt_present; Reverse; Reverse_alt_absent; Reverse_alt_present;
   WithPrivate; WithPrivate_alt_absent; WithPrivate_alt_present; Until;
   Until_alt_absent; Until_alt_present; Synchronized;
   Synchronized_alt_absent; Synchronized_alt_present; Protected;
   Protected_alt_absent; Protected_alt_present; RecordTypeDef; RealTypeDef;
   BaseTypeDecl; ClasswideTypeDecl; TypeDecl; AnonymousTypeDecl;
   EnumTypeDecl; FloatingPointDef; OrdinaryFixedPointDef;
   DecimalFixedPointDef; BaseAssoc; Constraint; RangeConstraint;
   DigitsConstraint; DeltaConstraint; IndexConstraint;
   DiscriminantConstraint; DiscriminantAssoc; DerivedTypeDef;
   PrivateTypeDef; SignedIntTypeDef; ModIntTypeDef; ArrayIndices;
   UnconstrainedArrayIndices; ConstrainedArrayIndices; ComponentDef;
   ArrayTypeDef; InterfaceKind; InterfaceKind_alt_limited;
   InterfaceKind_alt_task; InterfaceKind_alt_protected;
   InterfaceKind_alt_synchronized; InterfaceTypeDef; SubtypeDecl; TaskDef;
   ProtectedDef; TaskTypeDecl; SingleTaskTypeDecl; ProtectedTypeDecl;
   AccessDef; AccessToSubpDef; TypeAccessDef; FormalDiscreteTypeDef;
   NullComponentDecl; WithClause; UseClause; UsePackageClause;
   UseTypeClause; TypeExpr; AnonymousType; SubtypeIndication;
   ConstrainedSubtypeIndication; DiscreteSubtypeIndication; Mode;
   Mode_alt_in; Mode_alt_out; Mode_alt_in_out; Mode_alt_default; ParamSpec;
   AspectSpec; Overriding; Overriding_alt_overriding;
   Overriding_alt_not_overriding; Overriding_alt_unspecified; BasicSubpDecl;
   ClassicSubpDecl; SubpDecl; NullSubpDecl; AbstractSubpDecl; ExprFunction;
   SubpRenamingDecl; Pragma; PragmaArgumentAssoc; AspectClause;
   EnumRepClause; AttributeDefClause; ComponentClause; RecordRepClause;
   AtClause; SingleTaskDecl; SingleProtectedDecl; AspectAssoc; NumberDecl;
   ObjectDecl; ExtendedReturnStmtObjectDecl; DeclarativePart; PrivatePart;
   PublicPart; BasePackageDecl; PackageDecl; ExceptionDecl;
   GenericInstantiation; EnvHolder; GenericSubpInstantiation;
   GenericPackageInstantiation; RenamingClause; PackageRenamingDecl;
   GenericRenamingDecl; GenericPackageRenamingDecl; SubpKind;
   SubpKind_alt_procedure; SubpKind_alt_function; GenericSubpRenamingDecl;
   FormalSubpDecl; ConcreteFormalSubpDecl; AbstractFormalSubpDecl;
   GenericFormalPart; GenericFormal; GenericFormalObjDecl;
   GenericFormalTypeDecl; GenericFormalSubpDecl; GenericFormalPackage;
   GenericSubpInternal; GenericDecl; GenericSubpDecl;
   GenericPackageInternal; GenericPackageDecl; Expr; ContractCaseAssoc;
   ContractCases; ParenExpr; Op; Op_alt_and; Op_alt_or; Op_alt_or_else;
   Op_alt_and_then; Op_alt_xor; Op_alt_in; Op_alt_not_in; Op_alt_abs;
   Op_alt_not; Op_alt_pow; Op_alt_mult; Op_alt_div; Op_alt_mod; Op_alt_rem;
   Op_alt_plus; Op_alt_minus; Op_alt_concat; Op_alt_eq; Op_alt_neq;
   Op_alt_lt; Op_alt_lte; Op_alt_gt; Op_alt_gte; Op_alt_double_dot; UnOp;
   BinOp; RelationOp; MembershipExpr; BaseAggregate; Aggregate;
   NullRecordAggregate; Name; CallExpr; BasicAssoc; ParamAssoc;
   AggregateAssoc; MultiDimArrayAssoc; AssocList; DeclList; StmtList;
   ExplicitDeref; BoxExpr; OthersDesignator; IfExpr; ElsifExprPart;
   CaseExpr; CaseExprAlternative; SingleTokNode; BaseId; Identifier;
   StringLiteral; EnumLiteralDecl; CharLiteral; NumLiteral; RealLiteral;
   IntLiteral; NullLiteral; BaseSubpSpec; SubpSpec; EntryDecl; Quantifier;
   Quantifier_alt_all; Quantifier_alt_some; IterType; IterType_alt_in;
   IterType_alt_of; LoopSpec; ForLoopVarDecl; ForLoopSpec; QuantifiedExpr;
   Allocator; QualExpr; AttributeRef; UpdateAttributeRef; RaiseExpr;
   DottedName; CompilationUnit; SubpBody; HandledStmts; ExceptionHandler;
   Stmt; SimpleStmt; CompositeStmt; CallStmt; NullStmt; AssignStmt;
   GotoStmt; ExitStmt; ReturnStmt; RequeueStmt; AbortStmt; DelayStmt;
   RaiseStmt; IfStmt; ElsifStmtPart; LabelDecl; Label; WhileLoopSpec;
   NamedStmtDecl; NamedStmt; BaseLoopStmt; LoopStmt; ForLoopStmt;
   WhileLoopStmt; BlockStmt; DeclBlock; BeginBlock; ExtendedReturnStmt;
   CaseStmt; CaseStmtAlternative; AcceptStmt; AcceptStmtWithStmts;
   SelectStmt; SelectWhenPart; TerminateAlternative; PackageBody; TaskBody;
   ProtectedBody; EntryBody; EntryIndexSpec; Subunit; ProtectedBodyStub;
   SubpBodyStub; PackageBodyStub; TaskBodyStub; LibraryItem; RangeSpec;
   IncompleteTypeDecl; IncompleteTaggedTypeDecl; Params; ParentList;
   DiscriminantChoiceList; AlternativesList; ConstraintList;
   UnconstrainedArrayIndex; AdaList; AdaNode_list; AspectAssoc_list;
   BaseAssoc_list; BasicAssoc_list; CaseExprAlternative_list;
   CaseStmtAlternative_list; ComponentClause_list; ContractCaseAssoc_list;
   DiscriminantAssoc_list; DiscriminantSpec_list; ElsifExprPart_list;
   ElsifStmtPart_list; EnumLiteralDecl_list; Identifier_list; Name_list;
   ParamSpec_list; Pragma_list; SelectWhenPart_list;
   UnconstrainedArrayIndex_list; Variant_list].

#[global] Instance node_class_eq_dec : EqDecision node_class.
Proof.
  intros a b.
  assert (inv : forall c, class_of_index (class_index c) = Some c)
    by (intros []; reflexivity).
  destruct (Pos.eq_dec (class_index a) (class_index b)) as [e | ne].
  - left. apply (f_equal class_of_index) in e.
    rewrite !inv in e. congruence.
  - right. congruence.
Defined.

Definition class_eqb (a b : node_class) : bool :=
  Pos.eqb (class_index a) (class_index b).

(** The class itself followed by its ancestors, most derived first.  No
    chain of the hierarchy is longer than seven classes. *)
Fixpoint ancestors (fuel : nat) (c : node_class) : list node_class :=
  c :: match fuel, base c with
       | S fuel', Some b => ancestors fuel' b
       | _, _ => []
       end.

Definition mro (c : node_class) : list node_class := ancestors 8 c.

(** [n.is_a(T)] and the test behind [n.cast(T)] and [match]. *)
Definition is_a (c t : node_class) : bool := existsb (class_eqb t) (mro c).

Arguments is_a c t : simpl never.

(** Dynamic dispatch: a property declared on some classes, [decl], is
    resolved on the most derived class of [c] that declares it. *)
Fixpoint first_declared {A} (decl : node_class -> option A)
  (l : list node_class) : option A :=
  match l with
  | [] => None
  | c :: l' =>
      match decl c with
      | Some a => Some a
      | None => first_declared decl l'
      end
  end.

Definition dispatch {A} (decl : node_class -> option A) (c : node_class)
  : option A :=
  first_declared decl (mro c).

End Kind.

(* ===================================================================== *)
(** ** Lexical environments, entities and rebindings                      *)
(* ===================================================================== *)

Module Envs.

Definition Symbol := string.

(** [class Metadata(Struct)]: the tags attached to an environment entry. *)
Record Metadata : Set := {
  dottable_subp : bool;
  implicit_deref : bool
}.

Definition No_Metadata : Metadata :=
  {| dottable_subp := false; implicit_deref := false |}.

(** Environments are referred to by handle. *)
Abbreviation env_id := positive.

(** Modelled from the spec: the environment store, entity values, lookup
    and rebinding (sections 3, 4.1 and 4.2).  [ast.py] only calls these
    operations ([get], [rebind_env], [children_env], ...); their
    implementation belongs to the runtime of the property DSL.

    A rebinding is the immutable pair (source environment, target
    environment); being a plain pair, two rebindings of the same pair are
    the same value. *)
Record Rebinding : Set := {
  rb_source : env_id;
  rb_target : env_id
}.

Definition rebind (source target : env_id) : Rebinding :=
  {| rb_source := source; rb_target := target |}.

Record entity_info : Set := {
  md : Metadata;
  rebindings : list Rebinding
}.

Definition No_entity_info : entity_info :=
  {| md := No_Metadata; rebindings := [] |}.

(** Modelled from the spec: an entity is (node, metadata, rebinding
    chain); two entities are equal only if the three match (section 3). *)
Record entity (node : Type) : Type := {
  el : node;
  info : entity_info
}.

Arguments el {node} _.
Arguments info {node} _.
Arguments Build_entity {node} _ _.

#[global] Instance Metadata_eq_dec : EqDecision Metadata.
Proof. solve_decision. Defined.

#[global] Instance Rebinding_eq_dec : EqDecision Rebinding.
Proof. solve_decision. Defined.

#[global] Instance entity_info_eq_dec : EqDecision entity_info.
Proof. solve_decision. Defined.

#[global] Instance entity_eq_dec {node} `{EqDecision node} :
  EqDecision (entity node).
Proof. solve_decision. Defined.

(** Modelled from the spec: a lexical environment as a property sees it,
    the empty environment ([EmptyEnv]) or a stored environment, seen
    through the rebindings accumulated by [rebind_env]. *)
Record lexical_env : Set := {
  le_env : option env_id;
  le_rebindings : list Rebinding
}.

Definition EmptyEnv : lexical_env :=
  {| le_env := None; le_rebindings := [] |}.

Definition plain_env (e : env_id) : lexical_env :=
  {| le_env := Some e; le_rebindings := [] |}.

(** Modelled from the spec: [e.rebind_env(source, target)] of the DSL
    runtime, the same environment with the rebinding of [source] to
    [target] appended to its chain.  Rebinding from or to the empty
    environment changes nothing. *)
Definition rebind_env (e source target : lexical_env) : lexical_env :=
  match le_env source, le_env target with
  | Some s, Some t =>
      {| le_env := le_env e;
         le_rebindings := le_rebindings e ++ [rebind s t] |}
  | _, _ => e
  end.

(** Removal of duplicates that keeps the first occurrence of each element,
    so that the order of first appearance is preserved. *)
Fixpoint dedup {A} `{EqDecision A} (l : list A) : list A :=
  match l with
  | [] => []
  | x :: l' => x :: filter (fun y => y <> x) (dedup l')
  end.

Section Store.

Context {node : Type} `{EqDecision node}.

(** Textual order of declarations: [declared_after n ref] holds when the
    node [n] is declared after the reference point [ref]. *)
Variable declared_after : node -> node -> bool.

(** Tags asserted by a referenced-environment edge; an asserted tag
    overrides the tag of every entity reached through the edge. *)
Record md_assertion : Set := {
  assert_dottable_subp : option bool;
  assert_implicit_deref : option bool
}.

Definition combine_md (a : md_assertion) (m : Metadata) : Metadata :=
  {| dottable_subp := default (dottable_subp m) (assert_dottable_subp a);
     implicit_deref := default (implicit_deref m) (assert_implicit_deref a) |}.

(** Modelled from the spec: referenced-environment descriptor
    (section 3).  The lazy target computation is
    represented by the environment it yields ([None] when it yields the
    empty environment). *)
Record ReferencedEnvDescriptor : Type := {
  ref_owner : node;
  ref_target : option env_id;
  ref_recursive : bool;
  ref_post : bool;
  ref_md : md_assertion
}.

(** Modelled from the spec: an environment is a map from symbols to
    entities in insertion order, a nullable parent link and an ordered
    list of referenced-environment descriptors (section 3). *)
Record Environment : Type := {
  env_owner : option node;
  env_parent : option env_id;
  env_map : gmap Symbol (list (entity node));
  env_refs : list ReferencedEnvDescriptor
}.

(** The store; [next_env] is the next unused handle. *)
Record store : Type := {
  envs : gmap env_id Environment;
  next_env : env_id
}.

Definition empty_store : store := {| envs := ∅; next_env := 1%positive |}.

(** Modelled from the spec: [create(owner, parent)] (section 4.1). *)
Definition create (owner : option node) (parent : option env_id) (st : store)
  : env_id * store :=
  let e := next_env st in
  (e, {| envs := <[e := {| env_owner := owner; env_parent := parent;
                            env_map := ∅; env_refs := [] |}]> (envs st);
         next_env := Pos.succ e |}).

Definition add_entry (s : Symbol) (x : entity node) (E : Environment)
  : Environment :=
  {| env_owner := env_owner E; env_parent := env_parent E;
     env_map := <[s := default [] (env_map E !! s) ++ [x]]> (env_map E);
     env_refs := env_refs E |}.

(** Modelled from the spec: [add(env, symbol, entity)] (section 4.1); the
    entity goes after the ones already stored under the symbol. *)
Definition add (e : env_id) (s : Symbol) (x : entity node) (st : store)
  : store :=
  {| envs := alter (add_entry s x) e (envs st); next_env := next_env st |}.

Definition add_ref_entry (d : ReferencedEnvDescriptor) (E : Environment)
  : Environment :=
  {| env_owner := env_owner E; env_parent := env_parent E;
     env_map := env_map E; env_refs := env_refs E ++ [d] |}.

(** Modelled from the spec: registration of a referenced-environment edge
    on [e] (section 4.5). *)
Definition reference (e : env_id) (d : ReferencedEnvDescriptor) (st : store)
  : store :=
  {| envs := alter (add_ref_entry d) e (envs st); next_env := next_env st |}.

(** Modelled from the spec: application of rebindings during traversal;
    any environment matching a rebinding's source is replaced by its
    target (section 3). *)
Fixpoint apply_rebindings (rbs : list Rebinding) (e : env_id) : env_id :=
  match rbs with
  | [] => e
  | rb :: rbs' =>
      apply_rebindings rbs'
        (if decide (rb_source rb = e) then rb_target rb else e)
  end.

(** Modelled from the spec: lookups return entities paired with the
    rebindings applied on the path (section 3). *)
Definition decorate (rbs : list Rebinding) (x : entity node) : entity node :=
  {| el := el x;
     info := {| md := md (info x);
                rebindings := rebindings (info x) ++ rbs |} |}.

Definition with_md (a : md_assertion) (x : entity node) : entity node :=
  {| el := el x;
     info := {| md := combine_md a (md (info x));
                rebindings := rebindings (info x) |} |}.

Definition visible (from : option node) (x : entity node) : bool :=
  match from with
  | Some ref => negb (declared_after (el x) ref)
  | None => true
  end.

(** The entities stored directly at [e] under [s], in insertion order. *)
Definition own_entities (st : store) (e : env_id) (s : Symbol)
  : list (entity node) :=
  match envs st !! e with
  | Some E => default [] (env_map E !! s)
  | None => []
  end.

(** Modelled from the spec: one traversal of [get] (section 4.1).  At
    each level the directly stored entities, then (in a recursive lookup)
    the entities of the referenced environments in descriptor order, then
    the parent level; a lookup that is not recursive stays in the
    environment it is given (section 8).  [visited] holds the
    (environment, symbol) pairs being resolved; re-entering one of them
    through a referenced environment yields no match. *)
Fixpoint collect (fuel : nat) (st : store) (visited : list (env_id * Symbol))
  (rbs : list Rebinding) (e : env_id) (s : Symbol) (recursive : bool)
  (from : option node) : list (entity node) :=
  match fuel with
  | O => []
  | S fuel' =>
      let e' := apply_rebindings rbs e in
      let own := decorate rbs <$> filter (fun x => visible from x = true)
                                         (own_entities st e' s) in
      if recursive then
        match envs st !! e' with
        | None => own
        | Some E =>
            let refd :=
              if decide ((e', s) ∈ visited) then []
              else
                flat_map
                  (fun d =>
                     match ref_target d with
                     | None => []
                     | Some t =>
                         with_md (ref_md d) <$>
                           collect fuel' st ((e', s) :: visited) rbs t s
                             (ref_recursive d) from
                     end)
                  (env_refs E) in
            let up :=
              match env_parent E with
              | None => []
              | Some p => collect fuel' st visited rbs p s true from
              end in
            own ++ refd ++ up
        end
      else own
  end.

(** Parent links never cycle and every step through a referenced
    environment adds a pair to [visited], so a traversal is never deeper
    than this bound. *)
Definition lookup_depth (st : store) : nat :=
  S (size (envs st)) * S (size (envs st)).

(** Modelled from the spec: [get(env, symbol, recursive,
    sequential_from)] (section 4.1), the traversal deduplicated by entity
    equality. *)
Definition get (st : store) (env : lexical_env) (s : Symbol)
  (recursive : bool) (from : option node) : list (entity node) :=
  match le_env env with
  | None => []
  | Some e =>
      dedup (collect (lookup_depth st) st [] (le_rebindings env) e s
               recursive from)
  end.

(** Modelled from the spec: the actions of the population pass on the
    store (section 4.5), in the order they are run: creation of an environment, registration of an entity and
    registration of a referenced environment. *)
Inductive action : Type :=
  | Create (owner : option node) (parent : option env_id)
  | Add (e : env_id) (s : Symbol) (x : entity node)
  | Reference (e : env_id) (d : ReferencedEnvDescriptor).

Definition step (a : action) (st : store) : store :=
  match a with
  | Create owner parent => snd (create owner parent st)
  | Add e s x => add e s x st
  | Reference e d => reference e d st
  end.

Fixpoint run (actions : list action) (st : store) : store :=
  match actions with
  | [] => st
  | a :: rest => run rest (step a st)
  end.

(** Actions only refer to environments created before them; [next] is
    the handle the next creation returns. *)
Fixpoint well_formed (next : env_id) (actions : list action) : bool :=
  match actions with
  | [] => true
  | Create _ _ :: rest => well_formed (Pos.succ next) rest
  | Add e _ _ :: rest => (e <? next)%positive && well_formed next rest
  | Reference e _ :: rest => (e <? next)%positive && well_formed next rest
  end.

(** The entities added at [e] under [s], in the order of the actions. *)
Definition added (actions : list action) (e : env_id) (s : Symbol)
  : list (entity node) :=
  omap (fun a =>
          match a with
          | Add e' s' x =>
              if decide (e' = e /\ s' = s) then Some x else None
          | _ => None
          end) actions.

End Store.

End Envs.

(* ===================================================================== *)
(** ** Syntax trees                                                       *)
(* ===================================================================== *)

Module Ast.

Export Envs.

(** Identity of a node: parsed nodes are numbered; the node synthesised by
    a memoized property ([classwide_type_node]) is identified by the node
    it was synthesised for. *)
Inductive node_id : Set :=
  | Parsed (p : positive)
  | Synthetic (owner : node_id).

#[global] Instance node_id_eq_dec : EqDecision node_id.
Proof. solve_decision. Defined.

(** A node: identity, class, the symbol of its token (for single-token
    nodes) and its children, in field declaration order; a null field is
    [None].  The children of a list node are its elements. *)
#[warnings="-register-all"]
Inductive AdaNode : Type :=
  | MkNode (id : node_id) (kind : Kind.node_class) (tok : Symbol)
           (children : list (option AdaNode)).

Definition id_of (n : AdaNode) : node_id :=
  match n with MkNode i _ _ _ => i end.

Definition kind (n : AdaNode) : Kind.node_class :=
  match n with MkNode _ k _ _ => k end.

Definition tok (n : AdaNode) : Symbol :=
  match n with MkNode _ _ t _ => t end.

Definition children (n : AdaNode) : list (option AdaNode) :=
  match n with MkNode _ _ _ cs => cs end.

(** The [i]-th field of a node. *)
Definition field (i : nat) (n : AdaNode) : option AdaNode :=
  match children n !! i with
  | Some c => c
  | None => None
  end.

Fixpoint all2b {A} (f : A -> A -> bool) (l l' : list A) : bool :=
  match l, l' with
  | [], [] => true
  | a :: r, b :: r' => f a b && all2b f r r'
  | _, _ => false
  end.

Definition child_eqb (f : AdaNode -> AdaNode -> bool) (c c' : option AdaNode)
  : bool :=
  match c, c' with
  | Some n, Some n' => f n n'
  | None, None => true
  | _, _ => false
  end.

Fixpoint node_eqb (a b : AdaNode) : bool :=
  match a, b with
  | MkNode i k t cs, MkNode i' k' t' cs' =>
      bool_decide (i = i') && bool_decide (k = k') && bool_decide (t = t')
      && all2b (child_eqb node_eqb) cs cs'
  end.

Definition Forall_child (P : AdaNode -> Prop) (c : option AdaNode) : Prop :=
  match c with
  | Some n => P n
  | None => True
  end.

Fixpoint AdaNode_rect' (P : AdaNode -> Prop)
  (step : forall i k t cs, Forall (Forall_child P) cs -> P (MkNode i k t cs))
  (n : AdaNode) : P n :=
  match n with
  | MkNode i k t cs =>
      step i k t cs
        ((fix go (l : list (option AdaNode)) : Forall (Forall_child P) l :=
            match l with
            | [] => List.Forall_nil _
            | c :: l' =>
                @List.Forall_cons _ (Forall_child P) c l'
                  (match c return Forall_child P c with
                   | Some m => AdaNode_rect' P step m
                   | None => I
                   end)
                  (go l')
            end) cs)
  end.

Lemma node_eqb_eq (a b : AdaNode) : node_eqb a b = true <-> a = b.
Proof.
  revert b. induction a as [i k t cs IH] using AdaNode_rect'.
  intros [i' k' t' cs']. cbn [node_eqb].
  rewrite !andb_true_iff, !bool_decide_eq_true.
  assert (Hgo : forall l', all2b (child_eqb node_eqb) cs l' = true <-> cs = l').
  { clear -IH. induction IH as [| c cs Hc _ IHcs]; intros [| c' l'];
      cbn; try (split; [discriminate | congruence]); [tauto |].
    rewrite andb_true_iff, IHcs.
    destruct c as [n |], c' as [n' |]; cbn in *;
      try (split; [intros [? ?]; discriminate | congruence]).
    - rewrite Hc. split; [intros [-> ->]; reflexivity | intros [= -> ->]; auto].
    - split; [intros [_ ->]; reflexivity | intros [= ->]; auto]. }
  rewrite Hgo. split.
  - intros [[[-> ->] ->] ->]. reflexivity.
  - intros [= -> -> -> ->]. auto.
Qed.

#[global] Instance AdaNode_eq_dec : EqDecision AdaNode.
Proof.
  intros a b. destruct (node_eqb a b) eqn:E.
  - left. apply node_eqb_eq, E.
  - right. intros ->. rewrite (proj2 (node_eqb_eq b b) eq_refl) in E.
    discriminate.
Defined.

(** Entities over syntax nodes; [None] is the null entity. *)
Definition entity : Type := Envs.entity AdaNode.

(** [x.as_entity], inside a property evaluated on an entity whose
    information is [i]. *)
Definition as_entity (i : entity_info) (x : option AdaNode) : option entity :=
  (fun n => Build_entity n i) <$> x.

(** [x.cast(T)]: null when [x] is null or not an instance of [T]. *)
Definition cast (t : Kind.node_class) (x : option AdaNode) : option AdaNode :=
  match x with
  | Some n => if Kind.is_a (kind n) t then Some n else None
  | None => None
  end.

Definition cast_entity (t : Kind.node_class) (x : option entity)
  : option entity :=
  match x with
  | Some e => if Kind.is_a (kind (el e)) t then Some e else None
  | None => None
  end.

(** [x.cast_or_raise(T)]. *)
Definition cast_or_raise (t : Kind.node_class) (x : option AdaNode)
  : result (option AdaNode) :=
  match x with
  | Some n => if Kind.is_a (kind n) t then Ok (Some n) else PropertyError
  | None => Ok None
  end.

(** [x.is_a(T)]; false on a null node. *)
Definition is_a (t : Kind.node_class) (x : option AdaNode) : bool :=
  match x with
  | Some n => Kind.is_a (kind n) t
  | None => false
  end.

(** The class that provides the implementation of a property declared or
    overridden on the classes [declaring], for a node of class [c]. *)
Definition implementor (declaring : list Kind.node_class) (c : Kind.node_class)
  : option Kind.node_class :=
  Kind.dispatch
    (fun d => if existsb (Kind.class_eqb d) declaring then Some d else None) c.

(* --------------------------------------------------------------------- *)
(** *** Fields                                                            *)
(* --------------------------------------------------------------------- *)

(** Fields are children; a subclass lists the fields of its base class
    first.  Each accessor is named after the class and field of [ast.py]. *)

Definition SubpSpec_subp_name := field 1.
Definition SubpSpec_subp_params := field 2.
Definition SubpSpec_subp_returns := field 3.
Definition Params_params := field 0.
Definition ParamSpec_ids := field 0.
Definition ParamSpec_type_expr := field 3.
Definition ParamSpec_default := field 4.
Definition ComponentDecl_ids := field 0.
Definition ComponentDecl_component_def := field 1.
Definition ComponentDef_type_expr := field 1.
Definition ComponentList_components := field 0.
Definition BaseRecordDef_components := field 0.
Definition GenericFormal_decl := field 0.
Definition GenericFormalPart_decls := field 0.
Definition ParamAssoc_designator := field 0.
Definition ParamAssoc_r_expr := field 1.
Definition AggregateAssoc_designators := field 0.
Definition AggregateAssoc_r_expr := field 1.
Definition BaseTypeDecl_type_id := field 0.
Definition TypeDecl_type_def := field 2.
Definition SubtypeDecl_subtype := field 1.
Definition RecordTypeDef_has_tagged := field 1.
Definition RecordTypeDef_record_def := field 3.
Definition PrivateTypeDef_has_tagged := field 1.
Definition DerivedTypeDef_subtype_indication := field 3.
Definition DerivedTypeDef_record_extension := field 5.
Definition ArrayTypeDef_component_type := field 1.
Definition AnonymousType_type_decl := field 0.
Definition SubtypeIndication_name := field 1.
Definition ObjectDecl_type_expr := field 4.
Definition ObjectDecl_default_expr := field 5.
Definition BinOp_left := field 0.
Definition BinOp_op := field 1.
Definition BinOp_right := field 2.
Definition BaseAggregate_assocs := field 1.
Definition ClassicSubpDecl_subp_spec := field 1.
Definition GenericSubpInternal_subp_spec := field 0.
Definition GenericInstantiation_instantiation_env_holder := field 0.
Definition GenericPackageDecl_package_decl := field 1.
Definition GenericSubpDecl_subp_decl := field 1.

(** The elements of a list node ([None] is the null list). *)
Definition elements (l : option AdaNode) : result (list (option AdaNode)) :=
  deref l (fun n => Ok (children n)).

(** [q.as_bool] on a qualifier node. *)
Definition as_bool (present : Kind.node_class) (q : option AdaNode)
  : result bool :=
  deref q (fun n => Ok (Kind.is_a (kind n) present)).

(* --------------------------------------------------------------------- *)
(** *** Names                                                             *)
(* --------------------------------------------------------------------- *)

(** [SingleTokNode.sym]: the symbol of the node's token. *)
Definition sym (n : AdaNode) : Symbol := tok n.

(** [Name.matches]. *)
Definition matches (self : AdaNode) (n : option AdaNode) : bool :=
  if Kind.is_a (kind self) Kind.Identifier then
    match cast Kind.Identifier n with
    | Some other_id => String.eqb (sym self) (sym other_id)
    | None => false
    end
  else if Kind.is_a (kind self) Kind.StringLiteral then
    match cast Kind.StringLiteral n with
    | Some other_sl => String.eqb (sym self) (sym other_sl)
    | None => false
    end
  else false.

(* --------------------------------------------------------------------- *)
(** *** Formals, actuals and their matching                               *)
(* --------------------------------------------------------------------- *)

(** [class SingleFormal(Struct)]. *)
Record SingleFormal : Type := {
  formal_name : option AdaNode;
  formal_spec : option entity
}.

(** [class SingleActual(Struct)]. *)
Record SingleActual : Type := {
  actual_name : option AdaNode;
  actual_assoc : option AdaNode
}.

(** [class ParamMatch(Struct)].  The null struct, which
    [match_param_list] yields for an actual without a formal, is [None];
    its [has_matched] reads false. *)
Record ParamMatch : Type := {
  has_matched : bool;
  actual : SingleActual;
  formal : SingleFormal
}.

#[global] Instance SingleFormal_eq_dec : EqDecision SingleFormal.
Proof. solve_decision. Defined.

#[global] Instance SingleActual_eq_dec : EqDecision SingleActual.
Proof. solve_decision. Defined.

Definition pm_has_matched (m : option ParamMatch) : bool :=
  match m with
  | Some pm => has_matched pm
  | None => false
  end.

(** [ParamAssoc.names] and [AggregateAssoc.names]. *)
Definition names (pa : AdaNode) : result (list (option AdaNode)) :=
  match implementor [Kind.ParamAssoc; Kind.AggregateAssoc] (kind pa) with
  | Some Kind.ParamAssoc =>
      Ok (match ParamAssoc_designator pa with
          | None => []
          | Some d => [Some d]
          end)
  | Some Kind.AggregateAssoc => elements (AggregateAssoc_designators pa)
  | _ => PropertyError
  end.

(** [ParamAssoc.expr] and [AggregateAssoc.expr]. *)
Definition assoc_expr (pa : AdaNode) : result (option AdaNode) :=
  match implementor [Kind.ParamAssoc; Kind.AggregateAssoc] (kind pa) with
  | Some Kind.ParamAssoc => Ok (ParamAssoc_r_expr pa)
  | Some Kind.AggregateAssoc => Ok (AggregateAssoc_r_expr pa)
  | _ => PropertyError
  end.

(** [AssocList.unpacked_params]. *)
Definition unpacked_params (self : AdaNode) : result (list SingleActual) :=
  mapcat_r
    (fun pa =>
       deref pa (fun pa' =>
         let* ns := names pa' in
         if length_ ns =? 0 then
           Ok [{| actual_name := None; actual_assoc := Some pa' |}]
         else
           Ok (omap
                 (fun n =>
                    if is_a Kind.BaseId n then
                      Some {| actual_name := cast Kind.BaseId n;
                              actual_assoc := Some pa' |}
                    else None)
                 ns)))
    (children self).

Section Properties.

(** What the properties below take from the rest of the system: the
    parent link of the tree, the environment attached to each node by the
    population pass, and two abstract properties of [ast.py] whose
    implementations go through name lookup. *)

(** [n.parent]. *)
Variable parent : AdaNode -> option AdaNode.

(** [n.node_env] and [n.children_env]. *)
Variable node_env : AdaNode -> lexical_env.
Variable children_env : AdaNode -> lexical_env.

(** [Name.designated_type_impl], under the dynamic variables [env] and
    [origin]. *)
Variable designated_type_impl :
  lexical_env -> option AdaNode -> AdaNode -> result (option entity).

(** [BasicDecl.defining_names]. *)
Variable defining_names : AdaNode -> result (list (option AdaNode)).

(** [BaseFormalParamDecl.identifiers], overridden by [ParamSpec],
    [ComponentDecl] and [GenericFormal]. *)
Definition identifiers (spec : entity) : result (list (option AdaNode)) :=
  match implementor [Kind.ParamSpec; Kind.ComponentDecl; Kind.GenericFormal]
          (kind (el spec)) with
  | Some Kind.ParamSpec =>
      let* ids := elements (ParamSpec_ids (el spec)) in
      Ok (cast Kind.BaseId <$> ids)
  | Some Kind.ComponentDecl =>
      let* ids := elements (ComponentDecl_ids (el spec)) in
      Ok (cast Kind.BaseId <$> ids)
  | Some Kind.GenericFormal =>
      deref (GenericFormal_decl (el spec)) (fun d =>
        let* ns := defining_names d in
        map_r (cast_or_raise Kind.BaseId) ns)
  | _ => PropertyError
  end.

(** [BaseFormalParamDecl.is_mandatory]: false, except for a [ParamSpec],
    which is mandatory when it has no default expression. *)
Definition is_mandatory (spec : entity) : result bool :=
  match implementor [Kind.BaseFormalParamDecl; Kind.ParamSpec]
          (kind (el spec)) with
  | Some Kind.ParamSpec =>
      Ok (bool_decide (ParamSpec_default (el spec) = None))
  | Some _ => Ok false
  | None => PropertyError
  end.

(** [TypeExpr.designated_type]: abstract, implemented by [AnonymousType]
    and [SubtypeIndication]. *)
Definition designated_type (origin : option AdaNode) (te : entity)
  : result (option entity) :=
  match implementor [Kind.AnonymousType; Kind.SubtypeIndication]
          (kind (el te)) with
  | Some Kind.AnonymousType =>
      Ok (as_entity (info te) (AnonymousType_type_decl (el te)))
  | Some Kind.SubtypeIndication =>
      deref (SubtypeIndication_name (el te))
        (designated_type_impl (node_env (el te)) origin)
  | _ => PropertyError
  end.

(** [ClasswideTypeDecl.typedecl]. *)
Definition typedecl (self : entity) : option entity :=
  as_entity (info self) (cast Kind.BaseTypeDecl (parent (el self))).

(** [BaseTypeDecl.record_def], overridden by [ClasswideTypeDecl] and
    [TypeDecl]. *)
Fixpoint record_def (fuel : nat) (self : entity) : result (option entity) :=
  match fuel with
  | O => OutOfFuel
  | S fuel' =>
      match implementor
              [Kind.BaseTypeDecl; Kind.ClasswideTypeDecl; Kind.TypeDecl]
              (kind (el self)) with
      | Some Kind.ClasswideTypeDecl => deref (typedecl self) (record_def fuel')
      | Some Kind.TypeDecl =>
          deref (TypeDecl_type_def (el self)) (fun td =>
            Ok (as_entity (info self)
                  (if Kind.is_a (kind td) Kind.RecordTypeDef then
                     RecordTypeDef_record_def td
                   else if Kind.is_a (kind td) Kind.DerivedTypeDef then
                     DerivedTypeDef_record_extension td
                   else None)))
      | Some _ => Ok None
      | None => PropertyError
      end
  end.

(** [DerivedTypeDef.base_type]. *)
Definition DerivedTypeDef_base_type (self : entity) : result (option entity) :=
  deref (as_entity (info self) (DerivedTypeDef_subtype_indication (el self)))
    (designated_type (Some (el self))).

(** [ComponentList.type_def]. *)
Definition ComponentList_type_def (self : entity) : result (option entity) :=
  deref (parent (el self)) (fun p =>
    Ok (as_entity (info self) (cast Kind.TypeDef (parent p)))).

(** [ComponentList.parent_component_list]. *)
Definition parent_component_list (fuel : nat) (self : entity)
  : result (option entity) :=
  let* td := ComponentList_type_def self in
  null_safe (cast_entity Kind.DerivedTypeDef td) (fun d =>
    let* bt := DerivedTypeDef_base_type d in
    deref bt (fun bt' =>
      let* rd := record_def fuel bt' in
      deref rd (fun rd' =>
        Ok (as_entity (info rd') (BaseRecordDef_components (el rd')))))).

(** [SubpSpec.node_params]. *)
Definition node_params (self : AdaNode) : result (list (option AdaNode)) :=
  match implementor [Kind.SubpSpec] (kind self) with
  | Some _ =>
      then_else (SubpSpec_subp_params self)
        (fun p => elements (Params_params p)) []
  | None => PropertyError
  end.

(** [BaseSubpSpec.params]. *)
Definition params (self : entity) : result (list (option entity)) :=
  let* ps := node_params (el self) in
  Ok ((fun p => as_entity (info self) p) <$> ps).

(** [arr.keep(T)] followed by [as_entity]. *)
Definition keep_entities (t : Kind.node_class) (i : entity_info)
  (l : list (option AdaNode)) : list (option entity) :=
  omap (fun c => match cast t c with
                 | Some n => Some (Some (Build_entity n i))
                 | None => None
                 end) l.

(** [abstract_formal_params], implemented by [BaseSubpSpec],
    [ComponentList] and [GenericFormalPart]. *)
Fixpoint abstract_formal_params (fuel : nat) (self : entity)
  : result (list (option entity)) :=
  match fuel with
  | O => OutOfFuel
  | S fuel' =>
      match implementor
              [Kind.BaseSubpSpec; Kind.ComponentList; Kind.GenericFormalPart]
              (kind (el self)) with
      | Some Kind.BaseSubpSpec =>
          let* ps := params self in
          Ok (cast_entity Kind.BaseFormalParamDecl <$> ps)
      | Some Kind.ComponentList =>
          let* comps := elements (ComponentList_components (el self)) in
          let self_comps :=
            keep_entities Kind.BaseFormalParamDecl (info self) comps in
          let* pcl := parent_component_list fuel' self in
          then_else pcl
            (fun pcl' =>
               let* inherited := abstract_formal_params fuel' pcl' in
               Ok (inherited ++ self_comps))
            self_comps
      | Some Kind.GenericFormalPart =>
          let* decls := elements (GenericFormalPart_decls (el self)) in
          Ok (keep_entities Kind.BaseFormalParamDecl (info self) decls)
      | _ => PropertyError
      end
  end.

(** [BaseFormalParamHolder.unpacked_formal_params]: couples (identifier,
    param spec) for all parameters. *)
Definition unpacked_formal_params (fuel : nat) (self : entity)
  : result (list SingleFormal) :=
  let* specs := abstract_formal_params fuel self in
  mapcat_r
    (fun spec =>
       deref spec (fun spec' =>
         let* ids := identifiers spec' in
         Ok ((fun id => {| formal_name := id; formal_spec := spec |}) <$> ids)))
    specs.

(** [p.spec.is_mandatory] on a formal. *)
Definition formal_is_mandatory (p : SingleFormal) : result bool :=
  deref (formal_spec p) is_mandatory.

(** [BaseSubpSpec.nb_min_params].  This property and the ones below that
    [ast.py] declares on [BaseSubpSpec] are given for a receiver of that
    class; the program makes no such call on another holder of formals. *)
Definition nb_min_params (fuel : nat) (self : entity) : result Z :=
  let* formals := unpacked_formal_params fuel self in
  let* mandatory := filter_r formal_is_mandatory formals in
  Ok (length_ mandatory).

(** [BaseSubpSpec.nb_max_params]. *)
Definition nb_max_params (fuel : nat) (self : entity) : result Z :=
  let* formals := unpacked_formal_params fuel self in
  Ok (length_ formals).

(** The local helper [matches(formal, actual)] of [match_param_list]. *)
Definition new_match (sp : SingleFormal) (a : SingleActual) : ParamMatch :=
  {| has_matched := true; formal := sp; actual := a |}.

(** [BaseFormalParamHolder.match_param_list]: for each actual, the formal
    it designates by position or by name, if any. *)
Definition match_param_list (fuel : nat) (self : entity)
  (assocs : option AdaNode) (is_dottable_subp : bool)
  : result (list (option ParamMatch)) :=
  let* unpacked_formals := unpacked_formal_params fuel self in
  let* actuals := deref assocs unpacked_params in
  imap_r
    (fun i a =>
       match actual_name a with
       | None =>
           let idx := if is_dottable_subp then i + 1 else i in
           Ok ((fun sp => new_match sp a) <$> at_ unpacked_formals idx)
       | Some id =>
           let* sp := find_r
                  (fun p =>
                     deref (formal_name p)
                       (fun nm => Ok (matches nm (Some id))))
                  unpacked_formals in
           Ok ((fun sp' => new_match sp' a) <$> sp)
       end)
    0 actuals.

(** Whether [p.spec.is_mandatory] evaluates to true. *)
Definition mandatory (p : SingleFormal) : bool := holds (formal_is_mandatory p).

(** The formals designated by the matches of a match list. *)
Definition matched_formals (ml : list (option ParamMatch))
  : list SingleFormal :=
  omap (fun m => formal <$> m) ml.

(** [m.formal.spec.is_mandatory] on an element of the match list. *)
Definition match_is_mandatory (m : option ParamMatch) : result bool :=
  deref m (fun pm => formal_is_mandatory (formal pm)).

(** [BaseSubpSpec.is_matching_param_list]: whether the argument count
    (and designators, if any) match. *)
Definition is_matching_param_list (fuel : nat) (self : entity)
  (assocs : option AdaNode) (is_dottable_subp : bool) : result bool :=
  let* match_list := match_param_list fuel self assocs is_dottable_subp in
  let* len := deref assocs (fun l => Ok (length_ (children l))) in
  let* nb_max := nb_max_params fuel self in
  if negb (len <=? (if is_dottable_subp then nb_max - 1 else nb_max)) then
    Ok false
  else if negb (forallb pm_has_matched match_list) then Ok false
  else
    let* mandatory := filter_r match_is_mandatory match_list in
    let* nb_min := nb_min_params fuel self in
    Ok (length_ mandatory =? (if is_dottable_subp then nb_min - 1 else nb_min)).

(** [BaseSubpSpec.paramless]. *)
Definition paramless (fuel : nat) (self : entity) (m : Metadata) : result bool :=
  let* nb_min := nb_min_params fuel self in
  Ok ((dottable_subp m && (nb_min =? 1)) || (nb_min =? 0)).

(* --------------------------------------------------------------------- *)
(** *** Type declarations                                                 *)
(* --------------------------------------------------------------------- *)

Definition TypeAccessDef_subtype_indication := field 3.

(** [TypeDef.is_tagged_type], overridden by [RecordTypeDef],
    [DerivedTypeDef], [PrivateTypeDef] and [InterfaceTypeDef]. *)
Definition TypeDef_is_tagged_type (td : AdaNode) : result bool :=
  match implementor
          [Kind.TypeDef; Kind.RecordTypeDef; Kind.DerivedTypeDef;
           Kind.PrivateTypeDef; Kind.InterfaceTypeDef] (kind td) with
  | Some Kind.RecordTypeDef =>
      as_bool Kind.Tagged_alt_present (RecordTypeDef_has_tagged td)
  | Some Kind.PrivateTypeDef =>
      as_bool Kind.Tagged_alt_present (PrivateTypeDef_has_tagged td)
  | Some Kind.DerivedTypeDef | Some Kind.InterfaceTypeDef => Ok true
  | Some _ => Ok false
  | None => PropertyError
  end.

(** [BaseTypeDecl.is_tagged_type], overridden by [ClasswideTypeDecl] and
    [TypeDecl]. *)
Definition is_tagged_type (self : AdaNode) : result bool :=
  match implementor
          [Kind.BaseTypeDecl; Kind.ClasswideTypeDecl; Kind.TypeDecl]
          (kind self) with
  | Some Kind.ClasswideTypeDecl => Ok true
  | Some Kind.TypeDecl => deref (TypeDecl_type_def self) TypeDef_is_tagged_type
  | Some _ => Ok false
  | None => PropertyError
  end.

(** [BaseTypeDecl.classwide_type_node] (memoized): for a tagged type, the
    synthetic [ClasswideTypeDecl] built from the type's identifier. *)
Definition classwide_type_node (self : AdaNode) : result (option AdaNode) :=
  let* tagged := is_tagged_type self in
  Ok (if tagged : bool then
        Some (MkNode (Synthetic (id_of self)) Kind.ClasswideTypeDecl EmptyString
                [BaseTypeDecl_type_id self])
      else None).

(** [BaseTypeDecl.classwide_type], overridden by [ClasswideTypeDecl]. *)
Definition classwide_type (self : entity) : result (option entity) :=
  match implementor [Kind.BaseTypeDecl; Kind.ClasswideTypeDecl]
          (kind (el self)) with
  | Some Kind.ClasswideTypeDecl => Ok (Some self)
  | Some _ =>
      let* n := classwide_type_node (el self) in
      Ok (as_entity (info self) n)
  | None => PropertyError
  end.

(** [TypeDef.base_type], overridden by [DerivedTypeDef]. *)
Definition TypeDef_base_type (td : entity) : result (option entity) :=
  match implementor [Kind.TypeDef; Kind.DerivedTypeDef] (kind (el td)) with
  | Some Kind.DerivedTypeDef => DerivedTypeDef_base_type td
  | Some _ => Ok None
  | None => PropertyError
  end.

(** [BaseTypeDecl.base_type], overridden by [ClasswideTypeDecl] and
    [TypeDecl]. *)
Fixpoint base_type (fuel : nat) (self : entity) : result (option entity) :=
  match fuel with
  | O => OutOfFuel
  | S fuel' =>
      match implementor
              [Kind.BaseTypeDecl; Kind.ClasswideTypeDecl; Kind.TypeDecl]
              (kind (el self)) with
      | Some Kind.ClasswideTypeDecl => deref (typedecl self) (base_type fuel')
      | Some Kind.TypeDecl =>
          deref (as_entity (info self) (TypeDecl_type_def (el self)))
            TypeDef_base_type
      | Some _ => Ok None
      | None => PropertyError
      end
  end.

(** [BaseTypeDecl.is_derived_type]: whether [self] is derived from
    [other_type].  [Or] and [&] evaluate their right operand only when the
    left one does not decide. *)
Fixpoint is_derived_type (fuel : nat) (self : entity)
  (other_type : option entity) : result bool :=
  match fuel with
  | O => OutOfFuel
  | S fuel' =>
      if bool_decide (Some self = other_type) then Ok true
      else
        let* cw := classwide_type self in
        let* same_classwide :=
          match cw with
          | None => Ok false
          | Some _ =>
              let* other_cw := deref other_type classwide_type in
              Ok (bool_decide (cw = other_cw))
          end in
        if same_classwide : bool then Ok true
        else
          let* bt := base_type fuel' self in
          match bt with
          | None => Ok false
          | Some bt' => is_derived_type fuel' bt' other_type
          end
  end.

(** [BaseTypeDecl.canonical_type], overridden by [SubtypeDecl]. *)
Fixpoint canonical_type (fuel : nat) (origin : option AdaNode) (self : entity)
  : result entity :=
  match fuel with
  | O => OutOfFuel
  | S fuel' =>
      match implementor [Kind.BaseTypeDecl; Kind.SubtypeDecl]
              (kind (el self)) with
      | Some Kind.SubtypeDecl =>
          let* dt :=
            deref (as_entity (info self) (SubtypeDecl_subtype (el self)))
              (designated_type origin) in
          deref dt (canonical_type fuel' origin)
      | Some _ => Ok self
      | None => PropertyError
      end
  end.

(** [accessed_type] of type declarations ([BaseTypeDecl], overridden by
    [TypeDecl] and [SubtypeDecl]) and of type definitions ([TypeDef],
    overridden by [DerivedTypeDef] and [TypeAccessDef]). *)
Fixpoint accessed_type (fuel : nat) (origin : option AdaNode) (self : entity)
  : result (option entity) :=
  match fuel with
  | O => OutOfFuel
  | S fuel' =>
      match implementor
              [Kind.BaseTypeDecl; Kind.TypeDecl; Kind.SubtypeDecl;
               Kind.TypeDef; Kind.DerivedTypeDef; Kind.TypeAccessDef]
              (kind (el self)) with
      | Some Kind.TypeDecl =>
          deref (as_entity (info self) (TypeDecl_type_def (el self)))
            (accessed_type fuel' origin)
      | Some Kind.SubtypeDecl =>
          let* c := canonical_type fuel' origin self in
          accessed_type fuel' origin c
      | Some Kind.DerivedTypeDef =>
          let* bt := DerivedTypeDef_base_type self in
          deref bt (accessed_type fuel' origin)
      | Some Kind.TypeAccessDef =>
          deref
            (as_entity (info self) (TypeAccessDef_subtype_indication (el self)))
            (designated_type origin)
      | Some _ => Ok None
      | None => PropertyError
      end
  end.

(** [BaseTypeDecl.matching_prefix_type]: given a dotted expression [A.B]
    where [container_type] is the container type of [B] and [self] a
    potential type of [A], whether [self] is a valid type for [A]. *)
Definition matching_prefix_type (fuel : nat) (origin : option AdaNode)
  (self : entity) (container_type : option entity) : result bool :=
  let* cont_type := deref container_type (canonical_type fuel origin) in
  let* c := canonical_type fuel origin self in
  let* derived := is_derived_type fuel c (Some cont_type) in
  if derived : bool then Ok true
  else
    let* c' := canonical_type fuel origin self in
    let* acc := accessed_type fuel origin c' in
    match acc with
    | None => Ok false
    | Some a => is_derived_type fuel a (Some cont_type)
    end.

(* --------------------------------------------------------------------- *)
(** *** Resolution entry points                                           *)
(* --------------------------------------------------------------------- *)

(** [xref_entry_point]: false on [AdaNode], overridden to true by
    [TypeDecl], [ObjectDecl] and [Stmt]. *)
Definition xref_entry_point (n : AdaNode) : bool :=
  match implementor
          [Kind.AdaNode; Kind.TypeDecl; Kind.ObjectDecl; Kind.Stmt]
          (kind n) with
  | Some Kind.AdaNode => false
  | Some _ => true
  | None => false
  end.

(** [xref_stop_resolution]: false on [AdaNode], overridden to true by
    [Aggregate]. *)
Definition xref_stop_resolution (n : AdaNode) : bool :=
  match implementor [Kind.AdaNode; Kind.Aggregate] (kind n) with
  | Some Kind.Aggregate => true
  | _ => false
  end.

(* --------------------------------------------------------------------- *)
(** *** Logic variables and equations                                     *)
(* --------------------------------------------------------------------- *)

(** The logic variables are fields of the nodes: [type_var] on
    expressions, [r_ref_var] on single-token names, [ref_var] on
    operators. *)
Inductive LogicVar : Set :=
  | TypeVar (owner : node_id)
  | RefVar (owner : node_id).

#[global] Instance LogicVar_eq_dec : EqDecision LogicVar.
Proof. solve_decision. Defined.

(** The properties an equation refers to by name ([eq_prop=...]). *)
Inductive eq_prop : Set :=
  | matching_assign_type_prop
  | matching_formal_type_prop
  | matching_prefix_type_prop.

(** Equations are data: [No_equation] is the null equation, [And] and
    [Or] are the results of [&] and [|], [logic_all] and [logic_any] the
    results of the array operations of the same name, [Bind] binds a
    variable to an entity and [Bind_vars] a variable to a variable. *)
#[warnings="-register-all"]
Inductive equation : Type :=
  | No_equation
  | LogicTrue
  | Bind (from : LogicVar) (to : option entity) (eq : option eq_prop)
  | Bind_vars (from to : LogicVar) (eq : option eq_prop)
  | Domain (v : LogicVar) (candidates : list entity)
  | And (l r : equation)
  | Or (l r : equation)
  | logic_all (es : list equation)
  | logic_any (es : list equation).

Definition type_var (n : AdaNode) : LogicVar := TypeVar (id_of n).

(** [Name.ref_var]: [r_ref_var] on a single-token node; the call
    expression, dereference, qualified expression, attribute reference and
    dotted name forward to their name, prefix or suffix. *)
Fixpoint ref_var (n : AdaNode) : result LogicVar :=
  match n with
  | MkNode i k _ cs =>
      match implementor
              [Kind.SingleTokNode; Kind.CallExpr; Kind.ExplicitDeref;
               Kind.QualExpr; Kind.AttributeRef; Kind.DottedName] k with
      | Some Kind.SingleTokNode => Ok (RefVar i)
      | Some Kind.DottedName =>
          match cs with
          | _ :: Some suffix :: _ => ref_var suffix
          | _ => PropertyError
          end
      | Some _ =>
          match cs with
          | Some prefix :: _ => ref_var prefix
          | _ => PropertyError
          end
      | None => PropertyError
      end
  end.

(** The dynamic variables [env] and [origin]. *)
Record context : Type := {
  env : lexical_env;
  origin : option AdaNode
}.

Section Equations.

(** The populated environments and the textual order of nodes. *)
Variable st : @Envs.store AdaNode.
Variable declared_after : AdaNode -> AdaNode -> bool.

(** [n.unit.root]. *)
Variable unit_root : AdaNode -> option AdaNode.

(** [Expr.env_elements], under the dynamic variable [env]. *)
Variable env_elements : lexical_env -> entity -> result (list entity).

(** The state of the logic variables, and [v.get_value]. *)
Variable S : Type.
Variable get_value : LogicVar -> S -> option entity.

(** [n.xref_equation], dispatched on the class of [n]; building an
    equation may resolve other nodes on the way ([CaseExpr]), hence the
    state. *)
Variable xref_equation : context -> AdaNode -> S -> result (equation * S).

(** [eq.solve]. *)
Variable solve : equation -> S -> result (bool * S).

(** [arr.map(f)] for an [f] that goes through the state. *)
Fixpoint map_s {A B} (f : A -> S -> result (B * S)) (l : list A) (s : S)
  : result (list B * S) :=
  match l with
  | [] => Ok ([], s)
  | a :: l' =>
      let* (b, s1) := f a s in
      let* (bs, s2) := map_s f l' s1 in
      Ok (b :: bs, s2)
  end.

(** [AdaNode.std]: the Standard package, found by a non-recursive lookup
    in the environment of the unit's root. *)
Definition std (self : AdaNode) : result (option entity) :=
  deref (unit_root self) (fun root =>
    Ok (at_ (Envs.get declared_after st (node_env root) "Standard" false None)
          0)).

(** [AdaNode.std_env]. *)
Definition std_env (self : AdaNode) : result lexical_env :=
  let* s := std self in
  deref s (fun s' => Ok (children_env (el s'))).

(** [AdaNode.std_entity]. *)
Definition std_entity (self : AdaNode) (sym : Symbol) : result (option entity) :=
  let* e := std_env self in
  Ok (at_ (Envs.get declared_after st e sym true None) 0).

(** [AdaNode.bool_type]. *)
Definition bool_type (self : AdaNode) : result (option entity) :=
  std_entity self "Boolean".

(** [AdaNode.sub_equation]: wrapper for [xref_equation], used inside of
    [xref_equation] for the equation of a sub-expression. *)
Definition sub_equation (ctx : context) (self : AdaNode) (s : S)
  : result (equation * S) :=
  if xref_stop_resolution self then Ok (LogicTrue, s)
  else xref_equation ctx self s.

(** [BasicSubpDecl.subp_decl_spec]: abstract, implemented by
    [ClassicSubpDecl] and [GenericSubpInternal]. *)
Definition subp_decl_spec (self : entity) : result (option entity) :=
  match implementor [Kind.ClassicSubpDecl; Kind.GenericSubpInternal]
          (kind (el self)) with
  | Some Kind.ClassicSubpDecl =>
      Ok (as_entity (info self) (ClassicSubpDecl_subp_spec (el self)))
  | Some Kind.GenericSubpInternal =>
      Ok (as_entity (info self) (GenericSubpInternal_subp_spec (el self)))
  | _ => PropertyError
  end.

(** [BaseSubpSpec.returns]: abstract, implemented by [SubpSpec]. *)
Definition returns (self : entity) : result (option entity) :=
  match implementor [Kind.SubpSpec] (kind (el self)) with
  | Some _ => Ok (as_entity (info self) (SubpSpec_subp_returns (el self)))
  | None => PropertyError
  end.

(** [BasicDecl.type_expression], overridden by [ComponentDecl],
    [ParamSpec], [ObjectDecl] and [BasicSubpDecl]. *)
Definition type_expression (self : entity) : result (option entity) :=
  match implementor
          [Kind.BasicDecl; Kind.ComponentDecl; Kind.ParamSpec;
           Kind.ObjectDecl; Kind.BasicSubpDecl] (kind (el self)) with
  | Some Kind.ComponentDecl =>
      deref (ComponentDecl_component_def (el self)) (fun cd =>
        Ok (as_entity (info self) (ComponentDef_type_expr cd)))
  | Some Kind.ParamSpec =>
      Ok (as_entity (info self) (ParamSpec_type_expr (el self)))
  | Some Kind.ObjectDecl =>
      Ok (as_entity (info self) (ObjectDecl_type_expr (el self)))
  | Some Kind.BasicSubpDecl =>
      let* spec := subp_decl_spec self in
      deref spec returns
  | Some _ => Ok None
  | None => PropertyError
  end.

(** [BaseFormalParamDecl.type]. *)
Definition formal_type (fuel : nat) (self : entity) : result (option entity) :=
  let* te := type_expression self in
  let* dt := deref te (designated_type (Some (el self))) in
  let* c := deref dt (canonical_type fuel (Some (el self))) in
  Ok (Some c).

(** [BasicDecl.expr_type] and [BasicDecl.canonical_expr_type], as
    inherited by [ObjectDecl]. *)
Definition BasicDecl_expr_type (origin : option AdaNode) (self : entity)
  : result (option entity) :=
  let* te := type_expression self in
  null_safe te (designated_type origin).

Definition BasicDecl_canonical_expr_type (fuel : nat)
  (origin : option AdaNode) (self : entity) : result (option entity) :=
  let* et := BasicDecl_expr_type origin self in
  null_safe et (fun t => let* c := canonical_type fuel origin t in Ok (Some c)).

(** The name an operator is declared under; [q] is the quotation mark. *)
Definition q (name : string) : Symbol :=
  String "034"%char (name ++ String "034"%char EmptyString).

Definition Op_symbol (op : AdaNode) : Symbol :=
  match kind op with
  | Kind.Op_alt_and => q "and"
  | Kind.Op_alt_or => q "or"
  | Kind.Op_alt_xor => q "xor"
  | Kind.Op_alt_abs => q "abs"
  | Kind.Op_alt_not => q "not"
  | Kind.Op_alt_pow => q "**"
  | Kind.Op_alt_mult => q "*"
  | Kind.Op_alt_div => q "/"
  | Kind.Op_alt_mod => q "mod"
  | Kind.Op_alt_rem => q "rem"
  | Kind.Op_alt_plus => q "+"
  | Kind.Op_alt_minus => q "-"
  | Kind.Op_alt_concat => q "&"
  | Kind.Op_alt_eq => q "="
  | Kind.Op_alt_neq => q "/="
  | Kind.Op_alt_lt => q "<"
  | Kind.Op_alt_lte => q "<="
  | Kind.Op_alt_gt => q ">"
  | Kind.Op_alt_gte => q ">="
  | _ => "<<>>"
  end.

(** [Op.subprograms]: the subprograms corresponding to this operator
    accessible in the lexical environment. *)
Definition subprograms (op : AdaNode) : list entity :=
  filter (fun e => Kind.is_a (kind (el e)) Kind.BasicSubpDecl = true)
    (Envs.get declared_after st (node_env op) (Op_symbol op) true None).

(** [BinOp.no_overload_equation], overridden by [RelationOp]. *)
Definition no_overload_equation (self : AdaNode) : result equation :=
  let* ltv := deref (BinOp_left self) (fun l => Ok (type_var l)) in
  let* rtv := deref (BinOp_right self) (fun r => Ok (type_var r)) in
  match implementor [Kind.BinOp; Kind.RelationOp] (kind self) with
  | Some Kind.RelationOp =>
      let* b := bool_type self in
      Ok (And (Bind_vars ltv rtv None) (Bind (type_var self) b None))
  | Some _ =>
      Ok (And (Bind_vars (type_var self) ltv None)
              (Bind_vars (type_var self) rtv None))
  | None => PropertyError
  end.

(** The branch of [BinOp.xref_equation] for one candidate subprogram. *)
Definition overload_branch (fuel : nat) (ctx : context) (self : AdaNode)
  (subp : entity) : result equation :=
  let* spec := subp_decl_spec subp in
  let* ps := deref spec (unpacked_formal_params fuel) in
  let* ltv := deref (BinOp_left self) (fun l => Ok (type_var l)) in
  let* t0 := deref (at_ ps 0 ≫= formal_spec) (formal_type fuel) in
  let* rtv := deref (BinOp_right self) (fun r => Ok (type_var r)) in
  let* t1 := deref (at_ ps 1 ≫= formal_spec) (formal_type fuel) in
  let* ret := deref spec returns in
  let* rt := deref ret (designated_type (origin ctx)) in
  let* opv := deref (BinOp_op self) (fun op => Ok (RefVar (id_of op))) in
  Ok (And (And (And (Bind ltv t0 None) (Bind rtv t1 None))
               (Bind (type_var self) rt None))
          (Bind opv (Some subp) None)).

(** [BinOp.xref_equation]. *)
Definition BinOp_xref_equation (fuel : nat) (ctx : context) (self : AdaNode)
  (s : S) : result (equation * S) :=
  let* subps := deref (BinOp_op self) (fun op => Ok (subprograms op)) in
  let* (l, s1) := deref (BinOp_left self) (fun n => sub_equation ctx n s) in
  let* (r, s2) := deref (BinOp_right self) (fun n => sub_equation ctx n s1) in
  let* branches := map_r (overload_branch fuel ctx self) subps in
  let* fallback := no_overload_equation self in
  Ok (And (And l r) (Or (logic_any branches) fallback), s2).

(** [BaseTypeDecl.array_def], overridden by [TypeDecl]. *)
Definition array_def (self : entity) : result (option entity) :=
  match implementor [Kind.BaseTypeDecl; Kind.TypeDecl] (kind (el self)) with
  | Some Kind.TypeDecl =>
      Ok (as_entity (info self)
            (cast Kind.ArrayTypeDef (TypeDecl_type_def (el self))))
  | Some _ => Ok None
  | None => PropertyError
  end.

(** [ArrayTypeDef.comp_type]: the type stored as a component in the
    array. *)
Definition ArrayTypeDef_comp_type (fuel : nat) (origin : option AdaNode)
  (self : entity) : result (option entity) :=
  let* cd := deref (ArrayTypeDef_component_type (el self)) Ok in
  let* dt :=
    deref (as_entity (info self) (ComponentDef_type_expr cd))
      (designated_type origin) in
  let* c := deref dt (canonical_type fuel origin) in
  Ok (Some c).

(** [BaseRecordDef.comps]. *)
Definition comps (self : entity) : option entity :=
  as_entity (info self) (BaseRecordDef_components (el self)).

(** The equation of [Aggregate.xref_equation] for one match of the record
    case. *)
Definition record_assoc_equation (ctx : context) (pm : option ParamMatch)
  (s : S) : result (equation * S) :=
  let* expr := deref (pm ≫= fun m => actual_assoc (actual m)) assoc_expr in
  let* tv := deref expr (fun e => Ok (type_var e)) in
  let spec := pm ≫= fun m => formal_spec (formal m) in
  let* te := deref spec type_expression in
  let* dt := deref te (designated_type (origin ctx)) in
  let* (se, s1) := deref expr (fun e => sub_equation ctx e s) in
  let* designator :=
    match pm ≫= fun m => actual_name (actual m) with
    | None => Ok LogicTrue
    | Some name => let* rv := ref_var name in Ok (Bind rv spec None)
    end in
  Ok (And (And (Bind tv dt None) se) designator, s1).

(** The equation of [Aggregate.xref_equation] for one association of the
    array case. *)
Definition array_assoc_equation (fuel : nat) (ctx : context) (atd : entity)
  (assoc : option AdaNode) (s : S) : result (equation * S) :=
  let* expr := deref assoc assoc_expr in
  let* (se, s1) := deref expr (fun e => sub_equation ctx e s) in
  let* tv := deref expr (fun e => Ok (type_var e)) in
  let* ct := ArrayTypeDef_comp_type fuel (origin ctx) atd in
  Ok (And se (Bind tv ct None), s1).

(** [Aggregate.xref_equation]. *)
Definition Aggregate_xref_equation (fuel : nat) (ctx : context)
  (self : AdaNode) (s : S) : result (equation * S) :=
  let td := cast_entity Kind.BaseTypeDecl (get_value (type_var self) s) in
  let* atd := deref td array_def in
  match atd with
  | None =>
      (* First case, aggregate for a record *)
      let* rd := deref td (record_def fuel) in
      let* cl := deref rd (fun r => Ok (comps r)) in
      let* match_list :=
        deref cl (fun c =>
          match_param_list fuel c (BaseAggregate_assocs self) false) in
      let* (eqs, s1) := map_s (record_assoc_equation ctx) match_list s in
      Ok (logic_all eqs, s1)
  | Some atd' =>
      (* Second case, aggregate for an array *)
      let* assocs := elements (BaseAggregate_assocs self) in
      let* (eqs, s1) := map_s (array_assoc_equation fuel ctx atd') assocs s in
      Ok (logic_all eqs, s1)
  end.

(** [ObjectDecl.xref_equation]. *)
Definition ObjectDecl_xref_equation (fuel : nat) (ctx : context)
  (self : AdaNode) (s : S) : result (equation * S) :=
  match ObjectDecl_default_expr self with
  | None => Ok (LogicTrue, s)
  | Some de =>
      let* (e, s1) := xref_equation ctx de s in
      let* t :=
        BasicDecl_canonical_expr_type fuel (origin ctx)
          (Build_entity self No_entity_info) in
      Ok (And e (Bind (type_var de) t (Some matching_assign_type_prop)), s1)
  end.

(** [eq._.solve]: the null equation is not solved and counts as a
    failure. *)
Definition solve_or_null (eq : equation) (s : S) : result (bool * S) :=
  match eq with
  | No_equation => Ok (false, s)
  | _ => solve eq s
  end.

(** [children.all(lambda c: c.then(f, default_val=True))], for an [f] that
    goes through the state: null children count as true, and the
    traversal stops at the first child on which [f] fails. *)
Fixpoint all_s {A} (f : A -> S -> result (bool * S)) (l : list (option A))
  (s : S) : result (bool * S) :=
  match l with
  | [] => Ok (true, s)
  | None :: l' => all_s f l' s
  | Some c :: l' =>
      let* (ok, s') := f c s in
      if ok : bool then all_s f l' s' else Ok (false, s')
  end.

(** [AdaNode.resolve_names_internal]: the node's own equation is solved
    when the node is the one [resolve_names] was called on or when it
    stops resolution; then, if that succeeded, the children are visited. *)
Fixpoint resolve_names_internal (ctx : context) (initial : bool)
  (self : AdaNode) (s : S) : result (bool * S) :=
  match self with
  | MkNode _ _ _ cs =>
      let* (i, s1) :=
        if initial || xref_stop_resolution self then
          let* (eq, s') := xref_equation ctx self s in
          solve_or_null eq s'
        else Ok (true, s) in
      if i : bool then all_s (resolve_names_internal ctx false) cs s1
      else Ok (false, s1)
  end.

(** [AdaNode.resolve_names]. *)
Definition resolve_names (self : AdaNode) (s : S) : result (bool * S) :=
  resolve_names_internal
    {| env := node_env self; origin := Some self |} true self s.

(* --------------------------------------------------------------------- *)
(** *** Case expressions and assignments                                  *)
(* --------------------------------------------------------------------- *)

Definition CaseExpr_expr := field 0.
Definition CaseExpr_cases := field 1.
Definition CaseExprAlternative_choices := field 0.
Definition CaseExprAlternative_expr := field 1.
Definition AssignStmt_dest := field 0.
Definition AssignStmt_expr := field 1.

(** [AdaNode.type_val]: null, overridden by [Expr], where it is the value
    of the type variable. *)
Definition type_val (self : AdaNode) (s : S) : option entity :=
  match implementor [Kind.AdaNode; Kind.Expr] (kind self) with
  | Some Kind.Expr => get_value (type_var self) s
  | _ => None
  end.

(** The equation of [CaseExpr.xref_equation] for one choice of an
    alternative: a choice that is an expression has its type bound to the
    value of the type of the selector. *)
Definition choice_equation (ctx : context) (self : AdaNode)
  (c : option AdaNode) (s : S) : result (equation * S) :=
  deref c (fun c' =>
    if Kind.is_a (kind c') Kind.Expr then
      let* tv := deref (CaseExpr_expr self) (fun sel => Ok (type_val sel s)) in
      let* (se, s1) := sub_equation ctx c' s in
      Ok (And (Bind (type_var c') tv None) se, s1)
    else Ok (LogicTrue, s)).

(** The equation of [CaseExpr.xref_equation] for one alternative. *)
Definition alternative_equation (ctx : context) (self : AdaNode)
  (alt : option AdaNode) (s : S) : result (equation * S) :=
  deref alt (fun alt' =>
    let* choices := elements (CaseExprAlternative_choices alt') in
    let* (ces, s1) := map_s (choice_equation ctx self) choices s in
    let* (ee, s2) :=
      deref (CaseExprAlternative_expr alt') (fun e => sub_equation ctx e s1) in
    let* tv :=
      deref (CaseExprAlternative_expr alt') (fun e => Ok (type_var e)) in
    Ok (And (And (logic_all ces) ee) (Bind_vars (type_var self) tv None), s2)).

(** [CaseExpr.xref_equation]: the selector is resolved on its own, by a
    call to [resolve_names] whose outcome is ignored, before the equation
    of the alternatives is built. *)
Definition CaseExpr_xref_equation (ctx : context) (self : AdaNode) (s : S)
  : result (equation * S) :=
  let* (_, s0) := deref (CaseExpr_expr self) (fun sel => resolve_names sel s) in
  let* cases := elements (CaseExpr_cases self) in
  let* (eqs, s1) := map_s (alternative_equation ctx self) cases s0 in
  Ok (logic_all eqs, s1).

(** [AssignStmt.xref_equation]. *)
Definition AssignStmt_xref_equation (ctx : context) (self : AdaNode) (s : S)
  : result (equation * S) :=
  let* (de, s1) :=
    deref (AssignStmt_dest self) (fun d => sub_equation ctx d s) in
  let* (ee, s2) :=
    deref (AssignStmt_expr self) (fun e => sub_equation ctx e s1) in
  let* ev := deref (AssignStmt_expr self) (fun e => Ok (type_var e)) in
  let* dv := deref (AssignStmt_dest self) (fun d => Ok (type_var d)) in
  Ok (And (And de ee) (Bind_vars ev dv (Some matching_assign_type_prop)), s2).

(* --------------------------------------------------------------------- *)
(** *** Generic instantiations                                            *)
(* --------------------------------------------------------------------- *)

Definition GenericPackageInstantiation_generic_pkg_name := field 2.
Definition GenericSubpInstantiation_generic_subp_name := field 4.

(** [GenericInstantiation.generic_entity_name]: abstract, implemented by
    the package and subprogram instantiations. *)
Definition generic_entity_name (self : entity) : result (option entity) :=
  match implementor
          [Kind.GenericPackageInstantiation; Kind.GenericSubpInstantiation]
          (kind (el self)) with
  | Some Kind.GenericPackageInstantiation =>
      Ok (as_entity (info self)
            (GenericPackageInstantiation_generic_pkg_name (el self)))
  | Some Kind.GenericSubpInstantiation =>
      Ok (as_entity (info self)
            (GenericSubpInstantiation_generic_subp_name (el self)))
  | _ => PropertyError
  end.

(** [GenericInstantiation.designated_generic_decl]. *)
Definition designated_generic_decl (self : entity) : result (option entity) :=
  let* name := generic_entity_name self in
  let* elts := deref name (env_elements (node_env (el self))) in
  match at_ elts 0 with
  | None => Ok None
  | Some e =>
      if Kind.is_a (kind (el e)) Kind.GenericDecl then Ok (Some e)
      else PropertyError
  end.

(** [GenericDecl.decl]: abstract, implemented by [GenericPackageDecl] and
    [GenericSubpDecl]. *)
Definition decl (self : entity) : result (option entity) :=
  match implementor [Kind.GenericPackageDecl; Kind.GenericSubpDecl]
          (kind (el self)) with
  | Some Kind.GenericPackageDecl =>
      Ok (as_entity (info self) (GenericPackageDecl_package_decl (el self)))
  | Some Kind.GenericSubpDecl =>
      Ok (as_entity (info self) (GenericSubpDecl_subp_decl (el self)))
  | _ => PropertyError
  end.

(** [GenericPackageInstantiation.defining_env]: the environment of the
    generic package, with the environment of the formals rebound to the
    environment of this instantiation. *)
Definition GenericPackageInstantiation_defining_env (self : entity)
  : result lexical_env :=
  let* p := designated_generic_decl self in
  let* formal_env := deref p (fun p' => Ok (children_env (el p'))) in
  let* d := deref p decl in
  let* decl_env := deref d (fun d' => Ok (children_env (el d'))) in
  let* inst_env :=
    deref (GenericInstantiation_instantiation_env_holder (el self))
      (fun h => Ok (children_env h)) in
  Ok (rebind_env decl_env formal_env inst_env).

End Equations.

End Properties.

(* --------------------------------------------------------------------- *)
(** *** The dispatch of [xref_equation]                                   *)
(* --------------------------------------------------------------------- *)

(** The classes that declare or override [xref_equation]. *)
Definition xref_equation_classes : list Kind.node_class :=
  [Kind.AdaNode; Kind.TypeDecl; Kind.DerivedTypeDef; Kind.SubtypeIndication;
   Kind.ObjectDecl; Kind.ParenExpr; Kind.BinOp; Kind.Aggregate;
   Kind.CallExpr; Kind.ExplicitDeref; Kind.IfExpr; Kind.CaseExpr;
   Kind.BaseId; Kind.StringLiteral; Kind.CharLiteral; Kind.RealLiteral;
   Kind.IntLiteral; Kind.LoopSpec; Kind.ForLoopSpec; Kind.Allocator;
   Kind.QualExpr; Kind.DottedName; Kind.CallStmt; Kind.NullStmt;
   Kind.AssignStmt; Kind.GotoStmt; Kind.ExitStmt; Kind.ReturnStmt;
   Kind.AbortStmt; Kind.DelayStmt; Kind.RaiseStmt; Kind.IfStmt;
   Kind.WhileLoopSpec; Kind.BaseLoopStmt; Kind.ExtendedReturnStmt].

Section Dispatch.

Variable parent : AdaNode -> option AdaNode.
Variable node_env : AdaNode -> lexical_env.
Variable designated_type_impl :
  lexical_env -> option AdaNode -> AdaNode -> result (option entity).
Variable defining_names : AdaNode -> result (list (option AdaNode)).
Variable State : Type.
Variable get_value : LogicVar -> State -> option entity.
Variable solve : equation -> State -> result (bool * State).

(** The builders of the classes whose [xref_equation] is not among those
    given above. *)
Variable other_xref_equation :
  context -> AdaNode -> State -> result (equation * State).

(** [n.xref_equation], dispatched on the class of [n]: null on [AdaNode];
    the builders of [ObjectDecl], [Aggregate], [CaseExpr], [NullStmt] and
    [AssignStmt] reach the equations of other nodes through this same
    dispatch. *)
Fixpoint xref_equation (fuel : nat) (ctx : context) (self : AdaNode)
  (s : State) : result (equation * State) :=
  match fuel with
  | O => OutOfFuel
  | S fuel' =>
      match implementor xref_equation_classes (kind self) with
      | Some Kind.AdaNode => Ok (No_equation, s)
      | Some Kind.ObjectDecl =>
          ObjectDecl_xref_equation node_env designated_type_impl State
            (xref_equation fuel') fuel' ctx self s
      | Some Kind.Aggregate =>
          Aggregate_xref_equation parent node_env designated_type_impl
            defining_names State get_value (xref_equation fuel') fuel' ctx
            self s
      | Some Kind.CaseExpr =>
          CaseExpr_xref_equation node_env State get_value
            (xref_equation fuel') solve ctx self s
      | Some Kind.NullStmt => Ok (LogicTrue, s)
      | Some Kind.AssignStmt =>
          AssignStmt_xref_equation State (xref_equation fuel') ctx self s
      | Some _ => other_xref_equation ctx self s
      | None => PropertyError
      end
  end.

End Dispatch.

End Ast.

Import Ast.

(* ===================================================================== *)
(** ** Sample trees                                                       *)
(* ===================================================================== *)

Module Examples.

Definition leaf (i : positive) (k : Kind.node_class) (t : Symbol) : AdaNode :=
  MkNode (Parsed i) k t [].

Definition node (i : positive) (k : Kind.node_class)
  (cs : list (option AdaNode)) : AdaNode :=
  MkNode (Parsed i) k EmptyString cs.

Definition bare (n : AdaNode) : entity := Build_entity n No_entity_info.

(** A tree on its own: no parent, no environment, no name resolved. *)
Definition no_parent (n : AdaNode) : option AdaNode := None.
Definition no_env (n : AdaNode) : lexical_env := EmptyEnv.
Definition no_type (e : lexical_env) (o : option AdaNode) (n : AdaNode)
  : result (option entity) := Ok None.
Definition no_names (n : AdaNode) : result (list (option AdaNode)) :=
  PropertyError.

(** [Integer] as a subtype indication. *)
Definition integer_indication (i : positive) : AdaNode :=
  node i Kind.SubtypeIndication
    [Some (leaf (i + 1) Kind.NotNull_alt_absent EmptyString);
     Some (leaf (i + 2) Kind.Identifier "integer"); None].

(** [function F (X, Y : Integer) return Integer]. *)
Definition F_X : AdaNode := leaf 1 Kind.Identifier "x".
Definition F_Y : AdaNode := leaf 2 Kind.Identifier "y".

Definition F_params : AdaNode :=
  node 3 Kind.ParamSpec
    [Some (node 4 Kind.Identifier_list [Some F_X; Some F_Y]);
     Some (leaf 5 Kind.Aliased_alt_absent EmptyString);
     Some (leaf 6 Kind.Mode_alt_default EmptyString);
     Some (integer_indication 7);
     None].

Definition F_spec : AdaNode :=
  node 10 Kind.SubpSpec
    [Some (leaf 11 Kind.SubpKind_alt_function EmptyString);
     Some (leaf 12 Kind.Identifier "f");
     Some (node 13 Kind.Params
             [Some (node 14 Kind.ParamSpec_list [Some F_params])]);
     Some (integer_indication 15)].


(** [function G (X : Integer; Y : Integer := 0) return Integer]. *)
Definition G_X : AdaNode := leaf 31 Kind.Identifier "x".
Definition G_Y : AdaNode := leaf 32 Kind.Identifier "y".

Definition G_param (i : positive) (id : AdaNode) (default : option AdaNode)
  : AdaNode :=
  node i Kind.ParamSpec
    [Some (node (i + 1) Kind.Identifier_list [Some id]);
     Some (leaf (i + 2) Kind.Aliased_alt_absent EmptyString);
     Some (leaf (i + 3) Kind.Mode_alt_default EmptyString);
     Some (integer_indication (i + 4));
     default].

Definition G_spec : AdaNode :=
  node 50 Kind.SubpSpec
    [Some (leaf 51 Kind.SubpKind_alt_function EmptyString);
     Some (leaf 52 Kind.Identifier "g");
     Some (node 53 Kind.Params
             [Some (node 54 Kind.ParamSpec_list
                      [Some (G_param 33 G_X None);
                       Some (G_param 41 G_Y
                               (Some (leaf 49 Kind.IntLiteral "0")))])]);
     Some (integer_indication 55)].

(** The actuals of [G (1)]. *)
Definition call_one_positional : AdaNode :=
  node 60 Kind.AssocList
    [Some (node 61 Kind.ParamAssoc
             [None; Some (leaf 62 Kind.IntLiteral "1")])].

(** [X : Integer;], an object declaration without initializer. *)
Definition object_without_initializer : AdaNode :=
  node 70 Kind.ObjectDecl
    [Some (node 71 Kind.Identifier_list [Some (leaf 72 Kind.Identifier "x")]);
     Some (leaf 73 Kind.Aliased_alt_absent EmptyString);
     Some (leaf 74 Kind.Constant_alt_absent EmptyString);
     Some (leaf 75 Kind.Mode_alt_default EmptyString);
     Some (integer_indication 76);
     None; None; None].

(** The aggregate [(A => 1)] and the assignment [R := (A => 1);]. *)
Definition aggregate : AdaNode :=
  node 80 Kind.Aggregate
    [None;
     Some (node 81 Kind.AssocList
             [Some (node 82 Kind.AggregateAssoc
                      [Some (node 83 Kind.AdaNode_list
                               [Some (leaf 84 Kind.Identifier "a")]);
                       Some (leaf 85 Kind.IntLiteral "1")])])].

Definition assignment : AdaNode :=
  node 90 Kind.AssignStmt [Some (leaf 91 Kind.Identifier "r"); Some aggregate].

(** [X := (case Y is when 1 => 2);]. *)
Definition selector : AdaNode := leaf 131 Kind.Identifier "y".

Definition case_expr : AdaNode :=
  node 132 Kind.CaseExpr
    [Some selector;
     Some (node 133 Kind.CaseExprAlternative_list
             [Some (node 134 Kind.CaseExprAlternative
                      [Some (node 135 Kind.AdaNode_list
                               [Some (leaf 136 Kind.IntLiteral "1")]);
                       Some (leaf 137 Kind.IntLiteral "2")])])].

Definition case_assignment : AdaNode :=
  node 138 Kind.AssignStmt
    [Some (leaf 139 Kind.Identifier "x"); Some case_expr].

(** A builder that gives every node an equation bearing its name, a
    solver that records the equations it is given, and one that always
    fails. *)
Definition naming_builder (ctx : context) (n : AdaNode) (s : list equation)
  : result (equation * list equation) :=
  Ok (Domain (type_var n) [], s).

Definition recording_solver (eq : equation) (s : list equation)
  : result (bool * list equation) :=
  Ok (true, s ++ [eq]).

Definition failing_solver (eq : equation) (s : list equation)
  : result (bool * list equation) :=
  Ok (false, s).

Definition no_context : context := {| env := EmptyEnv; origin := None |}.

(** No logic variable has a value. *)
Definition no_value (v : LogicVar) (s : list equation) : option entity := None.

(** [type R is record A : Integer; end record;]: its declaration, with
    the component [A]. *)
Definition R_A : AdaNode := leaf 101 Kind.Identifier "a".

Definition R_component : AdaNode :=
  node 102 Kind.ComponentDecl
    [Some (node 103 Kind.Identifier_list [Some R_A]);
     Some (node 104 Kind.ComponentDef
             [Some (leaf 105 Kind.Aliased_alt_absent EmptyString);
              Some (integer_indication 106)]);
     None; None].

Definition R_components : AdaNode :=
  node 110 Kind.ComponentList
    [Some (node 111 Kind.AdaNode_list [Some R_component]); None].

Definition R_type_def : AdaNode :=
  node 112 Kind.RecordTypeDef
    [Some (leaf 113 Kind.Abstract_alt_absent EmptyString);
     Some (leaf 114 Kind.Tagged_alt_absent EmptyString);
     Some (leaf 115 Kind.Limited_alt_absent EmptyString);
     Some (node 116 Kind.RecordDef [Some R_components])].

Definition R_decl : AdaNode :=
  node 117 Kind.TypeDecl
    [Some (leaf 118 Kind.Identifier "r"); None; Some R_type_def; None].

End Examples.

(** A generic package [G] that declares [V], instantiated twice. *)
Module Generic_example.

Import Examples.

Definition V_decl : AdaNode := leaf 304 Kind.ObjectDecl "v".
Definition G_internal : AdaNode :=
  node 302 Kind.GenericPackageInternal
    [Some (leaf 303 Kind.Identifier "g"); None; None; None; None].
Definition G_decl : AdaNode :=
  node 300 Kind.GenericPackageDecl
    [Some (node 301 Kind.GenericFormalPart [None]); Some G_internal].
Definition holder (i : positive) : AdaNode :=
  leaf i Kind.EnvHolder EmptyString.
Definition instantiation (i : positive) (name : Symbol) : AdaNode :=
  node i Kind.GenericPackageInstantiation
    [Some (holder (i + 1)); Some (leaf (i + 2) Kind.Identifier name);
     Some (leaf (i + 3) Kind.Identifier "g"); None; None].
Definition I1 : AdaNode := instantiation 310 "i1".
Definition I2 : AdaNode := instantiation 320 "i2".

(** Environment 1 is the enclosing scope, 2 holds the formals of [G],
    3 the declarations of [G], 4 and 5 belong to the instantiations. *)
Definition population : list (@action AdaNode) :=
  [Create None None;
   Create (Some G_decl) (Some 1%positive);
   Create (Some G_internal) (Some 2%positive);
   Create (Some (holder 311)) (Some 1%positive);
   Create (Some (holder 321)) (Some 1%positive);
   Add 1%positive "g" (bare G_decl);
   Add 3%positive "v" (bare V_decl);
   Add 1%positive "i1" (bare I1);
   Add 1%positive "i2" (bare I2)].

Definition st : @Envs.store AdaNode := run population empty_store.

Definition declared_after (a b : AdaNode) : bool := false.

Definition node_env (n : AdaNode) : lexical_env := plain_env 1.

Definition children_env (n : AdaNode) : lexical_env :=
  match id_of n with
  | Parsed 300 => plain_env 2
  | Parsed 302 => plain_env 3
  | Parsed 311 => plain_env 4
  | Parsed 321 => plain_env 5
  | _ => EmptyEnv
  end.

(** Names are looked up by their token. *)
Definition env_elements (e : lexical_env) (name : entity)
  : result (list entity) :=
  Ok (Envs.get declared_after st e (tok (el name)) true None).

End Generic_example.

(** Two declarations of [X] in an inner scope, one in the enclosing scope
    and one in a scope that the inner one references. *)
Module Scopes_example.

Import Examples.

Definition inner_X1 : AdaNode := leaf 401 Kind.ObjectDecl "x".
Definition inner_X2 : AdaNode := leaf 402 Kind.SubpDecl "x".
Definition outer_X : AdaNode := leaf 403 Kind.ObjectDecl "x".
Definition used_X : AdaNode := leaf 404 Kind.ObjectDecl "x".
Definition use_clause : AdaNode := leaf 405 Kind.UsePackageClause EmptyString.

Definition declared_after (a b : AdaNode) : bool := false.

(** Environment 1 is the enclosing scope, 2 the inner one, 3 the
    referenced one. *)
Definition population : list (@action AdaNode) :=
  [Create None None;
   Create None (Some 1%positive);
   Create None (Some 1%positive);
   Add 1%positive "x" (bare outer_X);
   Add 2%positive "x" (bare inner_X1);
   Add 3%positive "x" (bare used_X);
   Reference 2%positive
     {| ref_owner := use_clause; ref_target := Some 3%positive;
        ref_recursive := true; ref_post := false;
        ref_md := {| assert_dottable_subp := None;
                     assert_implicit_deref := None |} |};
   Add 2%positive "y" (bare outer_X);
   Add 2%positive "x" (bare inner_X2)].

End Scopes_example.

(** The assignment [R := (A => 1);], once the type variable of the
    aggregate is bound to the record type [R]. *)
Module Aggregate_example.

Import Examples.

Definition bindings : Type := list (LogicVar * entity).

Fixpoint get_value (v : LogicVar) (s : bindings) : option entity :=
  match s with
  | [] => None
  | (w, x) :: rest => if decide (w = v) then Some x else get_value v rest
  end.

Definition parent (n : AdaNode) : option AdaNode :=
  match id_of n with
  | Parsed 110 => field 3 R_type_def
  | Parsed 116 => Some R_type_def
  | Parsed 112 => Some R_decl
  | _ => None
  end.

Definition Integer_decl : AdaNode :=
  node 120 Kind.TypeDecl
    [Some (leaf 121 Kind.Identifier "integer"); None; None; None].

Definition designated_type_impl (e : lexical_env) (o : option AdaNode)
  (name : AdaNode) : result (option entity) :=
  if String.eqb (tok name) "integer" then Ok (Some (bare Integer_decl))
  else Ok None.

Definition builder (ctx : context) (n : AdaNode) (s : bindings)
  : result (equation * bindings) :=
  Ok (Domain (type_var n) [], s).


Definition typed : bindings := [(type_var aggregate, bare R_decl)].

Definition xref_equation (s : bindings) : result (equation * bindings) :=
  Aggregate_xref_equation parent no_env designated_type_impl no_names
    bindings get_value builder 4 no_context aggregate s.

Definition built : equation :=
  Eval vm_compute in
    match xref_equation typed with
    | Ok (eq, _) => eq
    | _ => No_equation
    end.










End Aggregate_example.

(** The sum [1 + 2], one declaration of the operator being visible. *)
Module Operator_example.

Import Examples.

Definition plus_spec : AdaNode :=
  node 210 Kind.SubpSpec
    [Some (leaf 211 Kind.SubpKind_alt_function EmptyString);
     Some (leaf 212 Kind.StringLiteral (q "+"));
     Some (node 213 Kind.Params
             [Some (node 214 Kind.ParamSpec_list [Some F_params])]);
     Some (integer_indication 215)].

Definition plus_decl : AdaNode :=
  node 220 Kind.SubpDecl
    [Some (leaf 221 Kind.Overriding_alt_unspecified EmptyString);
     Some plus_spec; None].

Definition sum : AdaNode :=
  node 230 Kind.BinOp
    [Some (leaf 231 Kind.IntLiteral "1");
     Some (leaf 232 Kind.Op_alt_plus EmptyString);
     Some (leaf 233 Kind.IntLiteral "2")].

(** The name of the operator also designates something that is not a
    subprogram. *)
Definition population : list (@action AdaNode) :=
  [Create None None;
   Add 1%positive (q "+") (bare plus_decl);
   Add 1%positive (q "+") (bare Aggregate_example.Integer_decl)].

Definition st : @Envs.store AdaNode := run population empty_store.
Definition declared_after (a b : AdaNode) : bool := false.
Definition node_env (n : AdaNode) : lexical_env := plain_env 1.
Definition unit_root (n : AdaNode) : option AdaNode := None.

Definition xref_equation (s : Aggregate_example.bindings)
  : result (equation * Aggregate_example.bindings) :=
  BinOp_xref_equation no_parent node_env no_env
    Aggregate_example.designated_type_impl no_names st declared_after
    unit_root Aggregate_example.bindings Aggregate_example.builder 4
    no_context sum s.

Definition built : equation :=
  Eval vm_compute in
    match xref_equation [] with
    | Ok (eq, _) => eq
    | _ => No_equation
    end.

Definition Integer : option entity :=
  Some (bare Aggregate_example.Integer_decl).

End Operator_example.

(* ===================================================================== *)
(** * Properties                                                          *)
(* ===================================================================== *)

(** ** Sequencing and the array helpers *)

Lemma bind_r_Ok {A B} (m : result A) (f : A -> result B) (b : B) :
  bind_r m f = Ok b <-> exists a, m = Ok a /\ f a = Ok b.
Proof.
  unfold bind_r.
  destruct m as [a | |]; cbn; split; intros H; try discriminate;
    try (destruct H as (? & [=] & ?)); subst; eauto.
Qed.

Lemma deref_Ok {A B} (x : option A) (f : A -> result B) (b : B) :
  deref x f = Ok b <-> exists a, x = Some a /\ f a = Ok b.
Proof.
  destruct x as [a |]; cbn; split; intros H; try discriminate;
    try (destruct H as (? & [=] & ?)); subst; eauto.
Qed.

Section Langkit_facts.

Context {A B : Type}.

Lemma map_r_Ok (f : A -> result B) (l : list A) (r : list B) :
  map_r f l = Ok r <-> Forall2 (fun a b => f a = Ok b) l r.
Proof.
  revert r. induction l as [| a l IH]; intros r; cbn.
  - split; [intros [= <-]; constructor | intros H; inversion H; reflexivity].
  - rewrite bind_r_Ok. split.
    + intros (b & Hb & H). apply bind_r_Ok in H as (bs & Hbs & [= <-]).
      constructor; [exact Hb | apply IH, Hbs].
    + intros H. inversion H as [| ? b ? bs Hb Hbs]; subst.
      exists b. split; [exact Hb |]. apply bind_r_Ok.
      exists bs. split; [apply IH, Hbs | reflexivity].
Qed.

Lemma mapcat_r_Ok (f : A -> result (list B)) (l : list A) (r : list B) :
  mapcat_r f l = Ok r <->
  exists rs, Forall2 (fun a bs => f a = Ok bs) l rs /\ r = concat rs.
Proof.
  revert r. induction l as [| a l IH]; intros r; cbn.
  - split.
    + intros [= <-]. exists []. split; [constructor | reflexivity].
    + intros (rs & H & ->). inversion H. reflexivity.
  - rewrite bind_r_Ok. split.
    + intros (b & Hb & H). apply bind_r_Ok in H as (bs & Hbs & [= <-]).
      apply IH in Hbs as (rs & Hrs & ->).
      exists (b :: rs). split; [constructor; assumption | reflexivity].
    + intros (rs & H & ->). inversion H as [| ? b ? bs Hb Hbs]; subst.
      exists b. split; [exact Hb |]. apply bind_r_Ok.
      exists (concat bs). split; [apply IH; eauto | reflexivity].
Qed.


End Langkit_facts.

Section Filter_facts.

Context {A : Type}.

Lemma filter_r_Ok (p : A -> result bool) (l r : list A) :
  filter_r p l = Ok r ->
  Forall (fun a => exists b, p a = Ok b) l /\
  r = filter (fun a => holds (p a) = true) l.
Proof.
  revert r. induction l as [| a l IH]; intros r; cbn.
  - intros [= <-]. split; [constructor | reflexivity].
  - intros H. apply bind_r_Ok in H as (keep & Hk & H).
    apply bind_r_Ok in H as (rest & Hrest & [= <-]).
    apply IH in Hrest as [Hall ->]. split; [constructor; eauto |].
    destruct keep; rewrite ?Hk; cbn; repeat case_decide; cbn in *;
      first [reflexivity | congruence | discriminate].
Qed.

Lemma filter_r_total (p : A -> result bool) (l : list A) :
  Forall (fun a => exists b, p a = Ok b) l ->
  exists r, filter_r p l = Ok r.
Proof.
  induction 1 as [| a l (b & Hb) _ (r & Hr)]; cbn; [eauto |].
  rewrite Hb, Hr. cbn. eauto.
Qed.


Lemma length_filter_le (P : A -> Prop) `{forall a, Decision (P a)}
  (l : list A) : (length (filter P l) <= length l)%nat.
Proof. apply length_filter. Qed.

Lemma filter_all (P : A -> Prop) `{forall a, Decision (P a)} (l : list A) :
  Forall P l -> filter P l = l.
Proof.
  induction 1 as [| x l Hx _ IH]; [reflexivity |].
  rewrite filter_cons_True, IH by assumption. reflexivity.
Qed.

End Filter_facts.

(** ** The class hierarchy *)

(** Every chain of base classes ends in [AdaNode] within the bound used by
    [mro]. *)
Lemma mro_reaches_root (c : Kind.node_class) :
  last (Kind.mro c) = Some Kind.AdaNode.
Proof. destruct c; reflexivity. Qed.

Lemma is_a_refl (c : Kind.node_class) : Kind.is_a c c = true.
Proof. destruct c; reflexivity. Qed.

(** A node is not both an identifier and a string literal. *)
Lemma Identifier_StringLiteral_disjoint (c : Kind.node_class) :
  Kind.is_a c Kind.Identifier = true ->
  Kind.is_a c Kind.StringLiteral = false.
Proof. destruct c; cbv; intros; first [reflexivity | discriminate]. Qed.

(** A formal that implements [identifiers] also implements
    [is_mandatory]. *)
Lemma identifiers_implies_is_mandatory (c : Kind.node_class) :
  match implementor [Kind.ParamSpec; Kind.ComponentDecl; Kind.GenericFormal] c
  with
  | Some Kind.ParamSpec | Some Kind.ComponentDecl | Some Kind.GenericFormal =>
      implementor [Kind.BaseFormalParamDecl; Kind.ParamSpec] c <> None
  | _ => True
  end.
Proof. destruct c; cbv; first [exact I | discriminate]. Qed.

(** ** Names *)

(** C10. [Name.matches] is symmetric: [n1.matches(n2)] equals
    [n2.matches(n1)] for all nodes [n1] and [n2]; it compares the symbols
    when both nodes are identifiers or both are string literals, and is
    false for every other combination of node kinds. *)
Theorem matches_symmetric (n1 n2 : AdaNode) :
  matches n1 (Some n2) = matches n2 (Some n1) /\
  matches n1 (Some n2) =
    (Kind.is_a (kind n1) Kind.Identifier
     && Kind.is_a (kind n2) Kind.Identifier
     && String.eqb (sym n1) (sym n2))
    || (Kind.is_a (kind n1) Kind.StringLiteral
        && Kind.is_a (kind n2) Kind.StringLiteral
        && String.eqb (sym n1) (sym n2)).
Proof.
  unfold matches, cast.
  pose proof (Identifier_StringLiteral_disjoint (kind n1)) as D1.
  pose proof (Identifier_StringLiteral_disjoint (kind n2)) as D2.
  destruct (Kind.is_a (kind n1) Kind.Identifier),
           (Kind.is_a (kind n2) Kind.Identifier),
           (Kind.is_a (kind n1) Kind.StringLiteral),
           (Kind.is_a (kind n2) Kind.StringLiteral);
    try (specialize (D1 eq_refl); discriminate);
    try (specialize (D2 eq_refl); discriminate);
    simpl; rewrite ?orb_false_r; auto using String.eqb_sym.
Qed.

(** ** Formals and actuals *)

Section Resolution.

Variable parent : AdaNode -> option AdaNode.
Variable node_env : AdaNode -> lexical_env.
Variable designated_type_impl :
  lexical_env -> option AdaNode -> AdaNode -> result (option entity).
Variable defining_names : AdaNode -> result (list (option AdaNode)).

Local Abbreviation identifiers := (Ast.identifiers defining_names).
Local Abbreviation unpacked_formal_params :=
  (Ast.unpacked_formal_params parent node_env designated_type_impl
     defining_names).
Local Abbreviation nb_min_params :=
  (Ast.nb_min_params parent node_env designated_type_impl defining_names).
Local Abbreviation nb_max_params :=
  (Ast.nb_max_params parent node_env designated_type_impl defining_names).
Local Abbreviation match_param_list :=
  (Ast.match_param_list parent node_env designated_type_impl defining_names).
Local Abbreviation is_matching_param_list :=
  (Ast.is_matching_param_list parent node_env designated_type_impl
     defining_names).

Lemma is_mandatory_total (spec : entity) :
  implementor [Kind.BaseFormalParamDecl; Kind.ParamSpec] (kind (el spec))
    <> None ->
  exists b, is_mandatory spec = Ok b.
Proof.
  unfold is_mandatory.
  destruct (implementor _ (kind (el spec))) as [k |]; [| congruence].
  intros _. destruct k; eauto.
Qed.

Lemma identifiers_Ok_is_mandatory (spec : entity) ids :
  identifiers spec = Ok ids -> exists b, is_mandatory spec = Ok b.
Proof.
  intros H. apply is_mandatory_total.
  pose proof (identifiers_implies_is_mandatory (kind (el spec))) as C.
  unfold Ast.identifiers in H.
  destruct (implementor
              [Kind.ParamSpec; Kind.ComponentDecl; Kind.GenericFormal]
              (kind (el spec))) as [k |]; [| discriminate].
  destruct k; first [exact C | discriminate].
Qed.

(** Every unpacked formal carries a parameter specification on which
    [is_mandatory] is defined. *)
Lemma unpacked_formals_mandatory_defined fuel self formals :
  unpacked_formal_params fuel self = Ok formals ->
  Forall (fun f => exists b, formal_is_mandatory f = Ok b) formals.
Proof.
  unfold Ast.unpacked_formal_params. intros H.
  apply bind_r_Ok in H as (specs & _ & H).
  apply mapcat_r_Ok in H as (rs & Hrs & ->).
  apply Forall_concat.
  induction Hrs as [| spec fs specs rs Hspec _ IH]; constructor; [| exact IH].
  apply deref_Ok in Hspec as (spec' & -> & Hspec).
  apply bind_r_Ok in Hspec as (ids & Hids & [= <-]).
  apply Forall_fmap, Forall_forall. intros id _. cbn.
  eapply identifiers_Ok_is_mandatory, Hids.
Qed.

(** C8. For every subprogram specification (indeed for every holder of
    formal parameters), the minimum number of parameters, the count of
    the mandatory formals, is at most the maximum number of parameters,
    the count of all unpacked formals; both counts are defined together. *)
Theorem nb_min_params_le_nb_max_params (fuel : nat) (self : entity) :
  match nb_min_params fuel self, nb_max_params fuel self with
  | Ok nb_min, Ok nb_max => 0 <= nb_min <= nb_max
  | PropertyError, PropertyError => True
  | OutOfFuel, OutOfFuel => True
  | _, _ => False
  end.
Proof.
  unfold Ast.nb_min_params, Ast.nb_max_params.
  destruct (unpacked_formal_params fuel self) as [formals | |] eqn:E;
    unfold bind_r at 1 3; [| exact I | exact I].
  destruct (filter_r_total _ _ (unpacked_formals_mandatory_defined _ _ _ E))
    as (mandatory & Hm).
  rewrite Hm. unfold bind_r.
  apply filter_r_Ok in Hm as [_ ->]. unfold length_.
  pose proof (length_filter (fun a => holds (formal_is_mandatory a) = true)
                formals).
  lia.
Qed.





Lemma at_of_nat {A} (l : list A) (k : nat) : at_ l (Z.of_nat k) = l !! k.
Proof.
  unfold at_. destruct (Z.ltb_spec (Z.of_nat k) 0); [lia |].
  now rewrite Nat2Z.id.
Qed.



Lemma count_mandatory_matches (ml : list (option ParamMatch)) :
  forallb pm_has_matched ml = true ->
  length (filter (fun m => holds (match_is_mandatory m) = true) ml)
  = length (filter (fun f => mandatory f = true) (matched_formals ml)).
Proof.
  induction ml as [| m ml IH]; [reflexivity |].
  intros H. cbn [forallb] in H. apply andb_true_iff in H as [Hm H].
  destruct m as [pm |]; [| discriminate]. specialize (IH H).
  change (matched_formals (Some pm :: ml))
    with (formal pm :: matched_formals ml).
  rewrite !filter_cons.
  change (match_is_mandatory (Some pm))
    with (formal_is_mandatory (formal pm)).
  unfold mandatory at 1.
  destruct (decide (holds (formal_is_mandatory (formal pm)) = true));
    cbn [length]; congruence.
Qed.



End Resolution.



(** ** Entry points and the resolution driver *)

(** The entry points as the specification lists them: the statements, the
    initialized object declarations and the type declarations. *)
Definition listed_entry_point (n : AdaNode) : Prop :=
  Kind.is_a (kind n) Kind.Stmt = true
  \/ (Kind.is_a (kind n) Kind.ObjectDecl = true
      /\ ObjectDecl_default_expr n <> None)
  \/ Kind.is_a (kind n) Kind.TypeDecl = true.

Lemma resolve_names_internal_unfold {S : Type}
  (xref_equation : context -> AdaNode -> S -> result (equation * S))
  (solve : equation -> S -> result (bool * S))
  (ctx : context) (initial : bool) (self : AdaNode) (s : S) :
  resolve_names_internal S xref_equation solve ctx initial self s =
  let* (i, s1) :=
    if initial || xref_stop_resolution self then
      let* (eq, s') := xref_equation ctx self s in
      solve_or_null S solve eq s'
    else Ok (true, s) in
  if i : bool then
    all_s S (resolve_names_internal S xref_equation solve ctx false)
      (children self) s1
  else Ok (false, s1).
Proof. destruct self. reflexivity. Qed.

(** *** The driver as an iteration *)

(** The nodes at and below [n] that stop resolution, in the order a
    depth-first, left-to-right traversal meets them. *)
Fixpoint stop_nodes (n : AdaNode) : list AdaNode :=
  match n with
  | MkNode _ _ _ cs =>
      (if xref_stop_resolution n then [n] else [])
      ++ (fix below (l : list (option AdaNode)) : list AdaNode :=
            match l with
            | [] => []
            | None :: l' => below l'
            | Some c :: l' => stop_nodes c ++ below l'
            end) cs
  end.

(** The same for a list of children. *)
Fixpoint stop_nodes_of (l : list (option AdaNode)) : list AdaNode :=
  match l with
  | [] => []
  | None :: l' => stop_nodes_of l'
  | Some c :: l' => stop_nodes c ++ stop_nodes_of l'
  end.

(** Whether no node at or below [n] is an instance of [Aggregate]. *)
Fixpoint aggregate_free (n : AdaNode) : bool :=
  match n with
  | MkNode _ k _ cs =>
      negb (Kind.is_a k Kind.Aggregate)
      && forallb (fun c => match c with
                           | Some m => aggregate_free m
                           | None => true
                           end) cs
  end.

Section Driver.

Variable S : Type.
Variable xref_equation : context -> AdaNode -> S -> result (equation * S).
Variable solve : equation -> S -> result (bool * S).

Local Abbreviation resolve_names_internal :=
  (Ast.resolve_names_internal S xref_equation solve).

(** One step of the driver on its own: the equation of [n] is built and
    solved. *)
Definition solve_node (ctx : context) (n : AdaNode) (s : S)
  : result (bool * S) :=
  let* (eq, s') := xref_equation ctx n s in
  solve_or_null S solve eq s'.

(** The equations of the nodes of [l] are built and solved one after the
    other, each from the state the previous one left, until one fails. *)
Fixpoint solve_each (ctx : context) (l : list AdaNode) (s : S)
  : result (bool * S) :=
  match l with
  | [] => Ok (true, s)
  | n :: l' =>
      let* (ok, s1) := solve_node ctx n s in
      if ok : bool then solve_each ctx l' s1 else Ok (false, s1)
  end.

Lemma stop_nodes_unfold (n : AdaNode) :
  stop_nodes n
  = (if xref_stop_resolution n then [n] else []) ++ stop_nodes_of (children n).
Proof.
  destruct n as [i k t cs]. reflexivity.
Qed.

Lemma solve_each_app (ctx : context) (l1 l2 : list AdaNode) (s : S) :
  solve_each ctx (l1 ++ l2) s
  = let* (ok, s1) := solve_each ctx l1 s in
    if ok : bool then solve_each ctx l2 s1 else Ok (false, s1).
Proof.
  revert s. induction l1 as [| n l1 IH]; intros s; cbn [app solve_each].
  - reflexivity.
  - destruct (solve_node ctx n s) as [[[] s1] | |]; unfold bind_r at 1 3;
      try reflexivity.
    apply IH.
Qed.

Lemma all_s_solve_each (ctx : context) (cs : list (option AdaNode)) :
  Forall (Forall_child (fun c => forall s,
            resolve_names_internal ctx false c s
            = solve_each ctx (stop_nodes c) s)) cs ->
  forall s,
    all_s S (resolve_names_internal ctx false) cs s
    = solve_each ctx (stop_nodes_of cs) s.
Proof.
  induction 1 as [| [c |] cs Hc _ IH]; intros s;
    cbn [all_s stop_nodes_of solve_each].
  - reflexivity.
  - rewrite solve_each_app. cbn in Hc. rewrite Hc.
    destruct (solve_each ctx (stop_nodes c) s) as [[[] s1] | |];
      unfold bind_r; try reflexivity.
    apply IH.
  - apply IH.
Qed.

Lemma resolve_names_internal_stop_nodes (ctx : context) (n : AdaNode) :
  forall s,
    resolve_names_internal ctx false n s = solve_each ctx (stop_nodes n) s.
Proof.
  induction n as [i k t cs IH] using AdaNode_rect'. intros s.
  rewrite resolve_names_internal_unfold, stop_nodes_unfold. cbn [orb children].
  pose proof (all_s_solve_each ctx cs IH) as Hcs.
  destruct (xref_stop_resolution (MkNode i k t cs)).
  - cbn [app solve_each]. fold (solve_node ctx (MkNode i k t cs) s).
    destruct (solve_node ctx (MkNode i k t cs) s) as [[[] s1] | |];
      unfold bind_r; try reflexivity.
    apply Hcs.
  - unfold bind_r. cbn [app]. apply Hcs.
Qed.

Lemma resolve_names_internal_initial (ctx : context) (n : AdaNode) (s : S) :
  resolve_names_internal ctx true n s
  = solve_each ctx (n :: stop_nodes_of (children n)) s.
Proof.
  rewrite resolve_names_internal_unfold. cbn [orb solve_each].
  fold (solve_node ctx n s).
  destruct (solve_node ctx n s) as [[[] s1] | |]; unfold bind_r;
    try reflexivity.
  apply all_s_solve_each.
  apply Forall_forall. intros [c |] _; cbn; [| exact I].
  apply resolve_names_internal_stop_nodes.
Qed.

(** X1. [resolve_names_internal] amounts to an iteration: called on a
    node in the course of a traversal, it builds and solves, one after the
    other, the equations of the nodes of the subtree that stop resolution,
    in depth-first order, each from the state of the logic variables the
    previous solve left, and it ends at the first equation that cannot be
    built or solved; called on the node that [resolve_names] is given, it
    first does so for that node. *)
Theorem resolve_names_internal_iterates (ctx : context) (n : AdaNode)
  (s : S) :
  resolve_names_internal ctx false n s = solve_each ctx (stop_nodes n) s /\
  resolve_names_internal ctx true n s
  = solve_each ctx (n :: stop_nodes_of (children n)) s.
Proof.
  split.
  - apply resolve_names_internal_stop_nodes.
  - apply resolve_names_internal_initial.
Qed.

Lemma aggregate_free_stop_nodes (n : AdaNode) :
  aggregate_free n = true -> stop_nodes n = [].
Proof.
  induction n as [i k t cs IH] using AdaNode_rect'.
  cbn [aggregate_free]. rewrite andb_true_iff, negb_true_iff.
  intros [Hk Hcs]. rewrite stop_nodes_unfold.
  assert (Hstop : xref_stop_resolution (MkNode i k t cs) = false).
  { unfold xref_stop_resolution. cbn [kind]. destruct k; vm_compute in Hk;
      first [reflexivity | discriminate]. }
  rewrite Hstop. cbn [app children]. clear Hstop.
  induction IH as [| [c |] cs Hc _ IHcs]; cbn [stop_nodes_of];
    [reflexivity | |]; cbn [forallb] in Hcs.
  - apply andb_true_iff in Hcs as [Hc' Hcs].
    rewrite (Hc Hc'). cbn [app]. apply IHcs, Hcs.
  - apply IHcs, Hcs.
Qed.

(** X2. When no node below [n] is an aggregate, the driver solves one
    equation in [resolve_names] on [n]: the outcome and the state of the
    logic variables are those of building and solving the equation of [n]
    (building it may itself call the solver, as the builder of a case
    expression does), and a traversal that reaches such a subtree changes
    nothing and succeeds. *)
Theorem resolve_names_without_aggregate (node_env : AdaNode -> lexical_env)
  (n : AdaNode) (s : S) :
  forallb (fun c => match c with
                    | Some m => aggregate_free m
                    | None => true
                    end) (children n) = true ->
  Ast.resolve_names node_env S xref_equation solve n s
  = solve_node {| env := node_env n; origin := Some n |} n s /\
  (aggregate_free n = true ->
   forall ctx, resolve_names_internal ctx false n s = Ok (true, s)).
Proof.
  intros Hfree.
  assert (Hbelow : stop_nodes_of (children n) = []).
  { induction (children n) as [| [c |] cs IH]; cbn [stop_nodes_of];
      [reflexivity | |]; cbn [forallb] in Hfree.
    - apply andb_true_iff in Hfree as [Hc Hcs].
      rewrite (aggregate_free_stop_nodes c Hc). apply IH, Hcs.
    - apply IH, Hfree. }
  split.
  - unfold Ast.resolve_names.
    rewrite resolve_names_internal_initial, Hbelow.
    cbn [solve_each].
    destruct (solve_node _ n s) as [[[] s1] | |]; reflexivity.
  - intros Hn ctx.
    rewrite resolve_names_internal_stop_nodes.
    rewrite (aggregate_free_stop_nodes n Hn). reflexivity.
Qed.

End Driver.

(** *** Entry points *)

Lemma stop_nodes_Aggregate (n : AdaNode) :
  Forall (fun m => Kind.is_a (kind m) Kind.Aggregate = true) (stop_nodes n).
Proof.
  induction n as [i k t cs IH] using AdaNode_rect'.
  rewrite stop_nodes_unfold. apply Forall_app. split.
  - destruct (xref_stop_resolution (MkNode i k t cs)) eqn:Hstop;
      [| constructor].
    constructor; [| constructor].
    unfold xref_stop_resolution in Hstop. cbn [kind] in *.
    destruct k; vm_compute in Hstop; first [reflexivity | discriminate].
  - cbn [children].
    induction IH as [| [c |] cs Hc _ IHcs]; cbn [stop_nodes_of].
    + constructor.
    + apply Forall_app. split; [exact Hc | exact IHcs].
    + exact IHcs.
Qed.

Lemma CaseExpr_dispatch (k : Kind.node_class) :
  Kind.is_a k Kind.CaseExpr = true ->
  implementor xref_equation_classes k = Some Kind.CaseExpr.
Proof. destruct k; vm_compute; intros; first [reflexivity | discriminate]. Qed.

(** C3, as amended. The nodes that report themselves as resolution entry
    points are exactly the instances of [Stmt], of [ObjectDecl] (with or
    without initializer) and of [TypeDecl], and the nodes that stop
    resolution are exactly the instances of [Aggregate].  The other nodes
    are not all resolved within the equation of the entry point around
    them.  The driver, below the node it is called on, builds and solves
    the equations of the aggregates it meets, one after the other, and of
    no other node.  And the builder of a case expression calls
    [resolve_names] on the selector, whatever its class: to build the
    equation of the case expression, the equation of the selector is
    built, the selector being the origin, and solved on its own. *)
Theorem xref_entry_point_classes :
  (forall n : AdaNode,
     xref_entry_point n = true <->
     Kind.is_a (kind n) Kind.Stmt = true
     \/ Kind.is_a (kind n) Kind.ObjectDecl = true
     \/ Kind.is_a (kind n) Kind.TypeDecl = true) /\
  (forall n : AdaNode,
     xref_stop_resolution n = true <->
     Kind.is_a (kind n) Kind.Aggregate = true) /\
  (forall (S : Type) xref_equation solve ctx (n : AdaNode) (s : S),
     resolve_names_internal S xref_equation solve ctx false n s
     = solve_each S xref_equation solve ctx (stop_nodes n) s /\
     Forall (fun m => Kind.is_a (kind m) Kind.Aggregate = true)
       (stop_nodes n)) /\
  (forall parent node_env designated_type_impl defining_names (S : Type)
          get_value solve other fuel ctx (ce sel : AdaNode) (s : S) eq s',
     Kind.is_a (kind ce) Kind.CaseExpr = true ->
     CaseExpr_expr ce = Some sel ->
     Ast.xref_equation parent node_env designated_type_impl defining_names
       S get_value solve other (Datatypes.S fuel) ctx ce s = Ok (eq, s') ->
     exists e0 s0 ok s1 ok' s2,
       Ast.xref_equation parent node_env designated_type_impl defining_names
         S get_value solve other fuel
         {| env := node_env sel; origin := Some sel |} sel s = Ok (e0, s0) /\
       solve_or_null S solve e0 s0 = Ok (ok, s1) /\
       Ast.resolve_names node_env S
         (Ast.xref_equation parent node_env designated_type_impl
            defining_names S get_value solve other fuel)
         solve sel s = Ok (ok', s2)).
Proof.
  split; [| split; [| split]].
  - intros [i k t cs]. unfold xref_entry_point. cbn [kind].
    destruct k; vm_compute; intuition discriminate.
  - intros [i k t cs]. unfold xref_stop_resolution. cbn [kind].
    destruct k; vm_compute; intuition discriminate.
  - intros S xref_equation solve ctx n s. split.
    + apply resolve_names_internal_stop_nodes.
    + apply stop_nodes_Aggregate.
  - intros parent node_env designated_type_impl defining_names S get_value
      solve other fuel ctx ce sel s eq s' Hk Hsel H.
    cbn [Ast.xref_equation] in H. rewrite (CaseExpr_dispatch _ Hk) in H.
    unfold CaseExpr_xref_equation in H. rewrite Hsel in H. cbn [deref] in H.
    apply bind_r_Ok in H as ([ok' s2] & Hres & _).
    pose proof Hres as Hrun. unfold Ast.resolve_names in Hrun.
    rewrite resolve_names_internal_unfold in Hrun. cbn [orb] in Hrun.
    apply bind_r_Ok in Hrun as ([ok s1] & Hown & _).
    apply bind_r_Ok in Hown as ([e0 s0] & Hbuilt & Hsolved).
    exists e0, s0, ok, s1, ok', s2. auto.
Qed.

(** C3, as stated, fails on both counts: [X : Integer;] is an entry point
    though it has no initializer, and an aggregate, which is not an entry
    point, has its own equation solved when the driver reaches it (with a
    solver that fails, the outcome is a failure although the aggregate's
    children are resolved without one). *)
Lemma uninitialized_object_is_entry_point :
  ~ (forall n : AdaNode, xref_entry_point n = true <-> listed_entry_point n)
  /\ ~ (forall (S : Type) xref_equation solve ctx (n : AdaNode) (s : S),
          xref_entry_point n = false ->
          resolve_names_internal S xref_equation solve ctx false n s =
          all_s S (resolve_names_internal S xref_equation solve ctx false)
            (children n) s).
Proof.
  split.
  - intros H.
    destruct (proj1 (H Examples.object_without_initializer) eq_refl)
      as [H1 | [[_ H2] | H3]].
    + vm_compute in H1. discriminate.
    + apply H2. reflexivity.
    + vm_compute in H3. discriminate.
  - intros H.
    specialize (H (list equation) Examples.naming_builder
                  Examples.failing_solver Examples.no_context
                  Examples.aggregate [] eq_refl).
    vm_compute in H. discriminate.
Qed.

(** In [X := (case Y is when 1 => 2);] the assignment is an entry point
    and the selector [Y] is not; the solver is handed the equation of [Y]
    on its own, and then the equation of the assignment.  In
    [R := (A => 1);] the aggregate stops resolution. *)
Lemma xref_entry_point_classes_witness :
  xref_entry_point Examples.case_assignment = true /\
  xref_entry_point Examples.selector = false /\
  xref_stop_resolution Examples.aggregate = true /\
  stop_nodes Examples.assignment = [Examples.aggregate] /\
  (exists eq,
     Ast.resolve_names Examples.no_env (list equation)
       (Ast.xref_equation Examples.no_parent Examples.no_env Examples.no_type
          Examples.no_names (list equation) Examples.no_value
          Examples.recording_solver Examples.naming_builder 3)
       Examples.recording_solver Examples.case_assignment []
     = Ok (true, [Domain (TypeVar (Parsed 131)) []; eq])) /\
  Ast.resolve_names Examples.no_env (list equation)
    (Ast.xref_equation Examples.no_parent Examples.no_env Examples.no_type
       Examples.no_names (list equation) Examples.no_value
       Examples.recording_solver Examples.naming_builder 1)
    Examples.recording_solver Examples.selector []
  = Ok (true, [Domain (TypeVar (Parsed 131)) []]).
Proof.
  destruct xref_entry_point_classes as (Hentry & Hstop & Hdriver & Hcase).
  split; [apply Hentry; left; reflexivity |].
  split; [reflexivity |].
  split; [apply Hstop; reflexivity |].
  split; [reflexivity |].
  split; [eexists; vm_compute; reflexivity |].
  destruct (Hcase Examples.no_parent Examples.no_env Examples.no_type
              Examples.no_names (list equation) Examples.no_value
              Examples.recording_solver Examples.naming_builder 1%nat
              Examples.no_context Examples.case_expr Examples.selector []
              _ _ eq_refl eq_refl eq_refl)
    as (e0 & s0 & ok & s1 & ok' & s2 & _ & _ & Hrun).
  rewrite Hrun. vm_compute in Hrun. injection Hrun as <- <-. reflexivity.
Defined.

(** ** Type derivation *)

Section Type_derivation.

Variable parent : AdaNode -> option AdaNode.
Variable node_env : AdaNode -> lexical_env.
Variable designated_type_impl :
  lexical_env -> option AdaNode -> AdaNode -> result (option entity).

Local Abbreviation is_derived_type :=
  (Ast.is_derived_type parent node_env designated_type_impl).
Local Abbreviation canonical_type :=
  (Ast.canonical_type node_env designated_type_impl).
Local Abbreviation matching_prefix_type :=
  (Ast.matching_prefix_type parent node_env designated_type_impl).

(** A type declaration that is not a subtype declaration is its own
    canonical type. *)
Lemma canonical_type_self (fuel : nat) (origin : option AdaNode) (T : entity) :
  Kind.is_a (kind (el T)) Kind.BaseTypeDecl = true ->
  Kind.is_a (kind (el T)) Kind.SubtypeDecl = false ->
  canonical_type (S fuel) origin T = Ok T.
Proof.
  cbn [Ast.canonical_type]. destruct (kind (el T)); vm_compute;
    intros; first [reflexivity | discriminate].
Qed.

(** C9. The derivation relation is reflexive: [T.is_derived_type(T)] is
    true for every type declaration [T]; consequently the prefix check of
    dotted names accepts a prefix whose type is the container type itself,
    whenever that type has a canonical type, which is the case of every
    type declaration that is not a subtype declaration. *)
Theorem is_derived_type_reflexive :
  (forall (fuel : nat) (T : entity),
     is_derived_type (S fuel) T (Some T) = Ok true) /\
  (forall (fuel : nat) (origin : option AdaNode) (T c : entity),
     canonical_type (S fuel) origin T = Ok c ->
     matching_prefix_type (S fuel) origin T (Some T) = Ok true) /\
  (forall (fuel : nat) (origin : option AdaNode) (T : entity),
     Kind.is_a (kind (el T)) Kind.BaseTypeDecl = true ->
     Kind.is_a (kind (el T)) Kind.SubtypeDecl = false ->
     matching_prefix_type (S fuel) origin T (Some T) = Ok true).
Proof.
  assert (Hrefl : forall fuel T, is_derived_type (S fuel) T (Some T) = Ok true).
  { intros fuel T. cbn [Ast.is_derived_type].
    rewrite bool_decide_eq_true_2 by reflexivity. reflexivity. }
  assert (Hprefix : forall fuel origin T c,
            canonical_type (S fuel) origin T = Ok c ->
            matching_prefix_type (S fuel) origin T (Some T) = Ok true).
  { intros fuel origin T c Hc. unfold Ast.matching_prefix_type.
    cbn [deref]. rewrite Hc. unfold bind_r at 1 2.
    rewrite Hrefl. reflexivity. }
  split; [exact Hrefl | split; [exact Hprefix |]].
  intros fuel origin T HT Hsub. eapply Hprefix.
  apply canonical_type_self; assumption.
Qed.

End Type_derivation.

(** The record type [R] is derived from itself and is accepted as the type
    of the prefix of its own components. *)
Lemma is_derived_type_reflexive_witness :
  Ast.canonical_type Examples.no_env Examples.no_type 1 None
    (Examples.bare Examples.R_decl) = Ok (Examples.bare Examples.R_decl) /\
  Ast.is_derived_type Examples.no_parent Examples.no_env Examples.no_type 1
    (Examples.bare Examples.R_decl) (Some (Examples.bare Examples.R_decl))
  = Ok true /\
  Ast.matching_prefix_type Examples.no_parent Examples.no_env
    Examples.no_type 1 None (Examples.bare Examples.R_decl)
    (Some (Examples.bare Examples.R_decl)) = Ok true.
Proof.
  pose proof (is_derived_type_reflexive Examples.no_parent Examples.no_env
                Examples.no_type) as (Hrefl & Hprefix & _).
  split; [vm_compute; reflexivity |].
  split; [apply Hrefl |].
  apply (Hprefix O None _ (Examples.bare Examples.R_decl)).
  vm_compute. reflexivity.
Defined.

(** ** Binary operators *)

Section Binary_operators.

Variable parent : AdaNode -> option AdaNode.
Variable node_env : AdaNode -> lexical_env.
Variable children_env : AdaNode -> lexical_env.
Variable designated_type_impl :
  lexical_env -> option AdaNode -> AdaNode -> result (option entity).
Variable defining_names : AdaNode -> result (list (option AdaNode)).
Variable st : @Envs.store AdaNode.
Variable declared_after : AdaNode -> AdaNode -> bool.
Variable unit_root : AdaNode -> option AdaNode.
Variable S : Type.
Variable xref_equation : context -> AdaNode -> S -> result (equation * S).

Local Abbreviation unpacked_formal_params :=
  (Ast.unpacked_formal_params parent node_env designated_type_impl
     defining_names).
Local Abbreviation formal_type :=
  (Ast.formal_type node_env designated_type_impl).
Local Abbreviation designated_type :=
  (Ast.designated_type node_env designated_type_impl).
Local Abbreviation subprograms := (Ast.subprograms node_env st declared_after).
Local Abbreviation no_overload_equation :=
  (Ast.no_overload_equation node_env children_env st declared_after unit_root).
Local Abbreviation overload_branch :=
  (Ast.overload_branch parent node_env designated_type_impl defining_names).
Local Abbreviation sub_equation := (Ast.sub_equation S xref_equation).
Local Abbreviation BinOp_xref_equation :=
  (Ast.BinOp_xref_equation parent node_env children_env designated_type_impl
     defining_names st declared_after unit_root S xref_equation).

(** The branch [b] of the operator node [self] for the overload [subp]:
    the type variables of the operands are bound to the types of the first
    and second formal of [subp], the type variable of the node to the
    return type of [subp] and the reference variable of the operator to
    [subp]. *)
Definition branch_for (fuel : nat) (ctx : context) (self : AdaNode)
  (subp : entity) (b : equation) : Prop :=
  exists left op right spec ps f0 f1 s0 s1 t0 t1 ret rt,
    BinOp_left self = Some left /\ BinOp_op self = Some op /\
    BinOp_right self = Some right /\
    subp_decl_spec subp = Ok (Some spec) /\
    unpacked_formal_params fuel spec = Ok ps /\
    ps !! 0%nat = Some f0 /\ formal_spec f0 = Some s0 /\
    formal_type fuel s0 = Ok t0 /\
    ps !! 1%nat = Some f1 /\ formal_spec f1 = Some s1 /\
    formal_type fuel s1 = Ok t1 /\
    returns spec = Ok (Some ret) /\
    designated_type (origin ctx) ret = Ok rt /\
    b = And (And (And (Bind (type_var left) t0 None)
                      (Bind (type_var right) t1 None))
                 (Bind (type_var self) rt None))
            (Bind (RefVar (id_of op)) (Some subp) None).

Lemma overload_branch_spec fuel ctx self subp b :
  overload_branch fuel ctx self subp = Ok b <-> branch_for fuel ctx self subp b.
Proof.
  unfold Ast.overload_branch, branch_for. split.
  - intros H.
    apply bind_r_Ok in H as (spec & Hspec & H).
    apply bind_r_Ok in H as (ps & Hps & H).
    apply deref_Ok in Hps as (spec' & -> & Hps).
    apply bind_r_Ok in H as (ltv & Hl & H).
    apply deref_Ok in Hl as (left & Hleft & [= <-]).
    apply bind_r_Ok in H as (t0 & Ht0 & H).
    apply deref_Ok in Ht0 as (s0 & Hs0 & Ht0).
    apply bind_r_Ok in H as (rtv & Hr & H).
    apply deref_Ok in Hr as (right & Hright & [= <-]).
    apply bind_r_Ok in H as (t1 & Ht1 & H).
    apply deref_Ok in Ht1 as (s1 & Hs1 & Ht1).
    apply bind_r_Ok in H as (ret & Hret & H). cbn [deref] in Hret.
    apply bind_r_Ok in H as (rt & Hrt & H).
    apply deref_Ok in Hrt as (ret' & -> & Hrt).
    apply bind_r_Ok in H as (opv & Hop & [= <-]).
    apply deref_Ok in Hop as (op & Hop & [= <-]).
    change (at_ ps 0) with (ps !! 0%nat) in Hs0.
    change (at_ ps 1) with (ps !! 1%nat) in Hs1.
    destruct (ps !! 0%nat) as [f0 |] eqn:Hf0; [| discriminate Hs0].
    destruct (ps !! 1%nat) as [f1 |] eqn:Hf1; [| discriminate Hs1].
    cbn in Hs0, Hs1.
    exists left, op, right, spec', ps, f0, f1, s0, s1, t0, t1, ret', rt.
    repeat split; assumption.
  - intros (left & op & right & spec & ps & f0 & f1 & s0 & s1 & t0 & t1 & ret
            & rt & Hleft & Hop & Hright & Hspec & Hps & Hf0 & Hs0 & Ht0
            & Hf1 & Hs1 & Ht1 & Hret & Hrt & ->).
    rewrite Hspec. unfold bind_r at 1. cbn [deref].
    rewrite Hps. unfold bind_r at 1.
    rewrite Hleft, Hright, Hop. cbn [deref]. unfold bind_r at 1.
    change (at_ ps 0) with (ps !! 0%nat).
    change (at_ ps 1) with (ps !! 1%nat).
    rewrite Hf0, Hf1. cbn [mbind option_bind]. rewrite Hs0, Hs1. cbn [deref].
    rewrite Ht0. unfold bind_r at 1. unfold bind_r at 1.
    rewrite Ht1. unfold bind_r at 1.
    rewrite Hret. unfold bind_r at 1. cbn [deref].
    rewrite Hrt. reflexivity.
Qed.

(** C1. The equation built for a binary-operator node is the conjunction
    of the sub-equations of its operands with a disjunction: one branch
    per subprogram of the operator's name visible from the node, in lookup
    order, and the built-in fallback.  The branch of an overload binds the
    type variable of the left operand to the type of the overload's first
    formal, that of the right operand to the type of its second formal,
    the type variable of the node to its return type and the reference
    variable of the operator to the overload.  The equation is built
    exactly when the operands have sub-equations and every visible
    overload has these two formals and a return type. *)
Theorem BinOp_xref_equation_disjunction (fuel : nat) (ctx : context)
  (self : AdaNode) (s s2 : S) (eq : equation) :
  BinOp_xref_equation fuel ctx self s = Ok (eq, s2) <->
  exists left op right l s1 r branches fallback,
    BinOp_left self = Some left /\ BinOp_op self = Some op /\
    BinOp_right self = Some right /\
    sub_equation ctx left s = Ok (l, s1) /\
    sub_equation ctx right s1 = Ok (r, s2) /\
    length branches = length (subprograms op) /\
    Forall2 (branch_for fuel ctx self) (subprograms op) branches /\
    no_overload_equation self = Ok fallback /\
    eq = And (And l r) (Or (logic_any branches) fallback).
Proof.
  unfold Ast.BinOp_xref_equation. split.
  - intros H.
    apply bind_r_Ok in H as (subps & Hsubps & H).
    apply deref_Ok in Hsubps as (op & Hop & [= <-]).
    apply bind_r_Ok in H as ([l s1] & Hl & H).
    apply deref_Ok in Hl as (left & Hleft & Hl).
    apply bind_r_Ok in H as ([r s2'] & Hr & H).
    apply deref_Ok in Hr as (right & Hright & Hr).
    apply bind_r_Ok in H as (branches & Hb & H).
    apply bind_r_Ok in H as (fallback & Hfb & [= <- <-]).
    apply map_r_Ok in Hb.
    exists left, op, right, l, s1, r, branches, fallback.
    repeat split; try assumption.
    + symmetry. eapply Forall2_length, Hb.
    + eapply Forall2_impl; [exact Hb |].
      intros subp b. apply overload_branch_spec.
  - intros (left & op & right & l & s1 & r & branches & fallback & Hleft
            & Hop & Hright & Hl & Hr & _ & Hb & Hfb & ->).
    rewrite Hop, Hleft, Hright. cbn [deref]. unfold bind_r at 1.
    rewrite Hl. unfold bind_r at 1. rewrite Hr. unfold bind_r at 1.
    assert (Hmap : map_r (overload_branch fuel ctx self) (subprograms op)
                   = Ok branches).
    { apply map_r_Ok. eapply Forall2_impl; [exact Hb |].
      intros subp b. apply overload_branch_spec. }
    rewrite Hmap. unfold bind_r at 1. rewrite Hfb. reflexivity.
Qed.

(** The fallback of an operator that is not a relational operator binds
    the type of the node to the type of each operand. *)
Lemma no_overload_equation_BinOp (self left right : AdaNode) :
  implementor [Kind.BinOp; Kind.RelationOp] (kind self) = Some Kind.BinOp ->
  BinOp_left self = Some left -> BinOp_right self = Some right ->
  no_overload_equation self =
  Ok (And (Bind_vars (type_var self) (type_var left) None)
          (Bind_vars (type_var self) (type_var right) None)).
Proof.
  intros Hk Hl Hr. unfold Ast.no_overload_equation.
  rewrite Hl, Hr, Hk. reflexivity.
Qed.

End Binary_operators.

(** ** Aggregates *)

Section Aggregates.

Variable parent : AdaNode -> option AdaNode.
Variable node_env : AdaNode -> lexical_env.
Variable designated_type_impl :
  lexical_env -> option AdaNode -> AdaNode -> result (option entity).
Variable defining_names : AdaNode -> result (list (option AdaNode)).
Variable S : Type.
Variable get_value : LogicVar -> S -> option entity.
Variable xref_equation : context -> AdaNode -> S -> result (equation * S).
Variable solve : equation -> S -> result (bool * S).

Local Abbreviation designated_type :=
  (Ast.designated_type node_env designated_type_impl).
Local Abbreviation match_param_list :=
  (Ast.match_param_list parent node_env designated_type_impl defining_names).
Local Abbreviation record_def := (Ast.record_def parent).
Local Abbreviation comp_type :=
  (Ast.ArrayTypeDef_comp_type node_env designated_type_impl).
Local Abbreviation sub_equation := (Ast.sub_equation S xref_equation).
Local Abbreviation record_assoc_equation :=
  (Ast.record_assoc_equation node_env designated_type_impl S xref_equation).
Local Abbreviation array_assoc_equation :=
  (Ast.array_assoc_equation node_env designated_type_impl S xref_equation).
Local Abbreviation Aggregate_xref_equation :=
  (Ast.Aggregate_xref_equation parent node_env designated_type_impl
     defining_names S get_value xref_equation).
Local Abbreviation resolve_names_internal :=
  (Ast.resolve_names_internal S xref_equation solve).
Local Abbreviation canonical_type :=
  (Ast.canonical_type node_env designated_type_impl).
Local Abbreviation dispatched :=
  (Ast.xref_equation parent node_env designated_type_impl defining_names S
     get_value solve).

(** [threaded R l s bs s']: the elements of [l] are related by [R] to the
    elements of [bs], one after the other, the state going from [s] to
    [s']. *)
Inductive threaded {A B : Type} (R : A -> S -> B -> S -> Prop)
  : list A -> S -> list B -> S -> Prop :=
  | threaded_nil (s : S) : threaded R [] s [] s
  | threaded_cons (a : A) (l : list A) (s : S) (b : B) (s1 : S)
      (bs : list B) (s2 : S) :
      R a s b s1 -> threaded R l s1 bs s2 ->
      threaded R (a :: l) s (b :: bs) s2.

Lemma threaded_length {A B} (R : A -> S -> B -> S -> Prop) l s bs s' :
  threaded R l s bs s' -> length bs = length l.
Proof. induction 1; cbn; congruence. Qed.














End Aggregates.





(** ** Environments *)

Section Environment_facts.

Context {node : Type} `{EqDecision node}.

Variable declared_after : node -> node -> bool.

Local Abbreviation store := (@Envs.store node).
Local Abbreviation get := (@Envs.get node _ declared_after).
Local Abbreviation collect := (@Envs.collect node declared_after).

Lemma dedup_NoDup {A} `{EqDecision A} (l : list A) : NoDup l -> dedup l = l.
Proof.
  induction 1 as [| x l Hx _ IH]; cbn [dedup]; [reflexivity |].
  rewrite IH. f_equal. apply filter_all.
  apply Forall_forall. intros y Hy ->. contradiction.
Qed.

Lemma elem_of_dedup {A} `{EqDecision A} (l : list A) (x : A) :
  x ∈ dedup l <-> x ∈ l.
Proof.
  induction l as [| y l IH]; cbn [dedup]; [reflexivity |].
  rewrite !elem_of_cons, list_elem_of_filter, IH.
  destruct (decide (x = y)); intuition congruence.
Qed.

Lemma decorate_nil (x : Envs.entity node) : decorate [] x = x.
Proof.
  destruct x as [n [m rbs]]. unfold decorate. cbn. now rewrite app_nil_r.
Qed.

Lemma lookup_depth_pos (st : store) : exists n, lookup_depth st = S n.
Proof. unfold lookup_depth. cbn. eauto. Qed.

(** A non-recursive lookup in a plain environment returns the entities
    stored directly there, deduplicated. *)
Lemma get_non_recursive (st : store) (e : env_id) (s : Symbol) :
  get st (plain_env e) s false None = dedup (own_entities st e s).
Proof.
  unfold Envs.get. cbn [le_env plain_env le_rebindings].
  destruct (lookup_depth_pos st) as (n & ->).
  cbn [Envs.collect apply_rebindings]. f_equal.
  rewrite filter_all by (apply Forall_forall; reflexivity).
  induction (own_entities st e s) as [| x l IH]; [reflexivity |].
  rewrite fmap_cons, decorate_nil, IH. reflexivity.
Qed.

(** The handles in use are the ones below the next handle. *)
Definition dense (st : store) : Prop :=
  forall e, is_Some (envs st !! e) <-> (e < next_env st)%positive.

Lemma dense_empty : dense empty_store.
Proof.
  intros e. cbn. rewrite lookup_empty. split; [intros [? [=]] | lia].
Qed.

Lemma dense_step (a : action) (st : store) :
  dense st -> dense (step a st).
Proof.
  unfold dense. intros D e. specialize (D e).
  destruct a as [owner p | e' s x | e' d]; cbn.
  - rewrite lookup_insert. case_decide as Heq.
    + subst. split; [lia | eauto].
    + rewrite D. lia.
  - rewrite lookup_alter. case_decide; subst;
      rewrite <- D; [rewrite fmap_is_Some |]; reflexivity.
  - rewrite lookup_alter. case_decide; subst;
      rewrite <- D; [rewrite fmap_is_Some |]; reflexivity.
Qed.

Lemma next_env_step (a : action) (st : store) :
  next_env (step a st) =
  match a with
  | Create _ _ => Pos.succ (next_env st)
  | _ => next_env st
  end.
Proof. destruct a; reflexivity. Qed.

Lemma own_entities_step (a : action) (st : store) (e : env_id) (s : Symbol) :
  dense st -> well_formed (next_env st) [a] = true ->
  own_entities (step a st) e s = own_entities st e s ++ added [a] e s.
Proof.
  unfold dense. intros D W. unfold own_entities, added.
  destruct a as [owner p | e' s' x | e' d]; cbn in *.
  - rewrite app_nil_r, lookup_insert. case_decide as Heq; [| reflexivity].
    subst. cbn. rewrite lookup_empty.
    destruct (envs st !! next_env st) eqn:E; [| reflexivity].
    assert (is_Some (envs st !! next_env st)) as H%D by eauto. lia.
  - rewrite andb_true_r in W. apply Pos.ltb_lt in W.
    apply D in W as [E HE]. rewrite lookup_alter.
    case_decide as Heq.
    + subst. rewrite HE. cbn.
      case_decide as Hs.
      * destruct Hs as [_ ->]. rewrite lookup_insert_eq. reflexivity.
      * rewrite app_nil_r, lookup_insert_ne; [reflexivity |].
        intros ->. apply Hs. auto.
    + rewrite decide_False by (intros [-> _]; contradiction).
      now rewrite app_nil_r.
  - rewrite app_nil_r, lookup_alter.
    case_decide; subst; [| reflexivity].
    destruct (envs st !! e); reflexivity.
Qed.

Lemma added_cons (a : @action node) (rest : list action) e s :
  added (a :: rest) e s = added [a] e s ++ added rest e s.
Proof.
  unfold added. cbn. destruct a; try reflexivity.
  case_decide; reflexivity.
Qed.

Lemma well_formed_cons (a : @action node) (rest : list action) next :
  well_formed next (a :: rest) = true ->
  well_formed next [a] = true /\
  forall st,
    next_env st = next -> well_formed (next_env (step a st)) rest = true.
Proof.
  destruct a; cbn; rewrite ?andb_true_iff.
  - intros W. split; [reflexivity |]. intros st <-. exact W.
  - intros [He W]. split; [now rewrite He |]. intros st <-. exact W.
  - intros [He W]. split; [now rewrite He |]. intros st <-. exact W.
Qed.

Lemma own_entities_run (actions : list action) (st : store) e s :
  dense st -> well_formed (next_env st) actions = true ->
  own_entities (run actions st) e s = own_entities st e s ++ added actions e s.
Proof.
  revert st. induction actions as [| a rest IH]; intros st D W.
  - cbn. now rewrite app_nil_r.
  - apply well_formed_cons in W as [Wa Wrest].
    cbn [run]. rewrite IH; [| apply dense_step, D | apply Wrest; reflexivity].
    rewrite own_entities_step by assumption.
    rewrite (added_cons a rest), app_assoc. reflexivity.
Qed.

(** C7. After any sequence of population actions, a non-recursive lookup
    of [s] in [env] returns the entities that were added directly at [env]
    under [s], in insertion order (an entity added more than once appears
    once, at its first position), whatever was created, added or
    referenced elsewhere, in particular in the parents of [env] and in
    the environments it references. *)
Theorem get_non_recursive_added (actions : list (@action node))
  (e : env_id)
  (s : Symbol) :
  well_formed 1%positive actions = true ->
  get (run actions empty_store) (plain_env e) s false None
    = dedup (added actions e s) /\
  (NoDup (added actions e s) ->
   get (run actions empty_store) (plain_env e) s false None
     = added actions e s).
Proof.
  intros W.
  assert (Hget : get (run actions empty_store) (plain_env e) s false None
                 = dedup (added actions e s)).
  { rewrite get_non_recursive, own_entities_run;
      [reflexivity | apply dense_empty | exact W]. }
  split; [exact Hget |].
  intros Hnd. rewrite Hget. apply dedup_NoDup, Hnd.
Qed.

End Environment_facts.

(** ** Generic instantiations *)

Section Generic_instantiations.

Variable node_env : AdaNode -> lexical_env.
Variable children_env : AdaNode -> lexical_env.
Variable env_elements : lexical_env -> entity -> result (list entity).
Variable st : @Envs.store AdaNode.
Variable declared_after : AdaNode -> AdaNode -> bool.

Local Abbreviation designated_generic_decl :=
  (Ast.designated_generic_decl node_env env_elements).
Local Abbreviation defining_env :=
  (Ast.GenericPackageInstantiation_defining_env node_env children_env
     env_elements).
Local Abbreviation get := (Envs.get declared_after st).

(** A lookup through an environment that carries rebindings finds what is
    stored directly in it, with the rebindings appended to the chain of
    each entity. *)
Lemma get_decorated (e : env_id) (rbs : list Rebinding) (s : Symbol)
  (recursive : bool) (x : entity) :
  apply_rebindings rbs e = e ->
  x ∈ own_entities st e s ->
  decorate rbs x
    ∈ get {| le_env := Some e; le_rebindings := rbs |} s recursive None.
Proof.
  intros He Hx. unfold Envs.get. cbn [le_env le_rebindings].
  apply elem_of_dedup.
  destruct (lookup_depth_pos st) as (n & ->). cbn [Envs.collect].
  rewrite He.
  assert (Hown : decorate rbs x
                 ∈ decorate rbs <$>
                     filter (fun y => visible declared_after None y = true)
                       (own_entities st e s)).
  { apply list_elem_of_fmap_2, list_elem_of_filter. auto. }
  destruct recursive; [| exact Hown].
  destruct (envs st !! e); [| exact Hown].
  apply elem_of_app. left. exact Hown.
Qed.

(** C6. Two instantiations of one generic package, each with its own
    instantiation environment: a declaration of the generic package,
    looked up through the defining environment of each instantiation,
    yields two entities on the same declaration node that are not equal,
    their rebinding chains ending in the rebinding of the formals to the
    one and to the other instantiation environment.  Entities are equal
    exactly when node, metadata and rebinding chain are equal. *)
Theorem instantiations_yield_distinct_entities
  (i1 i2 p d : entity) (h1 h2 : AdaNode) (formals pkg e1 e2 : env_id)
  (s : Symbol) (x : entity) (recursive : bool) :
  designated_generic_decl i1 = Ok (Some p) ->
  designated_generic_decl i2 = Ok (Some p) ->
  decl p = Ok (Some d) ->
  children_env (el p) = plain_env formals ->
  children_env (el d) = plain_env pkg ->
  GenericInstantiation_instantiation_env_holder (el i1) = Some h1 ->
  GenericInstantiation_instantiation_env_holder (el i2) = Some h2 ->
  children_env h1 = plain_env e1 ->
  children_env h2 = plain_env e2 ->
  e1 <> e2 -> pkg <> formals ->
  x ∈ own_entities st pkg s ->
  (exists env1 env2 x1 x2,
     defining_env i1 = Ok env1 /\ defining_env i2 = Ok env2 /\
     x1 ∈ get env1 s recursive None /\ x2 ∈ get env2 s recursive None /\
     el x1 = el x /\ el x2 = el x /\
     rebindings (info x1) = rebindings (info x) ++ [rebind formals e1] /\
     rebindings (info x2) = rebindings (info x) ++ [rebind formals e2] /\
     x1 <> x2) /\
  (forall a b : entity,
     a = b <->
     el a = el b /\ md (info a) = md (info b)
     /\ rebindings (info a) = rebindings (info b)).
Proof.
  intros Hi1 Hi2 Hd Hp Hpkg Hh1 Hh2 He1 He2 Hne Hpf Hx. split.
  - assert (Henv : forall i h e,
              designated_generic_decl i = Ok (Some p) ->
              GenericInstantiation_instantiation_env_holder (el i) = Some h ->
              children_env h = plain_env e ->
              defining_env i
              = Ok {| le_env := Some pkg;
                      le_rebindings := [rebind formals e] |}).
    { intros i h e Hi Hh He.
      unfold Ast.GenericPackageInstantiation_defining_env.
      rewrite Hi. unfold bind_r at 1. cbn [deref].
      unfold bind_r at 1. rewrite Hd. unfold bind_r at 1. cbn [deref].
      unfold bind_r at 1. rewrite Hh. cbn [deref]. unfold bind_r at 1.
      rewrite Hp, Hpkg, He. reflexivity. }
    assert (Hkeep : forall e, apply_rebindings [rebind formals e] pkg = pkg).
    { intros e. cbn. rewrite decide_False by congruence. reflexivity. }
    exists {| le_env := Some pkg; le_rebindings := [rebind formals e1] |},
           {| le_env := Some pkg; le_rebindings := [rebind formals e2] |},
           (decorate [rebind formals e1] x),
           (decorate [rebind formals e2] x).
    repeat split; eauto using get_decorated.
    intros Heq. apply (f_equal (fun y => rebindings (info y))) in Heq.
    cbn in Heq. apply app_inv_head in Heq. unfold rebind in Heq.
    congruence.
  - intros [na [ma ra]] [nb [mb rb]]. cbn. split.
    + intros [= -> -> ->]. auto.
    + intros (-> & -> & ->). reflexivity.
Qed.

End Generic_instantiations.

(** ** The properties on the sample trees *)

(** The declaration [V] of the generic package [G], seen through the two
    instantiations of [G]. *)
Lemma instantiations_yield_distinct_entities_witness :
  exists env1 env2 x1 x2,
    GenericPackageInstantiation_defining_env Generic_example.node_env
      Generic_example.children_env Generic_example.env_elements
      (Examples.bare Generic_example.I1) = Ok env1 /\
    GenericPackageInstantiation_defining_env Generic_example.node_env
      Generic_example.children_env Generic_example.env_elements
      (Examples.bare Generic_example.I2) = Ok env2 /\
    x1 ∈ Envs.get Generic_example.declared_after Generic_example.st
           env1 "v" true None /\
    x2 ∈ Envs.get Generic_example.declared_after Generic_example.st
           env2 "v" true None /\
    el x1 = Generic_example.V_decl /\ el x2 = Generic_example.V_decl /\
    rebindings (info x1) = [rebind 2 4] /\
    rebindings (info x2) = [rebind 2 5] /\
    x1 <> x2.
Proof.
  refine (proj1
    (instantiations_yield_distinct_entities
       Generic_example.node_env Generic_example.children_env
       Generic_example.env_elements Generic_example.st
       Generic_example.declared_after
       (Examples.bare Generic_example.I1) (Examples.bare Generic_example.I2)
       (Examples.bare Generic_example.G_decl)
       (Examples.bare Generic_example.G_internal)
       (Generic_example.holder 311) (Generic_example.holder 321)
       2%positive 3%positive 4%positive 5%positive
       "v" (Examples.bare Generic_example.V_decl) true
       _ _ _ _ _ _ _ _ _ _ _ _));
    try (vm_compute; reflexivity); try discriminate.
  apply list_elem_of_In. vm_compute. auto.
Defined.

(** A lookup of [X] in the inner scope alone finds its two declarations
    there; the recursive lookup also finds the two others. *)
Lemma get_non_recursive_added_witness :
  Envs.get Scopes_example.declared_after
    (run Scopes_example.population empty_store) (plain_env 2) "x" false None
  = [Examples.bare Scopes_example.inner_X1;
     Examples.bare Scopes_example.inner_X2]
  /\ length
       (Envs.get Scopes_example.declared_after
          (run Scopes_example.population empty_store) (plain_env 2) "x"
          true None) = 4%nat.
Proof.
  split; [| vm_compute; reflexivity].
  refine (proj2
    (get_non_recursive_added Scopes_example.declared_after
       Scopes_example.population 2%positive "x" _) _).
  - vm_compute. reflexivity.
  - apply (bool_decide_unpack _). vm_compute. exact I.
Defined.


(** The equation of [1 + 2]: one branch, for the one subprogram found
    under the name of the operator, and the fallback. *)
Lemma BinOp_xref_equation_disjunction_witness :
  Operator_example.xref_equation [] = Ok (Operator_example.built, []) /\
  exists l r branches fallback,
    Operator_example.built
    = And (And l r) (Or (logic_any branches) fallback) /\
    branches
    = [And (And (And (Bind (TypeVar (Parsed 231)) Operator_example.Integer
                        None)
                     (Bind (TypeVar (Parsed 233)) Operator_example.Integer
                        None))
                (Bind (TypeVar (Parsed 230)) Operator_example.Integer None))
           (Bind (RefVar (Parsed 232))
              (Some (Examples.bare Operator_example.plus_decl)) None)] /\
    fallback
    = And (Bind_vars (TypeVar (Parsed 230)) (TypeVar (Parsed 231)) None)
          (Bind_vars (TypeVar (Parsed 230)) (TypeVar (Parsed 233)) None).
Proof.
  assert (Hbuilt : Operator_example.xref_equation []
                   = Ok (Operator_example.built, []))
    by (vm_compute; reflexivity).
  split; [exact Hbuilt |].
  destruct (proj1 (BinOp_xref_equation_disjunction _ _ _ _ _ _ _ _ _ _ _ _ _
                     _ _ _) Hbuilt)
    as (left & op & right & l & s1 & r & branches & fallback & _ & _ & _ & _
        & _ & _ & _ & _ & Heq).
  exists l, r, branches, fallback. split; [exact Heq |].
  vm_compute in Heq. injection Heq as _ _ <- <-. split; reflexivity.
Defined.

(* ===================================================================== *)
(** * Further properties of [ast.py]                                      *)
(* ===================================================================== *)

(** ** Canonical types *)

Lemma canonical_type_dispatch (k : Kind.node_class) :
  implementor [Kind.BaseTypeDecl; Kind.SubtypeDecl] k = Some Kind.SubtypeDecl
  \/ (implementor [Kind.BaseTypeDecl; Kind.SubtypeDecl] k
      = Some Kind.BaseTypeDecl
      /\ Kind.is_a k Kind.BaseTypeDecl = true
      /\ Kind.is_a k Kind.SubtypeDecl = false)
  \/ implementor [Kind.BaseTypeDecl; Kind.SubtypeDecl] k = None.
Proof.
  destruct k; vm_compute;
    first [ left; reflexivity
          | right; left; repeat split; reflexivity
          | right; right; reflexivity ].
Qed.

Section Canonical_types.

Variable node_env : AdaNode -> lexical_env.
Variable designated_type_impl :
  lexical_env -> option AdaNode -> AdaNode -> result (option entity).

Local Abbreviation canonical_type :=
  (Ast.canonical_type node_env designated_type_impl).

(** X3. The canonical type of a type declaration is never a subtype
    declaration, and it is its own canonical type: [canonical_type] is
    idempotent, whatever the chain of subtypes it went through. *)
Theorem canonical_type_idempotent (fuel : nat) (origin : option AdaNode)
  (T c : entity) :
  canonical_type fuel origin T = Ok c ->
  Kind.is_a (kind (el c)) Kind.BaseTypeDecl = true /\
  Kind.is_a (kind (el c)) Kind.SubtypeDecl = false /\
  forall fuel' origin', canonical_type (S fuel') origin' c = Ok c.
Proof.
  revert T. induction fuel as [| fuel IH]; intros T H; [discriminate H |].
  cbn [Ast.canonical_type] in H.
  destruct (canonical_type_dispatch (kind (el T)))
    as [E | [(E & Hbase & Hsub) | E]]; rewrite E in H.
  - apply bind_r_Ok in H as (dt & _ & H).
    apply deref_Ok in H as (dt' & _ & H). exact (IH _ H).
  - injection H as <-. repeat split; try assumption.
    intros fuel' origin'. cbn [Ast.canonical_type]. rewrite E. reflexivity.
  - discriminate H.
Qed.

End Canonical_types.

(** ** Positional calls *)

(** A call whose associations are all of the form [expr], without
    designator. *)
Definition positional_call (l : AdaNode) : bool :=
  forallb (fun c => match c with
                    | Some pa =>
                        Kind.is_a (kind pa) Kind.ParamAssoc
                        && bool_decide (ParamAssoc_designator pa = None)
                    | None => false
                    end) (children l).

(** The matches of positional actuals: the [k]-th actual with the [k]-th
    formal, no match once the formals are exhausted. *)
Fixpoint positional_matches (formals : list SingleFormal)
  (actuals : list SingleActual) : list (option ParamMatch) :=
  match actuals with
  | [] => []
  | a :: actuals' =>
      ((fun sp => new_match sp a) <$> head formals)
      :: positional_matches (tail formals) actuals'
  end.

Lemma ParamAssoc_dispatch (k : Kind.node_class) :
  Kind.is_a k Kind.ParamAssoc = true ->
  implementor [Kind.ParamAssoc; Kind.AggregateAssoc] k = Some Kind.ParamAssoc.
Proof. destruct k; vm_compute; intros; first [reflexivity | discriminate]. Qed.

Lemma unpacked_params_positional (l : AdaNode) :
  positional_call l = true ->
  exists actuals,
    unpacked_params l = Ok actuals /\
    length actuals = length (children l) /\
    Forall (fun a => actual_name a = None) actuals.
Proof.
  unfold positional_call, unpacked_params.
  induction (children l) as [| c cs IH]; cbn [forallb mapcat_r].
  - intros _. exists []. repeat split. constructor.
  - intros H. apply andb_true_iff in H as [Hc Hcs].
    destruct c as [pa |]; [| discriminate].
    apply andb_true_iff in Hc as [Hk Hd]. apply bool_decide_eq_true in Hd.
    destruct (IH Hcs) as (actuals & -> & Hlen & Hall).
    cbn [deref]. unfold names. rewrite (ParamAssoc_dispatch _ Hk), Hd.
    unfold bind_r. cbn.
    eexists. split; [reflexivity |]. split; [cbn; congruence |].
    constructor; [reflexivity | exact Hall].
Qed.

Lemma positional_matches_matched (formals : list SingleFormal)
  (actuals : list SingleActual) :
  forallb pm_has_matched (positional_matches formals actuals)
  = bool_decide (length actuals <= length formals)%nat.
Proof.
  revert formals. induction actuals as [| a actuals IH]; intros formals.
  - cbn. symmetry. apply bool_decide_eq_true. lia.
  - cbn [positional_matches forallb]. rewrite IH.
    destruct formals as [| f formals]; cbn.
    + symmetry. apply bool_decide_eq_false. lia.
    + apply bool_decide_ext. lia.
Qed.

Lemma positional_matches_formals (formals : list SingleFormal)
  (actuals : list SingleActual) :
  (length actuals <= length formals)%nat ->
  matched_formals (positional_matches formals actuals)
  = take (length actuals) formals.
Proof.
  revert formals. induction actuals as [| a actuals IH]; intros formals H.
  - reflexivity.
  - destruct formals as [| f formals]; cbn in H; [lia |].
    cbn [positional_matches head tail fmap option_fmap option_map length take].
    change (matched_formals (Some (new_match f a) :: ?l))
      with (f :: matched_formals l).
    rewrite IH by lia. reflexivity.
Qed.

Lemma head_drop {A} (l : list A) (i : nat) : head (drop i l) = l !! i.
Proof.
  revert l. induction i as [| i IH]; intros [| x l]; cbn; auto.
Qed.

Lemma tail_drop {A} (l : list A) (i : nat) : tail (drop i l) = drop (S i) l.
Proof.
  revert l. induction i as [| i IH]; intros [| x l]; cbn; auto.
Qed.

Section Positional_calls.

Variable parent : AdaNode -> option AdaNode.
Variable node_env : AdaNode -> lexical_env.
Variable designated_type_impl :
  lexical_env -> option AdaNode -> AdaNode -> result (option entity).
Variable defining_names : AdaNode -> result (list (option AdaNode)).

Local Abbreviation unpacked_formal_params :=
  (Ast.unpacked_formal_params parent node_env designated_type_impl
     defining_names).
Local Abbreviation match_param_list :=
  (Ast.match_param_list parent node_env designated_type_impl defining_names).
Local Abbreviation is_matching_param_list :=
  (Ast.is_matching_param_list parent node_env designated_type_impl
     defining_names).
Local Abbreviation nb_min_params :=
  (Ast.nb_min_params parent node_env designated_type_impl defining_names).

Lemma imap_r_positional (formals : list SingleFormal)
  (actuals : list SingleActual) (i : nat) :
  Forall (fun a => actual_name a = None) actuals ->
  imap_r
    (fun i a =>
       match actual_name a with
       | None => Ok ((fun sp => new_match sp a) <$> at_ formals i)
       | Some id =>
           let* sp := find_r
                  (fun p =>
                     deref (formal_name p)
                       (fun nm => Ok (matches nm (Some id))))
                  formals in
           Ok ((fun sp' => new_match sp' a) <$> sp)
       end) (Z.of_nat i) actuals
  = Ok (positional_matches (drop i formals) actuals).
Proof.
  intros H. revert i.
  induction H as [| a actuals Ha _ IH]; intros i; cbn [imap_r].
  - reflexivity.
  - rewrite Ha. unfold bind_r at 1.
    replace (Z.of_nat i + 1) with (Z.of_nat (S i)) by lia.
    rewrite IH. unfold bind_r. cbn [positional_matches].
    rewrite at_of_nat, head_drop, tail_drop. reflexivity.
Qed.

(** The matches of a positional call. *)
Lemma match_param_list_positional (fuel : nat) (self : entity) (l : AdaNode)
  (formals : list SingleFormal) :
  unpacked_formal_params fuel self = Ok formals ->
  positional_call l = true ->
  exists actuals,
    unpacked_params l = Ok actuals /\
    length actuals = length (children l) /\
    match_param_list fuel self (Some l) false
    = Ok (positional_matches formals actuals).
Proof.
  intros Hf Hl.
  destruct (unpacked_params_positional l Hl) as (actuals & Ha & Hlen & Hpos).
  exists actuals. repeat split; try assumption.
  unfold Ast.match_param_list. rewrite Hf. unfold bind_r at 1.
  cbn [deref]. rewrite Ha. unfold bind_r at 1.
  apply (imap_r_positional formals actuals 0 Hpos).
Qed.

Lemma mandatory_count_split (formals : list SingleFormal) (n : nat) :
  length (filter (fun f => mandatory f = true) formals)
  = (length (filter (fun f => mandatory f = true) (take n formals))
     + length (filter (fun f => mandatory f = true) (drop n formals)))%nat.
Proof.
  rewrite <- (take_drop n formals) at 1.
  rewrite filter_app, length_app. reflexivity.
Qed.

Lemma no_mandatory_count (formals : list SingleFormal) :
  forallb (fun f => negb (mandatory f)) formals = true <->
  length (filter (fun f => mandatory f = true) formals) = 0%nat.
Proof.
  induction formals as [| f formals IH]; [cbn; tauto |].
  cbn [forallb]. rewrite andb_true_iff, IH, filter_cons.
  destruct (mandatory f); cbn.
  - rewrite decide_True by reflexivity. cbn. split; [intros [? ?] |];
      discriminate.
  - rewrite decide_False by discriminate. tauto.
Qed.

(** X4. A call with positional arguments only is accepted exactly when it
    has no more arguments than the subprogram has formals and no formal
    after the last one supplied is mandatory. *)
Theorem positional_call_accepted (fuel : nat) (self : entity) (l : AdaNode)
  (formals : list SingleFormal) :
  unpacked_formal_params fuel self = Ok formals ->
  positional_call l = true ->
  is_matching_param_list fuel self (Some l) false
  = Ok (bool_decide (length (children l) <= length formals)%nat
        && forallb (fun f => negb (mandatory f))
             (drop (length (children l)) formals)).
Proof.
  intros Hf Hl.
  destruct (match_param_list_positional fuel self l formals Hf Hl)
    as (actuals & Ha & Hlen & Hml).
  unfold Ast.is_matching_param_list. rewrite Hml. unfold bind_r at 1.
  cbn [deref]. unfold bind_r at 1.
  unfold Ast.nb_max_params. rewrite Hf. unfold bind_r at 1 2.
  unfold length_ at 1 2.
  destruct (decide (length (children l) <= length formals)%nat) as [Hle | Hgt].
  2: { rewrite (proj2 (Z.leb_gt _ _)) by lia. cbn [negb].
       rewrite bool_decide_eq_false_2 by exact Hgt. reflexivity. }
  rewrite (proj2 (Z.leb_le _ _)) by lia. cbn [negb].
  rewrite bool_decide_eq_true_2 by exact Hle. cbn [andb].
  rewrite positional_matches_matched.
  rewrite bool_decide_eq_true_2 by lia. cbn [negb].
  pose proof (unpacked_formals_mandatory_defined _ _ _ _ _ _ _ Hf) as Hdef.
  assert (Hmd : Forall (fun m => exists b, match_is_mandatory m = Ok b)
                  (positional_matches formals actuals)).
  { clear -Hdef Hle Hlen. rewrite <- Hlen in Hle. clear Hlen.
    revert formals Hdef Hle.
    induction actuals as [| a actuals IH]; intros formals Hdef Hle;
      [constructor |].
    destruct formals as [| f formals]; cbn in Hle; [lia |].
    inversion Hdef as [| ? ? Hf' Hrest]; subst.
    constructor; [exact Hf' | apply IH; [exact Hrest | cbn; lia]]. }
  destruct (filter_r_total _ _ Hmd) as (r & Hr). rewrite Hr.
  unfold bind_r at 1.
  apply filter_r_Ok in Hr as [_ ->].
  assert (Hmin : nb_min_params fuel self
                 = Ok (length_ (filter (fun f => mandatory f = true)
                                  formals))).
  { unfold Ast.nb_min_params. rewrite Hf. unfold bind_r at 1.
    destruct (filter_r_total _ _ Hdef) as (r' & Hr'). rewrite Hr'.
    unfold bind_r. apply filter_r_Ok in Hr' as [_ ->]. reflexivity. }
  rewrite Hmin. unfold bind_r at 1.
  f_equal. unfold length_.
  rewrite count_mandatory_matches
    by (rewrite positional_matches_matched; apply bool_decide_eq_true; lia).
  rewrite positional_matches_formals by lia. rewrite Hlen.
  rewrite (mandatory_count_split formals (length (children l))).
  destruct (forallb (fun f => negb (mandatory f))
              (drop (length (children l)) formals)) eqn:E.
  - apply no_mandatory_count in E. rewrite E. apply Z.eqb_eq. lia.
  - apply Z.eqb_neq. intros Heq.
    assert (E' : length (filter (fun f => mandatory f = true)
                           (drop (length (children l)) formals)) = 0%nat)
      by lia.
    apply no_mandatory_count in E'. congruence.
Qed.

End Positional_calls.

(** ** Subprograms that can be called without arguments *)

Section Parameterless.

Variable parent : AdaNode -> option AdaNode.
Variable node_env : AdaNode -> lexical_env.
Variable designated_type_impl :
  lexical_env -> option AdaNode -> AdaNode -> result (option entity).
Variable defining_names : AdaNode -> result (list (option AdaNode)).

Local Abbreviation unpacked_formal_params :=
  (Ast.unpacked_formal_params parent node_env designated_type_impl
     defining_names).
Local Abbreviation is_matching_param_list :=
  (Ast.is_matching_param_list parent node_env designated_type_impl
     defining_names).
Local Abbreviation nb_min_params :=
  (Ast.nb_min_params parent node_env designated_type_impl defining_names).
Local Abbreviation paramless :=
  (Ast.paramless parent node_env designated_type_impl defining_names).

Lemma nb_min_params_count (fuel : nat) (self : entity)
  (formals : list SingleFormal) :
  unpacked_formal_params fuel self = Ok formals ->
  nb_min_params fuel self
  = Ok (length_ (filter (fun f => mandatory f = true) formals)).
Proof.
  intros Hf.
  pose proof (unpacked_formals_mandatory_defined _ _ _ _ _ _ _ Hf) as Hdef.
  unfold Ast.nb_min_params. rewrite Hf. unfold bind_r at 1.
  destruct (filter_r_total _ _ Hdef) as (r & Hr). rewrite Hr.
  unfold bind_r. apply filter_r_Ok in Hr as [_ ->]. reflexivity.
Qed.

(** X5. For an entity that is not reached through dot notation,
    [paramless] is the acceptance of the empty argument list by
    [is_matching_param_list]: the two properties return the same value, or
    fail in the same way. *)
Theorem paramless_is_empty_call (fuel : nat) (self : entity) (l : AdaNode)
  (md : Metadata) :
  children l = [] ->
  dottable_subp md = false ->
  is_matching_param_list fuel self (Some l) false = paramless fuel self md.
Proof.
  intros Hl Hmd.
  unfold Ast.is_matching_param_list, Ast.paramless, Ast.match_param_list,
    Ast.nb_max_params.
  destruct (unpacked_formal_params fuel self) as [formals | |] eqn:Hf.
  - rewrite (nb_min_params_count _ _ _ Hf).
    cbn [deref]. unfold unpacked_params. rewrite Hl, Hmd.
    unfold bind_r. cbn.
    change (length_ (@nil (option AdaNode))) with 0.
    change (length_ (@nil (option ParamMatch))) with 0.
    rewrite (proj2 (Z.leb_le 0 (length_ formals))) by (unfold length_; lia).
    cbn. f_equal; apply Z.eqb_sym.
  - unfold Ast.nb_min_params. rewrite Hf. reflexivity.
  - unfold Ast.nb_min_params. rewrite Hf. reflexivity.
Qed.

End Parameterless.

(** ** Abstract properties and their implementations *)

Lemma BasicSubpDecl_covered (k : Kind.node_class) :
  Kind.is_a k Kind.BasicSubpDecl = true -> k <> Kind.BasicSubpDecl ->
  implementor [Kind.ClassicSubpDecl; Kind.GenericSubpInternal] k
  = Some Kind.ClassicSubpDecl
  \/ implementor [Kind.ClassicSubpDecl; Kind.GenericSubpInternal] k
     = Some Kind.GenericSubpInternal.
Proof.
  destruct k; vm_compute; intros;
    first [left; reflexivity | right; reflexivity | discriminate | congruence].
Qed.

Lemma BaseSubpSpec_covered (k : Kind.node_class) :
  Kind.is_a k Kind.BaseSubpSpec = true -> k <> Kind.BaseSubpSpec ->
  implementor [Kind.SubpSpec] k = Some Kind.SubpSpec.
Proof.
  destruct k; vm_compute; intros;
    first [reflexivity | discriminate | congruence].
Qed.

Lemma GenericDecl_covered (k : Kind.node_class) :
  Kind.is_a k Kind.GenericDecl = true -> k <> Kind.GenericDecl ->
  implementor [Kind.GenericPackageDecl; Kind.GenericSubpDecl] k
  = Some Kind.GenericPackageDecl
  \/ implementor [Kind.GenericPackageDecl; Kind.GenericSubpDecl] k
     = Some Kind.GenericSubpDecl.
Proof.
  destruct k; vm_compute; intros;
    first [left; reflexivity | right; reflexivity | discriminate | congruence].
Qed.

Lemma GenericInstantiation_covered (k : Kind.node_class) :
  Kind.is_a k Kind.GenericInstantiation = true ->
  k <> Kind.GenericInstantiation ->
  implementor
    [Kind.GenericPackageInstantiation; Kind.GenericSubpInstantiation] k
  = Some Kind.GenericPackageInstantiation
  \/ implementor
       [Kind.GenericPackageInstantiation; Kind.GenericSubpInstantiation] k
     = Some Kind.GenericSubpInstantiation.
Proof.
  destruct k; vm_compute; intros;
    first [left; reflexivity | right; reflexivity | discriminate | congruence].
Qed.

Lemma BasicAssoc_covered (k : Kind.node_class) :
  Kind.is_a k Kind.BasicAssoc = true -> k <> Kind.BasicAssoc ->
  implementor [Kind.ParamAssoc; Kind.AggregateAssoc] k = Some Kind.ParamAssoc
  \/ implementor [Kind.ParamAssoc; Kind.AggregateAssoc] k
     = Some Kind.AggregateAssoc.
Proof.
  destruct k; vm_compute; intros;
    first [left; reflexivity | right; reflexivity | discriminate | congruence].
Qed.

Section Implementations.

Variable node_env : AdaNode -> lexical_env.
Variable st : @Envs.store AdaNode.
Variable declared_after : AdaNode -> AdaNode -> bool.

Local Abbreviation subprograms := (Ast.subprograms node_env st declared_after).

(** X6. The abstract properties [subp_decl_spec], [returns], [decl],
    [generic_entity_name] and [BasicAssoc.expr] are implemented on every
    class that derives from the abstract class declaring them: a call on
    an instance never reaches a class without an implementation.  In
    particular every overload that [Op.subprograms] returns has a
    subprogram specification property. *)
Theorem abstract_properties_implemented :
  (forall e : entity,
     Kind.is_a (kind (el e)) Kind.BasicSubpDecl = true ->
     kind (el e) <> Kind.BasicSubpDecl ->
     exists spec, subp_decl_spec e = Ok spec) /\
  (forall e : entity,
     Kind.is_a (kind (el e)) Kind.BaseSubpSpec = true ->
     kind (el e) <> Kind.BaseSubpSpec ->
     returns e = Ok (as_entity (info e) (SubpSpec_subp_returns (el e)))) /\
  (forall e : entity,
     Kind.is_a (kind (el e)) Kind.GenericDecl = true ->
     kind (el e) <> Kind.GenericDecl ->
     exists d, decl e = Ok d) /\
  (forall e : entity,
     Kind.is_a (kind (el e)) Kind.GenericInstantiation = true ->
     kind (el e) <> Kind.GenericInstantiation ->
     exists name, generic_entity_name e = Ok name) /\
  (forall pa : AdaNode,
     Kind.is_a (kind pa) Kind.BasicAssoc = true ->
     kind pa <> Kind.BasicAssoc ->
     assoc_expr pa = Ok (field 1 pa)) /\
  (forall (op : AdaNode) (e : entity),
     e ∈ subprograms op -> kind (el e) <> Kind.BasicSubpDecl ->
     exists spec, subp_decl_spec e = Ok spec).
Proof.
  assert (Hspec : forall e : entity,
            Kind.is_a (kind (el e)) Kind.BasicSubpDecl = true ->
            kind (el e) <> Kind.BasicSubpDecl ->
            exists spec, subp_decl_spec e = Ok spec).
  { intros e He Hne. unfold subp_decl_spec.
    destruct (BasicSubpDecl_covered _ He Hne) as [-> | ->]; eauto. }
  repeat split.
  - exact Hspec.
  - intros e He Hne. unfold returns. rewrite (BaseSubpSpec_covered _ He Hne).
    reflexivity.
  - intros e He Hne. unfold decl.
    destruct (GenericDecl_covered _ He Hne) as [-> | ->]; eauto.
  - intros e He Hne. unfold generic_entity_name.
    destruct (GenericInstantiation_covered _ He Hne) as [-> | ->]; eauto.
  - intros pa Hpa Hne. unfold assoc_expr.
    destruct (BasicAssoc_covered _ Hpa Hne) as [-> | ->]; reflexivity.
  - intros op e He. apply Hspec.
    unfold Ast.subprograms in He. apply list_elem_of_filter in He as [He _].
    exact He.
Qed.

End Implementations.

(** ** Class-wide types *)

Lemma classwide_type_dispatch (k : Kind.node_class) :
  implementor [Kind.BaseTypeDecl; Kind.ClasswideTypeDecl] k
  = Some Kind.ClasswideTypeDecl
  \/ implementor [Kind.BaseTypeDecl; Kind.ClasswideTypeDecl] k
     = Some Kind.BaseTypeDecl
  \/ implementor [Kind.BaseTypeDecl; Kind.ClasswideTypeDecl] k = None.
Proof.
  destruct k; vm_compute;
    first [ left; reflexivity | right; left; reflexivity
          | right; right; reflexivity ].
Qed.

Section Classwide_types.

Variable parent : AdaNode -> option AdaNode.
Variable node_env : AdaNode -> lexical_env.
Variable designated_type_impl :
  lexical_env -> option AdaNode -> AdaNode -> result (option entity).

Local Abbreviation is_derived_type :=
  (Ast.is_derived_type parent node_env designated_type_impl).
Local Abbreviation base_type :=
  (Ast.base_type parent node_env designated_type_impl).

Lemma classwide_type_fixed (T cw : entity) :
  classwide_type T = Ok (Some cw) -> classwide_type cw = Ok (Some cw).
Proof.
  unfold classwide_type at 1.
  destruct (classwide_type_dispatch (kind (el T))) as [E | [E | E]];
    rewrite E.
  - intros [= <-]. unfold classwide_type. rewrite E. reflexivity.
  - intros H. apply bind_r_Ok in H as (n & Hn & [= H]).
    unfold classwide_type_node in Hn.
    apply bind_r_Ok in Hn as ([|] & _ & [= <-]); [| discriminate H].
    cbn in H. injection H as <-. reflexivity.
  - discriminate.
Qed.

(** X7. The class-wide type of a type is its own class-wide type, and a
    type and its class-wide type are each derived from the other. *)
Theorem classwide_type_derivation (fuel : nat) (T cw : entity) :
  classwide_type T = Ok (Some cw) ->
  classwide_type cw = Ok (Some cw) /\
  is_derived_type (S fuel) T (Some cw) = Ok true /\
  is_derived_type (S fuel) cw (Some T) = Ok true.
Proof.
  intros H. pose proof (classwide_type_fixed T cw H) as Hcw.
  repeat split; [exact Hcw | |]; cbn [Ast.is_derived_type deref];
    case_bool_decide; try reflexivity.
  - rewrite H, Hcw. unfold bind_r.
    rewrite bool_decide_eq_true_2 by reflexivity. reflexivity.
  - rewrite Hcw, H. unfold bind_r.
    rewrite bool_decide_eq_true_2 by reflexivity. reflexivity.
Qed.

(** Derivation goes through base types: a type whose base type is derived
    from [U] is derived from [U]. *)
Lemma is_derived_type_step (fuel : nat) (T B : entity) (U : option entity)
  (cw : option entity) :
  classwide_type T = Ok cw ->
  (cw <> None -> exists cwU, deref U classwide_type = Ok cwU) ->
  base_type fuel T = Ok (Some B) ->
  is_derived_type fuel B U = Ok true ->
  is_derived_type (S fuel) T U = Ok true.
Proof.
  intros Hcw HU Hbase HB. cbn [Ast.is_derived_type].
  case_bool_decide; [reflexivity |].
  rewrite Hcw. unfold bind_r at 1.
  destruct cw as [c |].
  - destruct HU as (cwU & ->); [discriminate |]. unfold bind_r at 1 2.
    case_bool_decide; [reflexivity |].
    rewrite Hbase. unfold bind_r. exact HB.
  - unfold bind_r at 1. rewrite Hbase. unfold bind_r. exact HB.
Qed.

(** X8. A type whose base type is [B] is derived from the class-wide type
    of [B]: what is declared for [B'Class] applies to the types derived
    from [B]. *)
Theorem derived_from_classwide_of_base (fuel : nat) (T B cwT cwB : entity) :
  classwide_type T = Ok (Some cwT) ->
  base_type (S fuel) T = Ok (Some B) ->
  classwide_type B = Ok (Some cwB) ->
  is_derived_type (S (S fuel)) T (Some cwB) = Ok true.
Proof.
  intros HT Hbase HB.
  apply (is_derived_type_step (S fuel) T B (Some cwB) (Some cwT)).
  - exact HT.
  - intros _. exists (Some cwB). cbn [deref].
    apply (classwide_type_fixed B cwB HB).
  - exact Hbase.
  - cbn [Ast.is_derived_type deref]. case_bool_decide; [reflexivity |].
    rewrite HB, (classwide_type_fixed B cwB HB). unfold bind_r.
    rewrite bool_decide_eq_true_2 by reflexivity. reflexivity.
Qed.

End Classwide_types.

(** ** Kinds of types *)

(** [arr.any(p)]: stops at the first element that satisfies [p]. *)
Fixpoint any_r {A} (p : A -> result bool) (l : list A) : result bool :=
  match l with
  | [] => Ok false
  | a :: l' => let* ok := p a in if ok : bool then Ok true else any_r p l'
  end.

Definition EnumTypeDecl_enum_literals := field 1.
Definition EnumLiteralDecl_enum_identifier := field 0.

Section Type_kinds.

Variable node_env : AdaNode -> lexical_env.
Variable designated_type_impl :
  lexical_env -> option AdaNode -> AdaNode -> result (option entity).

Local Abbreviation canonical_type :=
  (Ast.canonical_type node_env designated_type_impl).
Local Abbreviation DerivedTypeDef_base_type :=
  (Ast.DerivedTypeDef_base_type node_env designated_type_impl).

(** [is_real_type] of type declarations ([BaseTypeDecl], overridden by
    [TypeDecl]) and of type definitions ([TypeDef], overridden by
    [RealTypeDef] and [DerivedTypeDef]). *)
Fixpoint is_real_type (fuel : nat) (self : entity) : result bool :=
  match fuel with
  | O => OutOfFuel
  | S fuel' =>
      match implementor
              [Kind.BaseTypeDecl; Kind.TypeDecl; Kind.TypeDef;
               Kind.RealTypeDef; Kind.DerivedTypeDef] (kind (el self)) with
      | Some Kind.TypeDecl =>
          deref (as_entity (info self) (TypeDecl_type_def (el self)))
            (is_real_type fuel')
      | Some Kind.RealTypeDef => Ok true
      | Some Kind.DerivedTypeDef =>
          let* bt := DerivedTypeDef_base_type self in
          deref bt (is_real_type fuel')
      | Some _ => Ok false
      | None => PropertyError
      end
  end.

(** [is_int_type], overridden by [TypeDecl], [SubtypeDecl],
    [SignedIntTypeDef], [ModIntTypeDef] and [DerivedTypeDef]. *)
Fixpoint is_int_type (fuel : nat) (origin : option AdaNode) (self : entity)
  : result bool :=
  match fuel with
  | O => OutOfFuel
  | S fuel' =>
      match implementor
              [Kind.BaseTypeDecl; Kind.TypeDecl; Kind.SubtypeDecl;
               Kind.TypeDef; Kind.SignedIntTypeDef; Kind.ModIntTypeDef;
               Kind.DerivedTypeDef] (kind (el self)) with
      | Some Kind.TypeDecl =>
          deref (as_entity (info self) (TypeDecl_type_def (el self)))
            (is_int_type fuel' origin)
      | Some Kind.SubtypeDecl =>
          let* c := canonical_type fuel' origin self in
          is_int_type fuel' origin c
      | Some Kind.SignedIntTypeDef | Some Kind.ModIntTypeDef => Ok true
      | Some Kind.DerivedTypeDef =>
          let* bt := DerivedTypeDef_base_type self in
          deref bt (is_int_type fuel' origin)
      | Some _ => Ok false
      | None => PropertyError
      end
  end.

(** [is_access_type], overridden by [TypeDecl], [AccessDef] and
    [DerivedTypeDef]. *)
Fixpoint is_access_type (fuel : nat) (self : entity) : result bool :=
  match fuel with
  | O => OutOfFuel
  | S fuel' =>
      match implementor
              [Kind.BaseTypeDecl; Kind.TypeDecl; Kind.TypeDef;
               Kind.AccessDef; Kind.DerivedTypeDef] (kind (el self)) with
      | Some Kind.TypeDecl =>
          deref (as_entity (info self) (TypeDecl_type_def (el self)))
            (is_access_type fuel')
      | Some Kind.AccessDef => Ok true
      | Some Kind.DerivedTypeDef =>
          let* bt := DerivedTypeDef_base_type self in
          deref bt (is_access_type fuel')
      | Some _ => Ok false
      | None => PropertyError
      end
  end.

(** [is_char_type], overridden by [TypeDecl], [EnumTypeDecl] (an
    enumeration with a character literal) and [DerivedTypeDef]. *)
Fixpoint is_char_type (fuel : nat) (self : entity) : result bool :=
  match fuel with
  | O => OutOfFuel
  | S fuel' =>
      match implementor
              [Kind.BaseTypeDecl; Kind.TypeDecl; Kind.EnumTypeDecl;
               Kind.TypeDef; Kind.DerivedTypeDef] (kind (el self)) with
      | Some Kind.TypeDecl =>
          deref (as_entity (info self) (TypeDecl_type_def (el self)))
            (is_char_type fuel')
      | Some Kind.EnumTypeDecl =>
          let* lits := elements (EnumTypeDecl_enum_literals (el self)) in
          any_r (fun lit =>
                   deref lit (fun lit' =>
                     Ok (is_a Kind.CharLiteral
                           (EnumLiteralDecl_enum_identifier lit'))))
            lits
      | Some Kind.DerivedTypeDef =>
          let* bt := DerivedTypeDef_base_type self in
          deref bt (is_char_type fuel')
      | Some _ => Ok false
      | None => PropertyError
      end
  end.

End Type_kinds.

(** The classes on which the four properties are declared or overridden,
    and the implementations a node class can reach. *)
Definition kind_profile (k : Kind.node_class)
  : option Kind.node_class * option Kind.node_class
    * option Kind.node_class * option Kind.node_class :=
  (implementor
     [Kind.BaseTypeDecl; Kind.TypeDecl; Kind.TypeDef; Kind.RealTypeDef;
      Kind.DerivedTypeDef] k,
   implementor
     [Kind.BaseTypeDecl; Kind.TypeDecl; Kind.SubtypeDecl; Kind.TypeDef;
      Kind.SignedIntTypeDef; Kind.ModIntTypeDef; Kind.DerivedTypeDef] k,
   implementor
     [Kind.BaseTypeDecl; Kind.TypeDecl; Kind.TypeDef; Kind.AccessDef;
      Kind.DerivedTypeDef] k,
   implementor
     [Kind.BaseTypeDecl; Kind.TypeDecl; Kind.EnumTypeDecl; Kind.TypeDef;
      Kind.DerivedTypeDef] k).

Definition kind_profiles
  : list (option Kind.node_class * option Kind.node_class
          * option Kind.node_class * option Kind.node_class) :=
  [(None, None, None, None);
   (Some Kind.TypeDef, Some Kind.TypeDef, Some Kind.TypeDef,
    Some Kind.TypeDef);
   (Some Kind.RealTypeDef, Some Kind.TypeDef, Some Kind.TypeDef,
    Some Kind.TypeDef);
   (Some Kind.TypeDef, Some Kind.SignedIntTypeDef, Some Kind.TypeDef,
    Some Kind.TypeDef);
   (Some Kind.TypeDef, Some Kind.ModIntTypeDef, Some Kind.TypeDef,
    Some Kind.TypeDef);
   (Some Kind.TypeDef, Some Kind.TypeDef, Some Kind.AccessDef,
    Some Kind.TypeDef);
   (Some Kind.DerivedTypeDef, Some Kind.DerivedTypeDef,
    Some Kind.DerivedTypeDef, Some Kind.DerivedTypeDef);
   (Some Kind.BaseTypeDecl, Some Kind.BaseTypeDecl, Some Kind.BaseTypeDecl,
    Some Kind.BaseTypeDecl);
   (Some Kind.BaseTypeDecl, Some Kind.SubtypeDecl, Some Kind.BaseTypeDecl,
    Some Kind.BaseTypeDecl);
   (Some Kind.BaseTypeDecl, Some Kind.BaseTypeDecl, Some Kind.BaseTypeDecl,
    Some Kind.EnumTypeDecl);
   (Some Kind.TypeDecl, Some Kind.TypeDecl, Some Kind.TypeDecl,
    Some Kind.TypeDecl)].

Lemma kind_profile_cases (k : Kind.node_class) :
  kind_profile k ∈ kind_profiles.
Proof. destruct k; apply (bool_decide_unpack _); vm_compute; exact I. Qed.

Section Type_kinds_exclusive.

Variable node_env : AdaNode -> lexical_env.
Variable designated_type_impl :
  lexical_env -> option AdaNode -> AdaNode -> result (option entity).

Local Abbreviation real := (is_real_type node_env designated_type_impl).
Local Abbreviation int := (is_int_type node_env designated_type_impl).
Local Abbreviation access := (is_access_type node_env designated_type_impl).
Local Abbreviation char := (is_char_type node_env designated_type_impl).

(** The profile of the class of [T], as four equations. *)
Local Ltac profile T Hp Hq :=
  let H := fresh "H" in
  let E1 := fresh "Ereal" in
  let E2 := fresh "Eint" in
  let E3 := fresh "Eaccess" in
  let E4 := fresh "Echar" in
  pose proof (kind_profile_cases (kind (el T))) as H;
  unfold kind_profile, kind_profiles in H;
  repeat (apply elem_of_cons in H as [H | H]);
  [injection H as E1 E2 E3 E4;
   try rewrite E1 in Hp; try rewrite E2 in Hp;
   try rewrite E3 in Hp; try rewrite E4 in Hp;
   try rewrite E1 in Hq; try rewrite E2 in Hq;
   try rewrite E3 in Hq; try rewrite E4 in Hq .. | inversion H].

(** Two of the properties on one type: either one of them is decided on
    the class of the type, or both go to the type definition, or both go
    to the base type. *)
Local Ltac exclusive Hp Hq IH :=
  first
    [ discriminate Hp
    | discriminate Hq
    | let x := fresh "x" in
      let Ex := fresh "Ex" in
      let Ey := fresh "Ey" in
      apply deref_Ok in Hp as (x & Ex & Hp);
      apply deref_Ok in Hq as (? & Ey & Hq);
      rewrite Ex in Ey; injection Ey as <-; eapply IH; eassumption
    | let bt := fresh "bt" in
      let Ex := fresh "Ex" in
      let Ey := fresh "Ey" in
      apply bind_r_Ok in Hp as (bt & Ex & Hp);
      apply bind_r_Ok in Hq as (? & Ey & Hq);
      rewrite Ex in Ey; injection Ey as <-;
      apply deref_Ok in Hp as (? & -> & Hp);
      apply deref_Ok in Hq as (? & [= <-] & Hq);
      eapply IH; eassumption ].

Lemma real_int_exclusive (f1 : nat) :
  forall (f2 : nat) (T : entity) (origin : option AdaNode),
    real f1 T = Ok true -> int f2 origin T = Ok true -> False.
Proof.
  induction f1 as [| f1 IH]; intros [| f2] T origin Hp Hq;
    try discriminate Hp; try discriminate Hq.
  cbn [is_real_type is_int_type] in Hp, Hq.
  profile T Hp Hq; exclusive Hp Hq IH.
Qed.

Lemma real_access_exclusive (f1 : nat) :
  forall (f2 : nat) (T : entity),
    real f1 T = Ok true -> access f2 T = Ok true -> False.
Proof.
  induction f1 as [| f1 IH]; intros [| f2] T Hp Hq;
    try discriminate Hp; try discriminate Hq.
  cbn [is_real_type is_access_type] in Hp, Hq.
  profile T Hp Hq; exclusive Hp Hq IH.
Qed.

Lemma real_char_exclusive (f1 : nat) :
  forall (f2 : nat) (T : entity),
    real f1 T = Ok true -> char f2 T = Ok true -> False.
Proof.
  induction f1 as [| f1 IH]; intros [| f2] T Hp Hq;
    try discriminate Hp; try discriminate Hq.
  cbn [is_real_type is_char_type] in Hp, Hq.
  profile T Hp Hq; exclusive Hp Hq IH.
Qed.

Lemma access_int_exclusive (f1 : nat) :
  forall (f2 : nat) (T : entity) (origin : option AdaNode),
    access f1 T = Ok true -> int f2 origin T = Ok true -> False.
Proof.
  induction f1 as [| f1 IH]; intros [| f2] T origin Hp Hq;
    try discriminate Hp; try discriminate Hq.
  cbn [is_access_type is_int_type] in Hp, Hq.
  profile T Hp Hq; exclusive Hp Hq IH.
Qed.

Lemma char_int_exclusive (f1 : nat) :
  forall (f2 : nat) (T : entity) (origin : option AdaNode),
    char f1 T = Ok true -> int f2 origin T = Ok true -> False.
Proof.
  induction f1 as [| f1 IH]; intros [| f2] T origin Hp Hq;
    try discriminate Hp; try discriminate Hq.
  cbn [is_char_type is_int_type] in Hp, Hq.
  profile T Hp Hq; exclusive Hp Hq IH.
Qed.

Lemma access_char_exclusive (f1 : nat) :
  forall (f2 : nat) (T : entity),
    access f1 T = Ok true -> char f2 T = Ok true -> False.
Proof.
  induction f1 as [| f1 IH]; intros [| f2] T Hp Hq;
    try discriminate Hp; try discriminate Hq.
  cbn [is_access_type is_char_type] in Hp, Hq.
  profile T Hp Hq; exclusive Hp Hq IH.
Qed.

Lemma holds_true (r : result bool) : holds r = true -> r = Ok true.
Proof. destruct r as [[] | |]; cbn; congruence. Qed.

(** X9. A type is of one kind at most: of the four properties
    [is_real_type], [is_int_type], [is_access_type] and [is_char_type], no
    two are true of the same type declaration or type definition,
    whatever the chain of derived types and subtypes they follow. *)
Theorem type_kinds_exclusive (f1 f2 f3 f4 : nat) (origin : option AdaNode)
  (T : entity) :
  (length (filter (fun r => holds r = true)
             [real f1 T; int f2 origin T; access f3 T; char f4 T]) <= 1)%nat.
Proof.
  pose proof (real_int_exclusive f1 f2 T origin) as RI.
  pose proof (real_access_exclusive f1 f3 T) as RA.
  pose proof (real_char_exclusive f1 f4 T) as RC.
  pose proof (access_int_exclusive f3 f2 T origin) as AI.
  pose proof (char_int_exclusive f4 f2 T origin) as CI.
  pose proof (access_char_exclusive f3 f4 T) as AC.
  destruct (holds (real f1 T)) eqn:Er, (holds (int f2 origin T)) eqn:Ei,
    (holds (access f3 T)) eqn:Ea, (holds (char f4 T)) eqn:Ec;
    repeat match goal with
           | H : holds _ = true |- _ => apply holds_true in H
           end;
    try (exfalso; eauto; fail);
    rewrite !filter_cons, ?filter_nil;
    repeat match goal with
           | H : ?r = Ok true |- _ => rewrite H
           end;
    repeat case_decide; cbn; try lia; congruence.
Qed.

End Type_kinds_exclusive.

(** ** Matching of types *)

(** [BaseTypeDecl.is_classwide], overridden by [ClasswideTypeDecl]. *)
Definition is_classwide (self : entity) : result bool :=
  match implementor [Kind.BaseTypeDecl; Kind.ClasswideTypeDecl]
          (kind (el self)) with
  | Some Kind.ClasswideTypeDecl => Ok true
  | Some _ => Ok false
  | None => PropertyError
  end.

Lemma ClasswideTypeDecl_not_anonymous (k : Kind.node_class) :
  implementor [Kind.BaseTypeDecl; Kind.ClasswideTypeDecl] k
  = Some Kind.ClasswideTypeDecl ->
  Kind.is_a k Kind.AnonymousTypeDecl = false.
Proof. destruct k; vm_compute; intros; first [reflexivity | discriminate]. Qed.

Section Type_matching.

Variable parent : AdaNode -> option AdaNode.
Variable node_env : AdaNode -> lexical_env.
Variable designated_type_impl :
  lexical_env -> option AdaNode -> AdaNode -> result (option entity).

(** [AnonymousTypeDecl.access_def_matches], under the dynamic variable
    [origin]. *)
Variable access_def_matches :
  option AdaNode -> entity -> entity -> result bool.

Local Abbreviation is_derived_type :=
  (Ast.is_derived_type parent node_env designated_type_impl).

(** [BaseTypeDecl.matching_access_type]: whether [self] is a matching
    access type for [expected_type]. *)
Definition matching_access_type (origin : option AdaNode) (self : entity)
  (expected_type : option entity) : result bool :=
  deref expected_type (fun e =>
    if Kind.is_a (kind (el e)) Kind.AnonymousTypeDecl then
      access_def_matches origin e self
    else Ok false).

(** [BaseTypeDecl.matching_type]. *)
Definition matching_type (origin : option AdaNode) (self : entity)
  (expected_type : option entity) : result bool :=
  if bool_decide (Some self = expected_type) then Ok true
  else matching_access_type origin self expected_type.

(** [BaseTypeDecl.matching_assign_type]. *)
Definition matching_assign_type (fuel : nat) (origin : option AdaNode)
  (self : entity) (expected_type : option entity) : result bool :=
  let* m := matching_type origin self expected_type in
  if m : bool then Ok true
  else
    let* cw := deref expected_type is_classwide in
    if cw : bool then is_derived_type fuel self expected_type else Ok false.

(** [BaseTypeDecl.matching_formal_type]. *)
Definition matching_formal_type (fuel : nat) (origin : option AdaNode)
  (self : entity) (formal_type : option entity) : result bool :=
  let* formal_cw := deref formal_type is_classwide in
  let* derived :=
    if formal_cw : bool then is_derived_type fuel self formal_type
    else Ok false in
  if derived : bool then Ok true
  else
    let* actual_cw := is_classwide self in
    let* derived' :=
      if actual_cw : bool then is_derived_type fuel self formal_type
      else Ok false in
    if derived' : bool then Ok true
    else if bool_decide (Some self = formal_type) then Ok true
    else matching_access_type origin self formal_type.

Lemma classwide_type_is_classwide (B cw : entity) :
  classwide_type B = Ok (Some cw) ->
  implementor [Kind.BaseTypeDecl; Kind.ClasswideTypeDecl] (kind (el cw))
  = Some Kind.ClasswideTypeDecl.
Proof.
  unfold classwide_type.
  destruct (classwide_type_dispatch (kind (el B))) as [E | [E | E]];
    rewrite E.
  - intros [= <-]. exact E.
  - intros H. apply bind_r_Ok in H as (n & Hn & [= H]).
    unfold classwide_type_node in Hn.
    apply bind_r_Ok in Hn as ([|] & _ & [= <-]); [| discriminate H].
    cbn in H. injection H as <-. reflexivity.
  - discriminate.
Qed.

(** X10. Where a class-wide type is expected, every type derived from it
    is accepted: a type derived from [B'Class] matches a formal of type
    [B'Class], and can be assigned to a destination of type [B'Class]. *)
Theorem classwide_accepts_derived (fuel : nat) (origin : option AdaNode)
  (T B cw : entity) :
  classwide_type B = Ok (Some cw) ->
  is_derived_type fuel T (Some cw) = Ok true ->
  matching_formal_type fuel origin T (Some cw) = Ok true /\
  matching_assign_type fuel origin T (Some cw) = Ok true.
Proof.
  intros Hcw Hd.
  pose proof (classwide_type_is_classwide B cw Hcw) as Hk.
  pose proof (ClasswideTypeDecl_not_anonymous _ Hk) as Hanon.
  split.
  - unfold matching_formal_type. cbn [deref]. unfold is_classwide at 1.
    rewrite Hk. unfold bind_r at 1. rewrite Hd. reflexivity.
  - unfold matching_assign_type, matching_type, matching_access_type.
    cbn [deref]. rewrite Hanon.
    case_bool_decide; unfold bind_r at 1; [reflexivity |].
    unfold is_classwide. rewrite Hk. unfold bind_r. exact Hd.
Qed.

(** X11. Where a specific type is expected, derivation does not count:
    between two types that are not class-wide, the expected one not being
    an anonymous type either, a formal is matched and an assignment is
    accepted exactly when the two types are the same. *)
Theorem specific_types_match_themselves (fuel : nat)
  (origin : option AdaNode) (T E : entity) :
  is_classwide T = Ok false ->
  is_classwide E = Ok false ->
  Kind.is_a (kind (el E)) Kind.AnonymousTypeDecl = false ->
  matching_formal_type fuel origin T (Some E) = Ok (bool_decide (T = E)) /\
  matching_assign_type fuel origin T (Some E) = Ok (bool_decide (T = E)) /\
  matching_type origin T (Some E) = Ok (bool_decide (T = E)).
Proof.
  intros HT HE Hanon.
  unfold matching_formal_type, matching_assign_type, matching_type,
    matching_access_type.
  cbn [deref]. rewrite HT, HE, Hanon. unfold bind_r.
  destruct (decide (T = E)) as [-> | Hne].
  - rewrite !bool_decide_eq_true_2 by reflexivity. auto.
  - rewrite !(bool_decide_eq_false_2 (Some T = Some E)) by congruence.
    rewrite bool_decide_eq_false_2 by exact Hne. auto.
Qed.

End Type_matching.

(** ** Nested call expressions *)

Definition CallExpr_name := field 0.
Definition CallExpr_suffix := field 1.

(** [CallExpr.innermost_callexpr]: the innermost call expression
    following the name chain; in [A (B) (C) (D)] it is [A (B)]. *)
Fixpoint innermost_callexpr (self : AdaNode) : AdaNode :=
  match self with
  | MkNode _ _ _ (Some name :: _) =>
      if Kind.is_a (kind name) Kind.CallExpr then innermost_callexpr name
      else self
  | _ => self
  end.

Lemma innermost_callexpr_unfold (self : AdaNode) :
  innermost_callexpr self
  = match cast Kind.CallExpr (CallExpr_name self) with
    | Some ce => innermost_callexpr ce
    | None => self
    end.
Proof.
  destruct self as [i k t [| [name |] cs]]; cbn; try reflexivity.
  destruct (Kind.is_a (kind name) Kind.CallExpr); reflexivity.
Qed.

Lemma CallExpr_ref_var_dispatch (k : Kind.node_class) :
  Kind.is_a k Kind.CallExpr = true ->
  implementor
    [Kind.SingleTokNode; Kind.CallExpr; Kind.ExplicitDeref; Kind.QualExpr;
     Kind.AttributeRef; Kind.DottedName] k
  = Some Kind.CallExpr.
Proof. destruct k; vm_compute; intros; first [reflexivity | discriminate]. Qed.

Lemma ref_var_CallExpr (n : AdaNode) :
  Kind.is_a (kind n) Kind.CallExpr = true ->
  ref_var n = deref (CallExpr_name n) ref_var.
Proof.
  destruct n as [i k t cs]. cbn [kind]. intros Hk. cbn [ref_var].
  rewrite (CallExpr_ref_var_dispatch k Hk).
  destruct cs as [| [name |] cs]; reflexivity.
Qed.

(** X12. [innermost_callexpr] follows the chain of names down to a call
    expression whose name is not itself a call expression; it is
    idempotent, stays within call expressions, and the reference variable
    of a nested call expression is that of its innermost call. *)
Theorem innermost_callexpr_spec (n : AdaNode) :
  cast Kind.CallExpr (CallExpr_name (innermost_callexpr n)) = None /\
  innermost_callexpr (innermost_callexpr n) = innermost_callexpr n /\
  (Kind.is_a (kind n) Kind.CallExpr = true ->
   Kind.is_a (kind (innermost_callexpr n)) Kind.CallExpr = true /\
   ref_var (innermost_callexpr n) = ref_var n).
Proof.
  induction n as [i k t cs IH] using AdaNode_rect'.
  assert (Hself : cast Kind.CallExpr (CallExpr_name (MkNode i k t cs)) = None ->
                  innermost_callexpr (MkNode i k t cs) = MkNode i k t cs).
  { intros H. rewrite innermost_callexpr_unfold, H. reflexivity. }
  destruct (cast Kind.CallExpr (CallExpr_name (MkNode i k t cs)))
    as [ce |] eqn:Hce.
  - assert (Hin : innermost_callexpr (MkNode i k t cs)
                  = innermost_callexpr ce)
      by (rewrite innermost_callexpr_unfold, Hce; reflexivity).
    assert (Hname : CallExpr_name (MkNode i k t cs) = Some ce
                    /\ Kind.is_a (kind ce) Kind.CallExpr = true).
    { unfold cast in Hce.
      destruct (CallExpr_name (MkNode i k t cs)) as [m |];
        [| discriminate].
      destruct (Kind.is_a (kind m) Kind.CallExpr) eqn:Hm;
        [| discriminate].
      injection Hce as <-. auto. }
    destruct Hname as [Hname Hk].
    assert (IHce : cast Kind.CallExpr (CallExpr_name (innermost_callexpr ce))
                   = None /\
                   innermost_callexpr (innermost_callexpr ce)
                   = innermost_callexpr ce /\
                   (Kind.is_a (kind ce) Kind.CallExpr = true ->
                    Kind.is_a (kind (innermost_callexpr ce)) Kind.CallExpr
                    = true /\
                    ref_var (innermost_callexpr ce) = ref_var ce)).
    { unfold CallExpr_name, field in Hname. cbn [children] in Hname.
      destruct cs as [| c cs]; [discriminate |]. cbn in Hname. subst c.
      inversion IH as [| ? ? Hc _]; subst. exact Hc. }
    destruct IHce as (H1 & H2 & H3). rewrite Hin.
    repeat split; try assumption.
    + apply H3, Hk.
    + rewrite (proj2 (H3 Hk)), (ref_var_CallExpr (MkNode i k t cs)) by assumption.
      rewrite Hname. reflexivity.
  - rewrite (Hself eq_refl). repeat split; auto.
Qed.

(** ** Components of derived record types *)

Lemma ComponentList_dispatch (k : Kind.node_class) :
  Kind.is_a k Kind.ComponentList = true ->
  implementor
    [Kind.BaseSubpSpec; Kind.ComponentList; Kind.GenericFormalPart] k
  = Some Kind.ComponentList.
Proof. destruct k; vm_compute; intros; first [reflexivity | discriminate]. Qed.

Lemma mapcat_r_app {A B} (f : A -> result (list B)) (l1 l2 : list A)
  (r : list B) :
  mapcat_r f (l1 ++ l2) = Ok r ->
  exists r1 r2, mapcat_r f l1 = Ok r1 /\ mapcat_r f l2 = Ok r2 /\ r = r1 ++ r2.
Proof.
  revert r. induction l1 as [| a l1 IH]; intros r; cbn [app mapcat_r].
  - intros H. exists [], r. auto.
  - intros H. apply bind_r_Ok in H as (b & Hb & H).
    apply bind_r_Ok in H as (bs & Hbs & [= <-]).
    destruct (IH _ Hbs) as (r1 & r2 & H1 & H2 & ->).
    exists (b ++ r1), r2. rewrite Hb, H1. unfold bind_r.
    rewrite app_assoc. auto.
Qed.

Lemma unpacked_specs (ids_of : entity -> result (list (option AdaNode)))
  (specs : list (option entity)) (own : list SingleFormal) :
  mapcat_r
    (fun spec =>
       deref spec (fun spec' =>
         let* ids := ids_of spec' in
         Ok ((fun id => {| formal_name := id; formal_spec := spec |}) <$> ids)))
    specs = Ok own ->
  Forall (fun f => formal_spec f ∈ specs) own.
Proof.
  revert own. induction specs as [| spec specs IH]; intros own H;
    cbn [mapcat_r] in H.
  - injection H as <-. constructor.
  - apply bind_r_Ok in H as (b & Hb & H).
    apply bind_r_Ok in H as (bs & Hbs & [= <-]).
    apply deref_Ok in Hb as (spec' & -> & Hb).
    apply bind_r_Ok in Hb as (ids & _ & [= <-]).
    apply Forall_app. split.
    + apply Forall_forall. intros f Hf.
      apply list_elem_of_fmap in Hf as (id & -> & _). cbn. left.
    + eapply Forall_impl; [apply IH, Hbs |].
      intros f Hf. right. exact Hf.
Qed.

Section Derived_records.

Variable parent : AdaNode -> option AdaNode.
Variable node_env : AdaNode -> lexical_env.
Variable designated_type_impl :
  lexical_env -> option AdaNode -> AdaNode -> result (option entity).
Variable defining_names : AdaNode -> result (list (option AdaNode)).

Local Abbreviation unpacked_formal_params :=
  (Ast.unpacked_formal_params parent node_env designated_type_impl
     defining_names).
Local Abbreviation parent_component_list :=
  (Ast.parent_component_list parent node_env designated_type_impl).

(** X13. The components of a record extension come after those of the
    parent type: when the component list of a derived type has a parent
    component list, its unpacked formals are the parent's, in the same
    order, followed by its own, each of which is unpacked from a component
    declaration of the list itself; so the positional associations of an
    aggregate designate the inherited components first. *)
Theorem inherited_components_first (fuel : nat) (self pcl : entity)
  (formals : list SingleFormal) :
  Kind.is_a (kind (el self)) Kind.ComponentList = true ->
  parent_component_list fuel self = Ok (Some pcl) ->
  unpacked_formal_params (S fuel) self = Ok formals ->
  exists inherited own comps,
    unpacked_formal_params fuel pcl = Ok inherited /\
    formals = inherited ++ own /\
    elements (ComponentList_components (el self)) = Ok comps /\
    Forall (fun f =>
              exists c,
                Some c ∈ comps /\
                Kind.is_a (kind c) Kind.BaseFormalParamDecl = true /\
                formal_spec f = Some {| el := c; info := info self |})
      own.
Proof.
  intros Hk Hpcl H.
  unfold Ast.unpacked_formal_params in H.
  apply bind_r_Ok in H as (specs & Hspecs & H).
  cbn [Ast.abstract_formal_params] in Hspecs.
  rewrite (ComponentList_dispatch _ Hk) in Hspecs.
  apply bind_r_Ok in Hspecs as (comps & Hcomps & Hspecs).
  rewrite Hpcl in Hspecs. unfold bind_r at 1 in Hspecs.
  cbn [then_else] in Hspecs.
  apply bind_r_Ok in Hspecs as (inh & Hinh & [= <-]).
  apply mapcat_r_app in H as (inherited & own & H1 & H2 & ->).
  assert (Hp : unpacked_formal_params fuel pcl = Ok inherited).
  { unfold Ast.unpacked_formal_params. rewrite Hinh. exact H1. }
  exists inherited, own, comps. repeat split; try assumption.
  apply unpacked_specs in H2.
  eapply Forall_impl; [exact H2 |]. intros f Hf. cbn beta in Hf.
  unfold keep_entities in Hf.
  apply list_elem_of_omap in Hf as (c0 & Hc0 & Hf).
  destruct c0 as [c |]; cbn [cast] in Hf; [| discriminate Hf].
  destruct (Kind.is_a (kind c) Kind.BaseFormalParamDecl) eqn:Hc;
    [| discriminate Hf].
  injection Hf as Hf. exists c. auto.
Qed.

End Derived_records.

(** ** Matching of subprogram signatures *)

(** [arr.all(lambda i, a: ...)]: the callback also receives the index;
    stops at the first element that fails. *)
Fixpoint iall_r {A} (p : Z -> A -> result bool) (i : Z) (l : list A)
  : result bool :=
  match l with
  | [] => Ok true
  | a :: l' =>
      let* ok := p i a in if ok : bool then iall_r p (i + 1) l' else Ok false
  end.

(** [BaseSubpSpec.name]: abstract, implemented by [SubpSpec]. *)
Definition BaseSubpSpec_name (self : AdaNode) : result (option AdaNode) :=
  match implementor [Kind.SubpSpec] (kind self) with
  | Some _ => Ok (SubpSpec_subp_name self)
  | None => PropertyError
  end.

Lemma matches_sym (a b : AdaNode) : matches a (Some b) = matches b (Some a).
Proof.
  unfold matches, cast.
  pose proof (Identifier_StringLiteral_disjoint (kind a)) as Da.
  pose proof (Identifier_StringLiteral_disjoint (kind b)) as Db.
  destruct (Kind.is_a (kind a) Kind.Identifier),
           (Kind.is_a (kind b) Kind.Identifier),
           (Kind.is_a (kind a) Kind.StringLiteral),
           (Kind.is_a (kind b) Kind.StringLiteral);
    try (specialize (Da eq_refl); discriminate);
    try (specialize (Db eq_refl); discriminate);
    auto using String.eqb_sym.
Qed.

Lemma iall_r_agree {A} (F G : Z -> A -> result bool) (l l' : list A) (i : Z)
  (v1 v2 : bool) :
  length l = length l' ->
  (forall (k : nat) p q x y,
     l !! k = Some p -> l' !! k = Some q ->
     F (i + Z.of_nat k) p = Ok x -> G (i + Z.of_nat k) q = Ok y -> x = y) ->
  iall_r F i l = Ok v1 -> iall_r G i l' = Ok v2 -> v1 = v2.
Proof.
  revert l' i. induction l as [| p l IH]; intros [| q l'] i Hlen Hpt;
    try discriminate Hlen; cbn [iall_r].
  - congruence.
  - intros H1 H2.
    apply bind_r_Ok in H1 as (x & Hx & H1).
    apply bind_r_Ok in H2 as (y & Hy & H2).
    assert (x = y).
    { apply (Hpt O p q); try reflexivity; rewrite Z.add_0_r; assumption. }
    subst y. destruct x; [| congruence].
    apply (IH l' (i + 1)); try assumption; [cbn in Hlen; lia |].
    intros k p' q' x y Hp Hq Hx' Hy'.
    apply (Hpt (S k) p' q'); try assumption.
    + replace (i + Z.of_nat (S k)) with (i + 1 + Z.of_nat k) by lia.
      exact Hx'.
    + replace (i + Z.of_nat (S k)) with (i + 1 + Z.of_nat k) by lia.
      exact Hy'.
Qed.

Section Signatures.

Variable parent : AdaNode -> option AdaNode.
Variable node_env : AdaNode -> lexical_env.
Variable designated_type_impl :
  lexical_env -> option AdaNode -> AdaNode -> result (option entity).
Variable defining_names : AdaNode -> result (list (option AdaNode)).

Local Abbreviation unpacked_formal_params :=
  (Ast.unpacked_formal_params parent node_env designated_type_impl
     defining_names).
Local Abbreviation designated_type :=
  (Ast.designated_type node_env designated_type_impl).
Local Abbreviation canonical_type :=
  (Ast.canonical_type node_env designated_type_impl).

(** [canonical_type_or_null(type_expr)]: null for a null type expression,
    otherwise its canonical type declaration. *)
Definition canonical_type_or_null (fuel : nat) (origin : option AdaNode)
  (type_expr : option entity) : result (option entity) :=
  null_safe type_expr (fun te =>
    let* dt := designated_type origin te in
    let* c := deref dt (canonical_type fuel origin) in
    Ok (Some c)).

(** The test of [match_signature] on the [i]-th formal [p] of [Self]. *)
Definition formal_matches (fuel : nat)
  (origin_self origin_other : option AdaNode)
  (other_params : list SingleFormal) (i : Z) (p : SingleFormal)
  : result bool :=
  let* same_name :=
    deref (formal_name p)
      (fun nm => Ok (matches nm (at_ other_params i ≫= formal_name))) in
  if negb same_name then Ok false
  else
    let* te := deref (formal_spec p) type_expression in
    let* c := canonical_type_or_null fuel origin_self te in
    let* te' := deref (at_ other_params i ≫= formal_spec) type_expression in
    let* c' := canonical_type_or_null fuel origin_other te' in
    Ok (bool_decide (c = c')).

(** The test of [match_signature] on the return types. *)
Definition returns_match (fuel : nat)
  (origin_self origin_other : option AdaNode) (self : entity)
  (other : option entity) : result bool :=
  let* other_returns := deref other returns in
  match other_returns with
  | None => let* r := returns self in Ok (bool_decide (r = None))
  | Some _ =>
      let* c' := canonical_type_or_null fuel origin_other other_returns in
      let* r := returns self in
      let* c := canonical_type_or_null fuel origin_self r in
      Ok (bool_decide (c' = c))
  end.

(** [BaseSubpSpec.match_signature]: whether the signature of [other]
    matches that of [self]; the types are compared by canonical type. *)
Definition match_signature (fuel : nat) (self : entity)
  (other : option entity) : result bool :=
  let* origin_self := BaseSubpSpec_name (el self) in
  let* origin_other := deref other (fun o => BaseSubpSpec_name (el o)) in
  let* same_name :=
    deref origin_self (fun nm => Ok (matches nm origin_other)) in
  if negb same_name then Ok false
  else
    let* same_returns :=
      returns_match fuel origin_self origin_other self other in
    if negb same_returns then Ok false
    else
      let* self_params := unpacked_formal_params fuel self in
      let* other_params := deref other (unpacked_formal_params fuel) in
      if negb (length_ self_params =? length_ other_params) then Ok false
      else
        iall_r (formal_matches fuel origin_self origin_other other_params)
          0 self_params.

End Signatures.

Section Signature_facts.

Variable parent : AdaNode -> option AdaNode.
Variable node_env : AdaNode -> lexical_env.
Variable designated_type_impl :
  lexical_env -> option AdaNode -> AdaNode -> result (option entity).
Variable defining_names : AdaNode -> result (list (option AdaNode)).

Local Abbreviation unpacked_formal_params :=
  (Ast.unpacked_formal_params parent node_env designated_type_impl
     defining_names).
Local Abbreviation canon :=
  (canonical_type_or_null node_env designated_type_impl).
Local Abbreviation formal_ok :=
  (formal_matches node_env designated_type_impl).
Local Abbreviation returns_ok :=
  (returns_match node_env designated_type_impl).
Local Abbreviation signature_ok :=
  (match_signature parent node_env designated_type_impl defining_names).

Lemma canonical_type_or_null_Some (fuel : nat) (origin : option AdaNode)
  (te : entity) (r : option entity) :
  canon fuel origin (Some te) = Ok r -> exists c, r = Some c.
Proof.
  unfold canonical_type_or_null. cbn [null_safe]. intros H.
  apply bind_r_Ok in H as (dt & _ & H).
  apply bind_r_Ok in H as (c & _ & [= <-]). eauto.
Qed.

Lemma returns_match_agree (fuel : nat) (oa ob : option AdaNode)
  (a b : entity) (s1 s2 : bool) :
  returns_ok fuel oa ob a (Some b) = Ok s1 ->
  returns_ok fuel ob oa b (Some a) = Ok s2 ->
  s1 = s2.
Proof.
  unfold returns_match. cbn [deref]. intros H1 H2.
  apply bind_r_Ok in H1 as (rb & Hrb & H1).
  apply bind_r_Ok in H2 as (ra & Hra & H2).
  destruct rb as [tb |], ra as [ta |].
  - apply bind_r_Ok in H1 as (cb & Hcb & H1).
    apply bind_r_Ok in H1 as (ra' & Hra' & H1).
    rewrite Hra in Hra'. injection Hra' as <-.
    apply bind_r_Ok in H1 as (ca & Hca & [= <-]).
    apply bind_r_Ok in H2 as (ca' & Hca' & H2).
    rewrite Hca in Hca'. injection Hca' as <-.
    apply bind_r_Ok in H2 as (rb' & Hrb' & H2).
    rewrite Hrb in Hrb'. injection Hrb' as <-.
    apply bind_r_Ok in H2 as (cb' & Hcb' & [= <-]).
    rewrite Hcb in Hcb'. injection Hcb' as <-.
    apply bool_decide_ext. split; congruence.
  - apply bind_r_Ok in H1 as (cb & Hcb & H1).
    apply bind_r_Ok in H1 as (ra' & Hra' & H1).
    rewrite Hra in Hra'. injection Hra' as <-.
    apply bind_r_Ok in H1 as (ca & Hca & [= <-]).
    apply canonical_type_or_null_Some in Hcb as (c & ->).
    cbn in Hca. injection Hca as <-.
    apply bind_r_Ok in H2 as (rb' & Hrb' & [= <-]).
    rewrite Hrb in Hrb'. injection Hrb' as <-.
    rewrite !bool_decide_eq_false_2 by discriminate. reflexivity.
  - apply bind_r_Ok in H1 as (ra' & Hra' & [= <-]).
    rewrite Hra in Hra'. injection Hra' as <-.
    apply bind_r_Ok in H2 as (ca & Hca & H2).
    apply canonical_type_or_null_Some in Hca as (c & ->).
    apply bind_r_Ok in H2 as (rb' & Hrb' & H2).
    rewrite Hrb in Hrb'. injection Hrb' as <-.
    cbn in H2. injection H2 as <-.
    rewrite !bool_decide_eq_false_2 by discriminate. reflexivity.
  - apply bind_r_Ok in H1 as (ra' & Hra' & [= <-]).
    apply bind_r_Ok in H2 as (rb' & Hrb' & [= <-]).
    rewrite Hra in Hra'. rewrite Hrb in Hrb'.
    injection Hra' as <-. injection Hrb' as <-.
    rewrite !bool_decide_eq_true_2 by reflexivity. reflexivity.
Qed.

Lemma formal_matches_agree (fuel : nat) (oa ob : option AdaNode)
  (formals_a formals_b : list SingleFormal) (k : nat) (p q : SingleFormal)
  (x y : bool) :
  formals_a !! k = Some p -> formals_b !! k = Some q ->
  formal_ok fuel oa ob formals_b (Z.of_nat k) p = Ok x ->
  formal_ok fuel ob oa formals_a (Z.of_nat k) q = Ok y ->
  x = y.
Proof.
  unfold formal_matches. rewrite !at_of_nat. intros -> ->.
  cbn [mbind option_bind]. intros H1 H2.
  apply bind_r_Ok in H1 as (n1 & Hn1 & H1).
  apply bind_r_Ok in H2 as (n2 & Hn2 & H2).
  apply deref_Ok in Hn1 as (np & Hp & [= <-]).
  apply deref_Ok in Hn2 as (nq & Hq & [= <-]).
  rewrite Hp in H2. rewrite Hq in H1.
  rewrite (matches_sym nq np) in H2.
  destruct (matches np (Some nq)); cbn [negb] in H1, H2; [| congruence].
  apply bind_r_Ok in H1 as (tp & Htp & H1).
  apply bind_r_Ok in H1 as (cp & Hcp & H1).
  apply bind_r_Ok in H1 as (tq & Htq & H1).
  apply bind_r_Ok in H1 as (cq & Hcq & [= <-]).
  apply bind_r_Ok in H2 as (tq' & Htq' & H2).
  rewrite Htq in Htq'. injection Htq' as <-.
  apply bind_r_Ok in H2 as (cq' & Hcq' & H2).
  rewrite Hcq in Hcq'. injection Hcq' as <-.
  apply bind_r_Ok in H2 as (tp' & Htp' & H2).
  rewrite Htp in Htp'. injection Htp' as <-.
  apply bind_r_Ok in H2 as (cp' & Hcp' & [= <-]).
  rewrite Hcp in Hcp'. injection Hcp' as <-.
  apply bool_decide_ext. split; congruence.
Qed.

(** X14. [match_signature] does not depend on which of the two
    specifications it is called on: when [a.match_signature(b)] and
    [b.match_signature(a)] both return, they return the same value. *)
Theorem match_signature_symmetric (fuel : nat) (a b : entity)
  (v1 v2 : bool) :
  signature_ok fuel a (Some b) = Ok v1 ->
  signature_ok fuel b (Some a) = Ok v2 ->
  v1 = v2.
Proof.
  unfold match_signature. cbn [deref]. intros H1 H2.
  apply bind_r_Ok in H1 as (oa & Hoa & H1).
  apply bind_r_Ok in H1 as (ob & Hob & H1).
  rewrite Hob, Hoa in H2. unfold bind_r at 1 2 in H2.
  apply bind_r_Ok in H1 as (n1 & Hn1 & H1).
  apply bind_r_Ok in H2 as (n2 & Hn2 & H2).
  apply deref_Ok in Hn1 as (na & -> & [= <-]).
  apply deref_Ok in Hn2 as (nb & -> & [= <-]).
  rewrite (matches_sym nb na) in H2.
  destruct (matches na (Some nb)); cbn [negb] in H1, H2; [| congruence].
  apply bind_r_Ok in H1 as (s1 & Hs1 & H1).
  apply bind_r_Ok in H2 as (s2 & Hs2 & H2).
  pose proof (returns_match_agree _ _ _ _ _ _ _ Hs1 Hs2) as <-.
  destruct s1; cbn [negb] in H1, H2; [| congruence].
  apply bind_r_Ok in H1 as (formals_a & Ha & H1).
  apply bind_r_Ok in H1 as (formals_b & Hb & H1).
  rewrite Hb, Ha in H2. unfold bind_r at 1 2 in H2.
  rewrite (Z.eqb_sym (length_ formals_b)) in H2.
  destruct (length_ formals_a =? length_ formals_b) eqn:Hlen;
    cbn [negb] in H1, H2; [| congruence].
  apply Z.eqb_eq in Hlen. unfold length_ in Hlen.
  apply (iall_r_agree (formal_ok fuel (Some na) (Some nb) formals_b)
           (formal_ok fuel (Some nb) (Some na) formals_a)
           formals_a formals_b 0 v1 v2); try assumption; [lia |].
  intros k p q x y Hp Hq. rewrite Z.add_0_l.
  apply formal_matches_agree; assumption.
Qed.

End Signature_facts.

Lemma iall_r_true {A} (F : Z -> A -> result bool) (l : list A) (i : Z) :
  iall_r F i l = Ok true ->
  forall (k : nat) p, l !! k = Some p -> F (i + Z.of_nat k) p = Ok true.
Proof.
  revert i. induction l as [| a l IH]; intros i H k p Hk; [discriminate Hk |].
  cbn [iall_r] in H. apply bind_r_Ok in H as ([|] & Ha & H);
    [| discriminate H].
  destruct k as [| k]; cbn in Hk.
  - injection Hk as <-. rewrite Z.add_0_r. exact Ha.
  - replace (i + Z.of_nat (S k)) with (i + 1 + Z.of_nat k) by lia.
    apply IH; assumption.
Qed.

Lemma matches_true (a b : AdaNode) :
  matches a (Some b) = true ->
  (Kind.is_a (kind a) Kind.Identifier = true
   /\ Kind.is_a (kind b) Kind.Identifier = true
   \/ Kind.is_a (kind a) Kind.StringLiteral = true
      /\ Kind.is_a (kind b) Kind.StringLiteral = true)
  /\ sym a = sym b.
Proof.
  unfold matches, cast.
  destruct (Kind.is_a (kind a) Kind.Identifier);
    [destruct (Kind.is_a (kind b) Kind.Identifier); [| discriminate] |
     destruct (Kind.is_a (kind a) Kind.StringLiteral); [| discriminate];
     destruct (Kind.is_a (kind b) Kind.StringLiteral); [| discriminate]];
    intros H; apply String.eqb_eq in H; auto.
Qed.

Section Signature_soundness.

Variable parent : AdaNode -> option AdaNode.
Variable node_env : AdaNode -> lexical_env.
Variable designated_type_impl :
  lexical_env -> option AdaNode -> AdaNode -> result (option entity).
Variable defining_names : AdaNode -> result (list (option AdaNode)).

Local Abbreviation unpacked_formal_params :=
  (Ast.unpacked_formal_params parent node_env designated_type_impl
     defining_names).
Local Abbreviation signature_ok :=
  (match_signature parent node_env designated_type_impl defining_names).

(** Two names that [Name.matches] relates: both identifiers or both string
    literals, with the same symbol. *)
Definition same_designator (a b : AdaNode) : Prop :=
  (Kind.is_a (kind a) Kind.Identifier = true
   /\ Kind.is_a (kind b) Kind.Identifier = true
   \/ Kind.is_a (kind a) Kind.StringLiteral = true
      /\ Kind.is_a (kind b) Kind.StringLiteral = true)
  /\ sym a = sym b.

(** X15. Two specifications whose signatures match have the same name,
    which is an identifier or an operator symbol (a dotted name matches no
    signature, not even its own), both or neither return something, and
    they have the same number of formals, with the same names position by
    position. *)
Theorem match_signature_sound (fuel : nat) (a b : entity) :
  signature_ok fuel a (Some b) = Ok true ->
  exists name_a name_b formals_a formals_b,
    BaseSubpSpec_name (el a) = Ok (Some name_a) /\
    BaseSubpSpec_name (el b) = Ok (Some name_b) /\
    same_designator name_a name_b /\
    (returns a = Ok None <-> returns b = Ok None) /\
    unpacked_formal_params fuel a = Ok formals_a /\
    unpacked_formal_params fuel b = Ok formals_b /\
    length formals_a = length formals_b /\
    forall k p q,
      formals_a !! k = Some p -> formals_b !! k = Some q ->
      exists np nq,
        formal_name p = Some np /\ formal_name q = Some nq /\
        same_designator np nq.
Proof.
  unfold match_signature. cbn [deref]. intros H.
  apply bind_r_Ok in H as (oa & Hoa & H).
  apply bind_r_Ok in H as (ob & Hob & H).
  apply bind_r_Ok in H as (n & Hn & H).
  apply deref_Ok in Hn as (na & -> & [= <-]).
  destruct (matches na ob) eqn:Hm; cbn [negb] in H; [| discriminate H].
  destruct ob as [nb |]; [| unfold matches in Hm; cbn in Hm;
    destruct (Kind.is_a (kind na) Kind.Identifier);
    [discriminate | destruct (Kind.is_a (kind na) Kind.StringLiteral);
                    discriminate]].
  apply bind_r_Ok in H as (s & Hs & H).
  destruct s; cbn [negb] in H; [| discriminate H].
  apply bind_r_Ok in H as (formals_a & Ha & H).
  apply bind_r_Ok in H as (formals_b & Hb & H).
  destruct (length_ formals_a =? length_ formals_b) eqn:Hlen;
    cbn [negb] in H; [| discriminate H].
  apply Z.eqb_eq in Hlen. unfold length_ in Hlen.
  exists na, nb, formals_a, formals_b.
  repeat split; try assumption; try lia.
  - apply matches_true, Hm.
  - apply matches_true, Hm.
  - intros Hra. unfold returns_match in Hs. cbn [deref] in Hs.
    apply bind_r_Ok in Hs as (rb & Hrb & Hs). rewrite Hrb. f_equal.
    destruct rb as [tb |]; [| reflexivity].
    apply bind_r_Ok in Hs as (cb & Hcb & Hs).
    rewrite Hra in Hs. unfold bind_r in Hs. cbn in Hs.
    unfold canonical_type_or_null in Hcb. cbn [null_safe] in Hcb.
    apply bind_r_Ok in Hcb as (dt & _ & Hcb).
    apply bind_r_Ok in Hcb as (c & _ & [= <-]).
    first [ discriminate Hs
          | injection Hs as Hs; apply bool_decide_eq_true in Hs;
            discriminate Hs ].
  - intros Hrb. unfold returns_match in Hs. cbn [deref] in Hs.
    rewrite Hrb in Hs. unfold bind_r at 1 in Hs.
    apply bind_r_Ok in Hs as (ra & Hra & [= Hs]).
    apply bool_decide_eq_true in Hs. congruence.
  - intros k p q Hp Hq.
    pose proof (iall_r_true _ _ _ H k p Hp) as Hk.
    rewrite Z.add_0_l in Hk. unfold formal_matches in Hk.
    rewrite at_of_nat, Hq in Hk. cbn [mbind option_bind] in Hk.
    apply bind_r_Ok in Hk as (n & Hn & Hk).
    apply deref_Ok in Hn as (np & Hnp & [= <-]).
    destruct (matches np (formal_name q)) eqn:Hmq; [| discriminate Hk].
    destruct (formal_name q) as [nq |] eqn:Hnq.
    + exists np, nq. repeat split; try assumption; apply matches_true, Hmq.
    + unfold matches in Hmq. cbn in Hmq.
      destruct (Kind.is_a (kind np) Kind.Identifier);
        [discriminate |
         destruct (Kind.is_a (kind np) Kind.StringLiteral); discriminate].
Qed.

End Signature_soundness.

(** ** Reference variables of names *)

(** The nodes of a tree, the root first. *)
Fixpoint nodes (n : AdaNode) : list AdaNode :=
  match n with
  | MkNode _ _ _ cs =>
      n :: (fix below (l : list (option AdaNode)) : list AdaNode :=
              match l with
              | [] => []
              | None :: l' => below l'
              | Some c :: l' => nodes c ++ below l'
              end) cs
  end.

Fixpoint nodes_of (l : list (option AdaNode)) : list AdaNode :=
  match l with
  | [] => []
  | None :: l' => nodes_of l'
  | Some c :: l' => nodes c ++ nodes_of l'
  end.

Lemma nodes_unfold (n : AdaNode) : nodes n = n :: nodes_of (children n).
Proof. destruct n. reflexivity. Qed.

Lemma nodes_of_child (l : list (option AdaNode)) (c m : AdaNode) :
  Some c ∈ l -> m ∈ nodes c -> m ∈ nodes_of l.
Proof.
  induction l as [| [c' |] l IH]; intros Hc Hm; cbn [nodes_of].
  - inversion Hc.
  - apply elem_of_cons in Hc as [[= <-] | Hc]; apply elem_of_app; auto.
  - apply elem_of_cons in Hc as [[=] | Hc]. auto.
Qed.

Lemma ref_var_dispatch (k : Kind.node_class) :
  implementor
    [Kind.SingleTokNode; Kind.CallExpr; Kind.ExplicitDeref; Kind.QualExpr;
     Kind.AttributeRef; Kind.DottedName] k = Some Kind.SingleTokNode
  /\ Kind.is_a k Kind.SingleTokNode = true
  \/ implementor
       [Kind.SingleTokNode; Kind.CallExpr; Kind.ExplicitDeref; Kind.QualExpr;
        Kind.AttributeRef; Kind.DottedName] k = Some Kind.DottedName
  \/ (exists c,
        implementor
          [Kind.SingleTokNode; Kind.CallExpr; Kind.ExplicitDeref;
           Kind.QualExpr; Kind.AttributeRef; Kind.DottedName] k = Some c
        /\ (c = Kind.CallExpr \/ c = Kind.ExplicitDeref \/ c = Kind.QualExpr
            \/ c = Kind.AttributeRef))
  \/ implementor
       [Kind.SingleTokNode; Kind.CallExpr; Kind.ExplicitDeref; Kind.QualExpr;
        Kind.AttributeRef; Kind.DottedName] k = None.
Proof.
  destruct k; vm_compute;
    first [ left; split; reflexivity
          | right; left; reflexivity
          | right; right; right; reflexivity
          | right; right; left; eexists; split; [reflexivity |]; tauto ].
Qed.

(** X16. The reference variable of a name is the variable of a
    single-token node of the name itself: [ref_var] never yields the
    variable of a node outside the tree it is called on. *)
Theorem ref_var_within (n : AdaNode) (v : LogicVar) :
  ref_var n = Ok v ->
  exists m,
    m ∈ nodes n /\ Kind.is_a (kind m) Kind.SingleTokNode = true
    /\ v = RefVar (id_of m).
Proof.
  revert v. induction n as [i k t cs IH] using AdaNode_rect'. intros v H.
  rewrite nodes_unfold. cbn [children]. cbn [ref_var] in H.
  assert (Hchild : forall c, Some c ∈ cs -> ref_var c = Ok v ->
            exists m, m ∈ MkNode i k t cs :: nodes_of cs
                      /\ Kind.is_a (kind m) Kind.SingleTokNode = true
                      /\ v = RefVar (id_of m)).
  { intros c Hc Hv. rewrite Forall_forall in IH.
    destruct (IH (Some c) Hc v Hv) as (m & Hm & Hk & ->).
    exists m. repeat split; [| exact Hk].
    apply elem_of_cons. right. eapply nodes_of_child; eassumption. }
  destruct (ref_var_dispatch k) as [[E Hk] | [E | [(c & E & Hc) | E]]];
    rewrite E in H.
  - injection H as <-. exists (MkNode i k t cs).
    repeat split; [apply elem_of_cons; auto | exact Hk].
  - destruct cs as [| c0 [| [suffix |] cs]]; try discriminate H.
    apply (Hchild suffix); [| exact H].
    apply elem_of_cons. right. apply elem_of_cons. auto.
  - assert (Hpre : match cs with
                   | Some prefix :: _ => ref_var prefix
                   | _ => PropertyError
                   end = Ok v)
      by (destruct Hc as [-> | [-> | [-> | ->]]]; exact H).
    destruct cs as [| [prefix |] cs]; try discriminate Hpre.
    apply (Hchild prefix); [| exact Hpre]. apply elem_of_cons. auto.
  - discriminate H.
Qed.

(** ** Array and record definitions *)

Lemma array_record_dispatch (k : Kind.node_class) :
  implementor [Kind.BaseTypeDecl; Kind.TypeDecl] k = Some Kind.TypeDecl ->
  implementor [Kind.BaseTypeDecl; Kind.ClasswideTypeDecl; Kind.TypeDecl] k
  = Some Kind.TypeDecl.
Proof. destruct k; vm_compute; intros; first [reflexivity | discriminate]. Qed.

Lemma array_def_dispatch (k : Kind.node_class) :
  implementor [Kind.BaseTypeDecl; Kind.TypeDecl] k = Some Kind.TypeDecl
  \/ implementor [Kind.BaseTypeDecl; Kind.TypeDecl] k
     = Some Kind.BaseTypeDecl
  \/ implementor [Kind.BaseTypeDecl; Kind.TypeDecl] k = None.
Proof.
  destruct k; vm_compute;
    first [ left; reflexivity | right; left; reflexivity
          | right; right; reflexivity ].
Qed.

Lemma ArrayTypeDef_not_record (k : Kind.node_class) :
  Kind.is_a k Kind.ArrayTypeDef = true ->
  Kind.is_a k Kind.RecordTypeDef = false
  /\ Kind.is_a k Kind.DerivedTypeDef = false.
Proof.
  destruct k; vm_compute; intros; first [split; reflexivity | discriminate].
Qed.

Section Array_or_record.

Variable parent : AdaNode -> option AdaNode.

Local Abbreviation record_def := (Ast.record_def parent).

(** X17. No type has both an array definition and a record definition:
    when [array_def] is not null, [record_def] is null, so that the two
    cases of an aggregate exclude each other. *)
Theorem array_def_excludes_record_def (fuel : nat) (T atd : entity) :
  array_def T = Ok (Some atd) ->
  Kind.is_a (kind (el atd)) Kind.ArrayTypeDef = true /\
  record_def (S fuel) T = Ok None.
Proof.
  unfold array_def. intros H.
  destruct (array_def_dispatch (kind (el T))) as [E | [E | E]];
    rewrite E in H; try discriminate H.
  injection H as H. unfold as_entity, cast in H.
  destruct (TypeDecl_type_def (el T)) as [td |] eqn:Htd; [| discriminate H].
  destruct (Kind.is_a (kind td) Kind.ArrayTypeDef) eqn:Hk;
    [| discriminate H].
  cbn in H. injection H as <-. split; [exact Hk |].
  cbn [Ast.record_def]. rewrite (array_record_dispatch _ E), Htd.
  cbn [deref].
  destruct (ArrayTypeDef_not_record _ Hk) as [-> ->]. reflexivity.
Qed.

End Array_or_record.

(** ** Element types of type expressions *)

Lemma AnonymousType_dispatch (k : Kind.node_class) :
  Kind.is_a k Kind.AnonymousType = true ->
  implementor [Kind.AnonymousType; Kind.SubtypeIndication] k
  = Some Kind.AnonymousType.
Proof. destruct k; vm_compute; intros; first [reflexivity | discriminate]. Qed.

Section Element_types.

Variable node_env : AdaNode -> lexical_env.
Variable designated_type_impl :
  lexical_env -> option AdaNode -> AdaNode -> result (option entity).

Local Abbreviation designated_type :=
  (Ast.designated_type node_env designated_type_impl).
Local Abbreviation accessed_type :=
  (Ast.accessed_type node_env designated_type_impl).

(** [TypeExpr.accessed_type]: the accessed type of the designated type. *)
Definition TypeExpr_accessed_type (fuel : nat) (origin : option AdaNode)
  (self : entity) : result (option entity) :=
  let* d := designated_type origin self in
  deref d (accessed_type fuel origin).

(** [TypeExpr.element_type]: [If(d.is_null, Self.accessed_type, d)] where
    [d] stands for [Self.designated_type]. *)
Definition element_type (fuel : nat) (origin : option AdaNode)
  (self : entity) : result (option entity) :=
  let* d := designated_type origin self in
  match d with
  | None => TypeExpr_accessed_type fuel origin self
  | Some _ => designated_type origin self
  end.

(** X18. [element_type] never yields an accessed type: it returns the
    designated type when there is one and raises a property error when
    there is none, since the accessed type it falls back on is asked of
    the null designated type.  On an anonymous type it returns the
    anonymous type declaration itself, also when that is an access
    type. *)
Theorem element_type_is_designated_type (fuel : nat)
  (origin : option AdaNode) (self : entity) :
  element_type fuel origin self
  = match designated_type origin self with
    | Ok None => PropertyError
    | r => r
    end /\
  (forall d : AdaNode,
     Kind.is_a (kind (el self)) Kind.AnonymousType = true ->
     AnonymousType_type_decl (el self) = Some d ->
     element_type fuel origin self
     = Ok (Some {| el := d; info := info self |})).
Proof.
  assert (Heq : element_type fuel origin self
                = match designated_type origin self with
                  | Ok None => PropertyError
                  | r => r
                  end).
  { unfold element_type, TypeExpr_accessed_type.
    destruct (designated_type origin self) as [[d |] | |] eqn:Hd;
      unfold bind_r; cbn; try rewrite Hd; reflexivity. }
  split; [exact Heq |].
  intros d Hk Hdecl. rewrite Heq.
  unfold Ast.designated_type.
  rewrite (AnonymousType_dispatch _ Hk), Hdecl. reflexivity.
Qed.

End Element_types.

(** ** Unpacking of associations *)

(** The actuals that one association with the designators [ns] unpacks
    to. *)
Lemma unpacked_assoc (pa : AdaNode) (ns : list (option AdaNode))
  (b : list SingleActual) (a : SingleActual) :
  (if length_ ns =? 0 then
     Ok [{| actual_name := None; actual_assoc := Some pa |}]
   else
     Ok (omap (fun n =>
                 if is_a Kind.BaseId n then
                   Some {| actual_name := cast Kind.BaseId n;
                           actual_assoc := Some pa |}
                 else None) ns)) = Ok b ->
  a ∈ b
  <-> actual_assoc a = Some pa /\
      match actual_name a with
      | None => ns = []
      | Some nm =>
          Some nm ∈ ns /\ Kind.is_a (kind nm) Kind.BaseId = true
      end.
Proof.
  destruct ns as [| n ns].
  - change (length_ (@nil (option AdaNode)) =? 0) with true.
    cbv iota. intros [= <-]. rewrite list_elem_of_singleton. split.
    + intros ->. cbn. auto.
    + destruct a as [[nm |] assoc]; cbn.
      * intros (_ & H & _). inversion H.
      * intros (-> & _). reflexivity.
  - replace (length_ (n :: ns) =? 0) with false
      by (symmetry; apply Z.eqb_neq; unfold length_; cbn [length]; lia).
    cbv match. remember (n :: ns) as l eqn:Hl.
    intros [= <-]. rewrite list_elem_of_omap. split.
    + intros (m & Hm & Ha). destruct m as [m |]; cbn in Ha; [| discriminate].
      destruct (Kind.is_a (kind m) Kind.BaseId) eqn:Hk; [| discriminate].
      injection Ha as <-. cbn. auto.
    + destruct a as [[nm |] assoc]; cbn.
      * intros (-> & Hnm & Hk). exists (Some nm). split; [exact Hnm |].
        cbn. rewrite Hk. reflexivity.
      * intros (_ & ->). discriminate Hl.
Qed.

(** X19. [unpacked_params] yields exactly these actuals: for an
    association without designator, one actual without name; for an
    association with designators, one actual per designator that is a
    [BaseId], named by it.  A designator of another form is passed over,
    so that an association designated only by such names yields no actual
    at all.  Every actual refers to the association it comes from, and a
    list of parameter associations unpacks to no more actuals than it has
    associations. *)
Theorem unpacked_params_spec (l : AdaNode) (actuals : list SingleActual) :
  unpacked_params l = Ok actuals ->
  (forall a : SingleActual,
     a ∈ actuals <->
     exists pa ns,
       Some pa ∈ children l /\ names pa = Ok ns /\
       actual_assoc a = Some pa /\
       match actual_name a with
       | None => ns = []
       | Some nm =>
           Some nm ∈ ns /\ Kind.is_a (kind nm) Kind.BaseId = true
       end) /\
  ((forall c, c ∈ children l -> is_a Kind.ParamAssoc c = true) ->
   (length actuals <= length (children l))%nat).
Proof.
  unfold unpacked_params. revert actuals.
  induction (children l) as [| c cs IH]; intros actuals H;
    cbn [mapcat_r] in H.
  - injection H as <-. split.
    + intros a. split.
      * intros Ha. inversion Ha.
      * intros (pa & ns & Hpa & _). inversion Hpa.
    + intros _. reflexivity.
  - apply bind_r_Ok in H as (b & Hb & H).
    apply bind_r_Ok in H as (bs & Hbs & [= <-]).
    apply deref_Ok in Hb as (pa & -> & Hb).
    apply bind_r_Ok in Hb as (ns & Hns & Hb).
    destruct (IH _ Hbs) as [IHmem IHlen]. split.
    + intros a. rewrite elem_of_app, (unpacked_assoc _ _ _ a Hb), IHmem.
      split.
      * intros [(Hassoc & Hname) | (pa' & ns' & Hin & H')].
        -- exists pa, ns. split; [left |]. auto.
        -- exists pa', ns'. split; [right; exact Hin | exact H'].
      * intros (pa' & ns' & Hin & Hns' & Hassoc & Hname).
        apply elem_of_cons in Hin as [[= <-] | Hin].
        -- left. rewrite Hns in Hns'. injection Hns' as <-. auto.
        -- right. exists pa', ns'. auto.
    + intros Hall. rewrite length_app. cbn [length].
      assert (Hcs : (length bs <= length cs)%nat).
      { apply IHlen. intros c Hc. apply Hall. right. exact Hc. }
      assert (Hk : Kind.is_a (kind pa) Kind.ParamAssoc = true).
      { apply (Hall (Some pa)). left. }
      unfold names in Hns. rewrite (ParamAssoc_dispatch _ Hk) in Hns.
      injection Hns as <-.
      destruct (ParamAssoc_designator pa) as [d |]; cbn in Hb.
      * destruct (Kind.is_a (kind d) Kind.BaseId);
          injection Hb as <-; cbn; lia.
      * injection Hb as <-. cbn. lia.
Qed.

(** ** String types *)

Definition ArrayTypeDef_indices := field 0.
Definition UnconstrainedArrayIndices_types := field 0.
Definition ConstrainedArrayIndices_list := field 0.

(** [ArrayIndices.ndims]: abstract, implemented by
    [UnconstrainedArrayIndices] and [ConstrainedArrayIndices]. *)
Definition ndims (self : AdaNode) : result Z :=
  match implementor
          [Kind.UnconstrainedArrayIndices; Kind.ConstrainedArrayIndices]
          (kind self) with
  | Some Kind.UnconstrainedArrayIndices =>
      let* l := elements (UnconstrainedArrayIndices_types self) in
      Ok (length_ l)
  | Some Kind.ConstrainedArrayIndices =>
      let* l := elements (ConstrainedArrayIndices_list self) in
      Ok (length_ l)
  | _ => PropertyError
  end.

(** The classes that declare or override [array_ndims]. *)
Definition array_ndims_classes : list Kind.node_class :=
  [Kind.BasicDecl; Kind.ComponentDecl; Kind.TypeDecl; Kind.SubtypeDecl;
   Kind.ObjectDecl; Kind.TypeDef; Kind.DerivedTypeDef; Kind.ArrayTypeDef;
   Kind.TypeExpr].

Lemma array_ndims_TypeDecl (k : Kind.node_class) :
  implementor [Kind.BaseTypeDecl; Kind.TypeDecl] k = Some Kind.TypeDecl ->
  implementor array_ndims_classes k = Some Kind.TypeDecl
  /\ Kind.is_a k Kind.TypeDecl = true
  /\ Kind.is_a k Kind.SubtypeDecl = false.
Proof.
  destruct k; vm_compute; intros;
    first [repeat split; reflexivity | discriminate].
Qed.

Lemma array_ndims_ArrayTypeDef (k : Kind.node_class) :
  Kind.is_a k Kind.ArrayTypeDef = true ->
  implementor array_ndims_classes k = Some Kind.ArrayTypeDef.
Proof. destruct k; vm_compute; intros; first [reflexivity | discriminate]. Qed.

Section String_types.

Variable node_env : AdaNode -> lexical_env.
Variable designated_type_impl :
  lexical_env -> option AdaNode -> AdaNode -> result (option entity).

Local Abbreviation designated_type :=
  (Ast.designated_type node_env designated_type_impl).
Local Abbreviation DerivedTypeDef_base_type :=
  (Ast.DerivedTypeDef_base_type node_env designated_type_impl).
Local Abbreviation ArrayTypeDef_comp_type :=
  (Ast.ArrayTypeDef_comp_type node_env designated_type_impl).
Local Abbreviation char := (is_char_type node_env designated_type_impl).

(** [array_ndims] of declarations ([BasicDecl], overridden by
    [ComponentDecl], [TypeDecl], [SubtypeDecl] and [ObjectDecl]), of type
    definitions ([TypeDef], overridden by [DerivedTypeDef] and
    [ArrayTypeDef]) and of type expressions ([TypeExpr], which binds
    [origin] to itself). *)
Fixpoint array_ndims (fuel : nat) (self : entity) : result Z :=
  match fuel with
  | O => OutOfFuel
  | S fuel' =>
      match implementor array_ndims_classes (kind (el self)) with
      | Some Kind.ComponentDecl =>
          let* cd := deref (ComponentDecl_component_def (el self)) Ok in
          deref (as_entity (info self) (ComponentDef_type_expr cd))
            (array_ndims fuel')
      | Some Kind.TypeDecl =>
          deref (as_entity (info self) (TypeDecl_type_def (el self)))
            (array_ndims fuel')
      | Some Kind.SubtypeDecl =>
          deref (as_entity (info self) (SubtypeDecl_subtype (el self)))
            (array_ndims fuel')
      | Some Kind.ObjectDecl =>
          deref (as_entity (info self) (ObjectDecl_type_expr (el self)))
            (array_ndims fuel')
      | Some Kind.DerivedTypeDef =>
          let* bt := DerivedTypeDef_base_type self in
          deref bt (array_ndims fuel')
      | Some Kind.ArrayTypeDef =>
          deref (ArrayTypeDef_indices (el self)) ndims
      | Some Kind.TypeExpr =>
          let* d := designated_type (Some (el self)) self in
          deref d (array_ndims fuel')
      | Some _ => Ok 0
      | None => PropertyError
      end
  end.

(** [BasicDecl.is_array]. *)
Definition is_array (fuel : nat) (self : entity) : result bool :=
  match implementor [Kind.BasicDecl] (kind (el self)) with
  | Some _ => let* n := array_ndims fuel self in Ok (0 <? n)
  | None => PropertyError
  end.

(** [BaseTypeDecl.comp_type]: the component type of an array type. *)
Definition comp_type (fuel : nat) (origin : option AdaNode) (self : entity)
  : result (option entity) :=
  let* atd := array_def self in
  null_safe atd (ArrayTypeDef_comp_type fuel origin).

(** [BaseTypeDecl.is_str_type]. *)
Definition is_str_type (fuel : nat) (origin : option AdaNode)
  (self : entity) : result bool :=
  let* arr := is_array fuel self in
  if arr : bool then
    let* c := comp_type fuel origin self in
    then_else c (char fuel) false
  else Ok false.

(** X20. [is_str_type] holds only of a type declaration whose own
    definition is an array definition with at least one index and a
    component type that is a character type.  Since [comp_type] goes
    through [array_def], which a derived type and a subtype do not have,
    [is_str_type] is never true of a type derived from a string type nor of
    a subtype of one, though [is_array] is. *)
Theorem is_str_type_own_array (fuel : nat) (origin : option AdaNode)
  (T : entity) :
  is_str_type fuel origin T = Ok true ->
  Kind.is_a (kind (el T)) Kind.TypeDecl = true /\
  Kind.is_a (kind (el T)) Kind.SubtypeDecl = false /\
  exists atd indices c n,
    array_def T = Ok (Some atd) /\
    TypeDecl_type_def (el T) = Some (el atd) /\
    Kind.is_a (kind (el atd)) Kind.ArrayTypeDef = true /\
    Kind.is_a (kind (el atd)) Kind.DerivedTypeDef = false /\
    ArrayTypeDef_indices (el atd) = Some indices /\
    ndims indices = Ok n /\ 0 < n /\
    array_ndims fuel T = Ok n /\
    ArrayTypeDef_comp_type fuel origin atd = Ok (Some c) /\
    char fuel c = Ok true.
Proof.
  unfold is_str_type, is_array, comp_type. intros H.
  apply bind_r_Ok in H as (arr & Harr & H).
  destruct (implementor [Kind.BasicDecl] (kind (el T))) as [k |];
    [| discriminate].
  apply bind_r_Ok in Harr as (n & Hn & [= <-]).
  destruct (0 <? n) eqn:Hpos; [| discriminate H].
  apply Z.ltb_lt in Hpos.
  apply bind_r_Ok in H as (c & Hc & H).
  apply bind_r_Ok in Hc as (atd & Hatd & Hc).
  destruct atd as [atd |]; cbn [null_safe] in Hc;
    [| injection Hc as <-; discriminate H].
  destruct c as [c |]; cbn [then_else] in H; [| discriminate H].
  pose proof Hatd as Hdef. unfold array_def in Hatd.
  destruct (array_def_dispatch (kind (el T))) as [E | [E | E]];
    rewrite E in Hatd; try discriminate Hatd.
  injection Hatd as Hatd. unfold as_entity, cast in Hatd.
  destruct (TypeDecl_type_def (el T)) as [td |] eqn:Htd;
    [| discriminate Hatd].
  destruct (Kind.is_a (kind td) Kind.ArrayTypeDef) eqn:Hk;
    [| discriminate Hatd].
  cbn in Hatd. injection Hatd as <-.
  destruct (array_ndims_TypeDecl _ E) as (Edecl & Hdecl & Hsub).
  destruct fuel as [| fuel]; [discriminate Hn |].
  pose proof Hn as Hn'. cbn [array_ndims] in Hn'.
  rewrite Edecl, Htd in Hn'. cbn [as_entity fmap option_fmap option_map deref]
    in Hn'.
  destruct fuel as [| fuel]; [discriminate Hn' |].
  cbn [array_ndims el] in Hn'.
  rewrite (array_ndims_ArrayTypeDef _ Hk) in Hn'.
  apply deref_Ok in Hn' as (indices & Hindices & Hndims).
  split; [exact Hdecl |]. split; [exact Hsub |].
  exists {| el := td; info := info T |}, indices, c, n. cbn [el].
  destruct (ArrayTypeDef_not_record _ Hk) as [_ Hder].
  repeat split; assumption.
Qed.

End String_types.

(** ** The further properties on sample trees *)

(** [type B is tagged null record;], [type D is new B with null record;]
    and [subtype S is Integer;]. *)
Module Type_examples.

Import Examples.

Definition B_decl : AdaNode :=
  node 500 Kind.TypeDecl
    [Some (leaf 501 Kind.Identifier "b"); None;
     Some (node 502 Kind.RecordTypeDef
             [Some (leaf 503 Kind.Abstract_alt_absent EmptyString);
              Some (leaf 504 Kind.Tagged_alt_present EmptyString);
              Some (leaf 505 Kind.Limited_alt_absent EmptyString);
              Some (node 506 Kind.NullRecordDef [None])]);
     None].

Definition D_type_def : AdaNode :=
  node 512 Kind.DerivedTypeDef
    [Some (leaf 513 Kind.Abstract_alt_absent EmptyString);
     Some (leaf 514 Kind.Limited_alt_absent EmptyString);
     Some (leaf 515 Kind.Synchronized_alt_absent EmptyString);
     Some (node 516 Kind.SubtypeIndication
             [Some (leaf 517 Kind.NotNull_alt_absent EmptyString);
              Some (leaf 518 Kind.Identifier "b"); None]);
     None;
     Some (node 519 Kind.NullRecordDef [None]);
     Some (leaf 520 Kind.WithPrivate_alt_absent EmptyString)].

Definition D_decl : AdaNode :=
  node 510 Kind.TypeDecl
    [Some (leaf 511 Kind.Identifier "d"); None; Some D_type_def; None].

Definition S_decl : AdaNode :=
  node 530 Kind.SubtypeDecl
    [Some (leaf 531 Kind.Identifier "s");
     Some (integer_indication 532); None].

(** Type names are resolved by their symbol. *)
Definition designated_type_impl (e : lexical_env) (o : option AdaNode)
  (name : AdaNode) : result (option entity) :=
  if String.eqb (tok name) "integer" then
    Ok (Some (bare Aggregate_example.Integer_decl))
  else if String.eqb (tok name) "b" then Ok (Some (bare B_decl))
  else if String.eqb (tok name) "d" then Ok (Some (bare D_decl))
  else if String.eqb (tok name) "s" then Ok (Some (bare S_decl))
  else Ok None.

Definition B_classwide : entity :=
  bare (MkNode (Synthetic (Parsed 500)) Kind.ClasswideTypeDecl EmptyString
          [Some (leaf 501 Kind.Identifier "b")]).

Definition G_formals : list SingleFormal :=
  Eval vm_compute in
    match Ast.unpacked_formal_params no_parent no_env no_type no_names 1
            (bare G_spec) with
    | Ok formals => formals
    | _ => []
    end.

End Type_examples.

(** [X : Integer;] has no aggregate below it: resolving it is one solve. *)
Lemma resolve_names_without_aggregate_witness :
  Ast.resolve_names Examples.no_env (list equation) Examples.naming_builder
    Examples.recording_solver Examples.object_without_initializer []
  = Ok (true, [Domain (TypeVar (Parsed 70)) []]).
Proof.
  rewrite (proj1 (resolve_names_without_aggregate (list equation)
                    Examples.naming_builder Examples.recording_solver
                    Examples.no_env Examples.object_without_initializer []
                    eq_refl)).
  reflexivity.
Defined.

(** The canonical type of the subtype [S] of [Integer] is [Integer], which
    is its own canonical type. *)
Lemma canonical_type_idempotent_witness :
  Ast.canonical_type Examples.no_env Type_examples.designated_type_impl 2
    None (Examples.bare Type_examples.S_decl)
  = Ok (Examples.bare Aggregate_example.Integer_decl) /\
  Ast.canonical_type Examples.no_env Type_examples.designated_type_impl 1
    None (Examples.bare Aggregate_example.Integer_decl)
  = Ok (Examples.bare Aggregate_example.Integer_decl).
Proof.
  assert (H : Ast.canonical_type Examples.no_env
                Type_examples.designated_type_impl 2 None
                (Examples.bare Type_examples.S_decl)
              = Ok (Examples.bare Aggregate_example.Integer_decl))
    by (vm_compute; reflexivity).
  split; [exact H |].
  exact (proj2 (proj2 (canonical_type_idempotent Examples.no_env
                         Type_examples.designated_type_impl 2 None
                         (Examples.bare Type_examples.S_decl)
                         (Examples.bare Aggregate_example.Integer_decl) H))
           O None).
Defined.

(** [G (1)] is accepted for [G (X : Integer; Y : Integer := 0)]: the one
    formal left, [Y], is not mandatory. *)
Lemma positional_call_accepted_witness :
  Ast.is_matching_param_list Examples.no_parent Examples.no_env
    Examples.no_type Examples.no_names 1 (Examples.bare Examples.G_spec)
    (Some Examples.call_one_positional) false
  = Ok true.
Proof.
  rewrite (positional_call_accepted Examples.no_parent Examples.no_env
             Examples.no_type Examples.no_names 1
             (Examples.bare Examples.G_spec) Examples.call_one_positional
             Type_examples.G_formals);
    vm_compute; reflexivity.
Defined.

(** [G]'s subprogram specification is not parameterless: the empty
    argument list is refused. *)
Lemma paramless_is_empty_call_witness :
  Ast.paramless Examples.no_parent Examples.no_env Examples.no_type
    Examples.no_names 1 (Examples.bare Examples.G_spec) No_Metadata
  = Ok false.
Proof.
  rewrite <- (paramless_is_empty_call Examples.no_parent Examples.no_env
                Examples.no_type Examples.no_names 1
                (Examples.bare Examples.G_spec)
                (Examples.node 600 Kind.AssocList []) No_Metadata
                eq_refl eq_refl).
  vm_compute. reflexivity.
Defined.

(** The declaration of the operator of the sum example has a subprogram
    specification. *)
Lemma abstract_properties_implemented_witness :
  exists spec,
    subp_decl_spec (Examples.bare Operator_example.plus_decl) = Ok spec.
Proof.
  apply (proj1 (abstract_properties_implemented Operator_example.node_env
                  Operator_example.st Operator_example.declared_after)).
  - reflexivity.
  - discriminate.
Defined.

(** The tagged type [B] and [B'Class]. *)
Lemma classwide_type_derivation_witness :
  classwide_type Type_examples.B_classwide
  = Ok (Some Type_examples.B_classwide) /\
  Ast.is_derived_type Examples.no_parent Examples.no_env
    Type_examples.designated_type_impl 1
    (Examples.bare Type_examples.B_decl) (Some Type_examples.B_classwide)
  = Ok true /\
  Ast.is_derived_type Examples.no_parent Examples.no_env
    Type_examples.designated_type_impl 1
    Type_examples.B_classwide (Some (Examples.bare Type_examples.B_decl))
  = Ok true.
Proof.
  apply (classwide_type_derivation Examples.no_parent Examples.no_env
           Type_examples.designated_type_impl 0
           (Examples.bare Type_examples.B_decl)).
  vm_compute. reflexivity.
Defined.

(** [D], derived from [B], is derived from [B'Class]. *)
Lemma derived_from_classwide_of_base_witness :
  Ast.is_derived_type Examples.no_parent Examples.no_env
    Type_examples.designated_type_impl 2
    (Examples.bare Type_examples.D_decl) (Some Type_examples.B_classwide)
  = Ok true.
Proof.
  eapply (derived_from_classwide_of_base Examples.no_parent Examples.no_env
            Type_examples.designated_type_impl 0
            (Examples.bare Type_examples.D_decl)
            (Examples.bare Type_examples.B_decl));
    vm_compute; reflexivity.
Defined.

(** [type E is new R with record B : Integer; end record;], the nested
    call [A (1) (2)] and [type V is array (...) of Integer;]. *)
Module More_examples.

Import Examples.

Definition E_B : AdaNode := leaf 561 Kind.Identifier "b".

Definition E_component : AdaNode :=
  node 562 Kind.ComponentDecl
    [Some (node 563 Kind.Identifier_list [Some E_B]);
     Some (node 564 Kind.ComponentDef
             [Some (leaf 565 Kind.Aliased_alt_absent EmptyString);
              Some (integer_indication 566)]);
     None; None].

Definition E_components : AdaNode :=
  node 560 Kind.ComponentList
    [Some (node 570 Kind.AdaNode_list [Some E_component]); None].

Definition E_record_def : AdaNode :=
  node 559 Kind.RecordDef [Some E_components].

Definition E_type_def : AdaNode :=
  node 552 Kind.DerivedTypeDef
    [Some (leaf 553 Kind.Abstract_alt_absent EmptyString);
     Some (leaf 554 Kind.Limited_alt_absent EmptyString);
     Some (leaf 555 Kind.Synchronized_alt_absent EmptyString);
     Some (node 556 Kind.SubtypeIndication
             [Some (leaf 557 Kind.NotNull_alt_absent EmptyString);
              Some (leaf 558 Kind.Identifier "r"); None]);
     None;
     Some E_record_def;
     Some (leaf 571 Kind.WithPrivate_alt_absent EmptyString)].

Definition E_decl : AdaNode :=
  node 550 Kind.TypeDecl
    [Some (leaf 551 Kind.Identifier "e"); None; Some E_type_def; None].

Definition parent (n : AdaNode) : option AdaNode :=
  match id_of n with
  | Parsed 560 => Some E_record_def
  | Parsed 559 => Some E_type_def
  | Parsed 552 => Some E_decl
  | _ => Aggregate_example.parent n
  end.

Definition designated_type_impl (e : lexical_env) (o : option AdaNode)
  (name : AdaNode) : result (option entity) :=
  if String.eqb (tok name) "r" then Ok (Some (bare R_decl))
  else Type_examples.designated_type_impl e o name.

Definition R_formals : list SingleFormal :=
  Eval vm_compute in
    match Ast.unpacked_formal_params parent no_env designated_type_impl
            no_names 1 (bare R_components) with
    | Ok formals => formals
    | _ => []
    end.

Definition E_formals : list SingleFormal :=
  Eval vm_compute in
    match Ast.unpacked_formal_params parent no_env designated_type_impl
            no_names 2 (bare E_components) with
    | Ok formals => formals
    | _ => []
    end.

(** [A (1) (2)]. *)
Definition A_name : AdaNode := leaf 580 Kind.Identifier "a".

Definition inner_call : AdaNode :=
  node 581 Kind.CallExpr
    [Some A_name;
     Some (node 582 Kind.AssocList
             [Some (node 583 Kind.ParamAssoc
                      [None; Some (leaf 584 Kind.IntLiteral "1")])])].

Definition outer_call : AdaNode :=
  node 585 Kind.CallExpr
    [Some inner_call;
     Some (node 586 Kind.AssocList
             [Some (node 587 Kind.ParamAssoc
                      [None; Some (leaf 588 Kind.IntLiteral "2")])])].

(** [function F (X, Y : Integer) return Integer], declared a second
    time. *)
Definition F_spec_again : AdaNode :=
  node 590 Kind.SubpSpec
    [Some (leaf 591 Kind.SubpKind_alt_function EmptyString);
     Some (leaf 592 Kind.Identifier "f");
     Some (node 593 Kind.Params
             [Some (node 594 Kind.ParamSpec_list [Some F_params])]);
     Some (integer_indication 595)].

(** [type V is array (Positive range <>) of Integer;], the index being
    left out. *)
Definition V_type_def : AdaNode :=
  node 602 Kind.ArrayTypeDef
    [None;
     Some (node 603 Kind.ComponentDef
             [Some (leaf 604 Kind.Aliased_alt_absent EmptyString);
              Some (integer_indication 605)])].

Definition V_decl : AdaNode :=
  node 600 Kind.TypeDecl
    [Some (leaf 601 Kind.Identifier "v"); None; Some V_type_def; None].

Definition no_access_def_matches (o : option AdaNode) (atd other : entity)
  : result bool := Ok false.

End More_examples.

(** [D], derived from the tagged type [B], matches a formal of type
    [B'Class] and can be assigned to a destination of that type. *)
Lemma classwide_accepts_derived_witness :
  matching_formal_type Examples.no_parent Examples.no_env
    Type_examples.designated_type_impl More_examples.no_access_def_matches
    2 None (Examples.bare Type_examples.D_decl)
    (Some Type_examples.B_classwide) = Ok true /\
  matching_assign_type Examples.no_parent Examples.no_env
    Type_examples.designated_type_impl More_examples.no_access_def_matches
    2 None (Examples.bare Type_examples.D_decl)
    (Some Type_examples.B_classwide) = Ok true.
Proof.
  apply (classwide_accepts_derived Examples.no_parent Examples.no_env
           Type_examples.designated_type_impl
           More_examples.no_access_def_matches 2 None
           (Examples.bare Type_examples.D_decl)
           (Examples.bare Type_examples.B_decl));
    vm_compute; reflexivity.
Defined.

(** [D] does not match a formal of the specific type [B]. *)
Lemma specific_types_match_themselves_witness :
  matching_formal_type Examples.no_parent Examples.no_env
    Type_examples.designated_type_impl More_examples.no_access_def_matches
    2 None (Examples.bare Type_examples.D_decl)
    (Some (Examples.bare Type_examples.B_decl)) = Ok false.
Proof.
  apply (proj1 (specific_types_match_themselves Examples.no_parent
                  Examples.no_env Type_examples.designated_type_impl
                  More_examples.no_access_def_matches 2 None
                  (Examples.bare Type_examples.D_decl)
                  (Examples.bare Type_examples.B_decl)
                  eq_refl eq_refl eq_refl)).
Defined.

(** In [A (1) (2)] the innermost call is [A (1)], and the reference
    variable of the whole is that of [A]. *)
Lemma innermost_callexpr_spec_witness :
  innermost_callexpr More_examples.outer_call = More_examples.inner_call /\
  ref_var More_examples.outer_call = Ok (RefVar (Parsed 580)).
Proof.
  split; [reflexivity |].
  rewrite <- (proj2 (proj2 (proj2 (innermost_callexpr_spec
                                     More_examples.outer_call)) eq_refl)).
  reflexivity.
Defined.

(** The components of [E], derived from [R]: [A], inherited, then [B]. *)
Lemma inherited_components_first_witness :
  exists own,
    More_examples.E_formals = More_examples.R_formals ++ own /\
    length own = 1%nat.
Proof.
  destruct (inherited_components_first More_examples.parent Examples.no_env
              More_examples.designated_type_impl Examples.no_names 1
              (Examples.bare More_examples.E_components)
              (Examples.bare Examples.R_components)
              More_examples.E_formals eq_refl eq_refl eq_refl)
    as (inherited & own & comps & Hp & Hf & _).
  exists own. vm_compute in Hp. injection Hp as <-.
  split; [exact Hf |].
  apply (f_equal (@length _)) in Hf. rewrite length_app in Hf.
  cbn in Hf. lia.
Defined.

(** The two declarations of [F] match each other's signature. *)
Lemma match_signature_symmetric_witness :
  match_signature Examples.no_parent Examples.no_env
    Type_examples.designated_type_impl Examples.no_names 1
    (Examples.bare More_examples.F_spec_again)
    (Some (Examples.bare Examples.F_spec)) = Ok true.
Proof.
  destruct (match_signature Examples.no_parent Examples.no_env
              Type_examples.designated_type_impl Examples.no_names 1
              (Examples.bare More_examples.F_spec_again)
              (Some (Examples.bare Examples.F_spec))) as [v | |] eqn:H;
    [| vm_compute in H; discriminate H ..].
  f_equal. symmetry.
  apply (match_signature_symmetric Examples.no_parent Examples.no_env
           Type_examples.designated_type_impl Examples.no_names 1
           (Examples.bare Examples.F_spec)
           (Examples.bare More_examples.F_spec_again) true v);
    [vm_compute; reflexivity | exact H].
Defined.

(** The two declarations of [F] have two formals each. *)
Lemma match_signature_sound_witness :
  exists formals_a formals_b,
    Ast.unpacked_formal_params Examples.no_parent Examples.no_env
      Type_examples.designated_type_impl Examples.no_names 1
      (Examples.bare Examples.F_spec) = Ok formals_a /\
    Ast.unpacked_formal_params Examples.no_parent Examples.no_env
      Type_examples.designated_type_impl Examples.no_names 1
      (Examples.bare More_examples.F_spec_again) = Ok formals_b /\
    length formals_a = length formals_b.
Proof.
  destruct (match_signature_sound Examples.no_parent Examples.no_env
              Type_examples.designated_type_impl Examples.no_names 1
              (Examples.bare Examples.F_spec)
              (Examples.bare More_examples.F_spec_again) eq_refl)
    as (na & nb & fa & fb & _ & _ & _ & _ & Ha & Hb & Hlen & _).
  exists fa, fb. auto.
Defined.

(** The reference variable of [A (1) (2)] is that of a node of the
    call. *)
Lemma ref_var_within_witness :
  exists m,
    m ∈ nodes More_examples.outer_call /\
    Kind.is_a (kind m) Kind.SingleTokNode = true /\
    RefVar (Parsed 580) = RefVar (id_of m).
Proof.
  apply (ref_var_within More_examples.outer_call (RefVar (Parsed 580))).
  reflexivity.
Defined.

(** The array type [V] has no record definition. *)
Lemma array_def_excludes_record_def_witness :
  Ast.record_def Examples.no_parent 1 (Examples.bare More_examples.V_decl)
  = Ok None.
Proof.
  apply (proj2 (array_def_excludes_record_def Examples.no_parent 0
                  (Examples.bare More_examples.V_decl)
                  (Examples.bare More_examples.V_type_def) eq_refl)).
Defined.

Module Further_examples.

Import Examples.

(** [access Integer], as an anonymous type expression. *)
Definition anonymous_access_def : AdaNode :=
  node 612 Kind.TypeAccessDef
    [Some (leaf 613 Kind.NotNull_alt_absent EmptyString);
     Some (leaf 614 Kind.All_alt_absent EmptyString);
     Some (leaf 615 Kind.Constant_alt_absent EmptyString);
     Some (integer_indication 616);
     None].

Definition anonymous_decl : AdaNode :=
  node 611 Kind.AnonymousTypeDecl
    [None; None; Some anonymous_access_def; None].

Definition anonymous_type : AdaNode :=
  node 610 Kind.AnonymousType [Some anonymous_decl].

(** The associations of [G (1, Y => 2, P.Z => 3)]. *)
Definition Y_designator : AdaNode := leaf 623 Kind.Identifier "y".

Definition named_assoc : AdaNode :=
  node 622 Kind.ParamAssoc
    [Some Y_designator; Some (leaf 624 Kind.IntLiteral "2")].

Definition dotted_designator : AdaNode :=
  node 626 Kind.DottedName
    [Some (leaf 627 Kind.Identifier "p");
     Some (leaf 628 Kind.Identifier "z")].

Definition dotted_assoc : AdaNode :=
  node 625 Kind.ParamAssoc
    [Some dotted_designator; Some (leaf 629 Kind.IntLiteral "3")].

Definition mixed_call : AdaNode :=
  node 620 Kind.AssocList
    [Some (node 621 Kind.ParamAssoc
             [None; Some (leaf 630 Kind.IntLiteral "1")]);
     Some named_assoc;
     Some dotted_assoc].

Definition mixed_actuals : list SingleActual :=
  Eval vm_compute in
    match unpacked_params mixed_call with
    | Ok actuals => actuals
    | _ => []
    end.

End Further_examples.

(** The element type of the anonymous type expression [access Integer] is
    its anonymous type declaration, not [Integer]. *)
Lemma element_type_is_designated_type_witness :
  element_type Examples.no_env Type_examples.designated_type_impl 1 None
    (Examples.bare Further_examples.anonymous_type)
  = Ok (Some (Examples.bare Further_examples.anonymous_decl)).
Proof.
  apply (proj2 (element_type_is_designated_type Examples.no_env
                  Type_examples.designated_type_impl 1 None
                  (Examples.bare Further_examples.anonymous_type)));
    reflexivity.
Defined.

(** Of the associations of [G (1, Y => 2, P.Z => 3)], the one designated
    by [P.Z] yields no actual. *)
Lemma unpacked_params_spec_witness :
  Forall (fun a => actual_assoc a <> Some Further_examples.dotted_assoc)
    Further_examples.mixed_actuals.
Proof.
  apply Forall_forall. intros a Ha Hassoc.
  apply (proj1 (proj1 (unpacked_params_spec Further_examples.mixed_call
                         Further_examples.mixed_actuals eq_refl) a)) in Ha
    as (pa & ns & _ & Hns & Hpa & Hname).
  rewrite Hassoc in Hpa. injection Hpa as <-.
  vm_compute in Hns. injection Hns as <-.
  destruct (actual_name a) as [nm |]; [| discriminate Hname].
  destruct Hname as [Hin Hk].
  apply list_elem_of_singleton in Hin. injection Hin as ->.
  vm_compute in Hk. discriminate Hk.
Defined.

Module String_examples.

Import Examples.

(** [type Char is ('a', 'b');] and [type Str is array (1 .. 8) of
    Char;]. *)
Definition Char_decl : AdaNode :=
  node 640 Kind.EnumTypeDecl
    [Some (leaf 641 Kind.Identifier "char");
     Some (node 642 Kind.EnumLiteralDecl_list
             [Some (node 643 Kind.EnumLiteralDecl
                      [Some (leaf 644 Kind.CharLiteral "'a'")]);
              Some (node 645 Kind.EnumLiteralDecl
                      [Some (leaf 646 Kind.CharLiteral "'b'")])]);
     None].

Definition Str_type_def : AdaNode :=
  node 652 Kind.ArrayTypeDef
    [Some (node 653 Kind.ConstrainedArrayIndices
             [Some (node 654 Kind.AdaNode_list
                      [Some (node 655 Kind.BinOp
                               [Some (leaf 656 Kind.IntLiteral "1");
                                Some (leaf 657 Kind.Op_alt_double_dot
                                        EmptyString);
                                Some (leaf 658 Kind.IntLiteral "8")])])]);
     Some (node 659 Kind.ComponentDef
             [Some (leaf 660 Kind.Aliased_alt_absent EmptyString);
              Some (node 661 Kind.SubtypeIndication
                      [Some (leaf 662 Kind.NotNull_alt_absent EmptyString);
                       Some (leaf 663 Kind.Identifier "char"); None])])].

Definition Str_decl : AdaNode :=
  node 650 Kind.TypeDecl
    [Some (leaf 651 Kind.Identifier "str"); None; Some Str_type_def; None].

Definition designated_type_impl (e : lexical_env) (o : option AdaNode)
  (name : AdaNode) : result (option entity) :=
  if String.eqb (tok name) "char" then Ok (Some (bare Char_decl))
  else Type_examples.designated_type_impl e o name.

End String_examples.

(** [Str] is a string type, of one dimension. *)
Lemma is_str_type_own_array_witness :
  array_ndims Examples.no_env String_examples.designated_type_impl 3
    (Examples.bare String_examples.Str_decl)
  = Ok 1.
Proof.
  destruct (is_str_type_own_array Examples.no_env
              String_examples.designated_type_impl 3 None
              (Examples.bare String_examples.Str_decl) eq_refl)
    as (_ & _ & atd & indices & c & n & _ & Htd & _ & _ & Hi & Hn & _ & H & _).
  rewrite H. f_equal.
  injection Htd as Htd. destruct atd as [atd i]. cbn [el] in *. subst atd.
  injection Hi as <-. vm_compute in Hn. injection Hn as <-. reflexivity.
Defined.
